(** * mcp-bigquery-server: the read-only query gateway, the tabular
      summarizer and the chart builder of [src/index.ts]

    A shallow embedding of the tool handlers of [src/index.ts] and the
    properties the specification states about them.

    Conventions of the embedding.
    - A JavaScript string is the list of its UTF-16 code units.
    - A regular expression literal is a value of [regex]; a backtracking
      matcher in continuation-passing style gives it the meaning ECMAScript
      gives it (greedy quantifiers, ordered alternatives, leftmost match).
    - A handler is a computation that may call the warehouse client, return
      a tool result, or throw: [M] records the calls in a trace.
    - Built-ins of the runtime whose tables are not part of the repository
      ([String.prototype.toUpperCase], [JSON.stringify], the string/number
      conversions) are section variables.
    - An object is modelled by its own enumerable properties, in the
      order [Object.keys] lists them.  The members a plain object inherits
      from [Object.prototype] are modelled where a handler uses an object
      as a map whose keys come from the data: a read through the
      prototype ([inheritedText]) and an assignment to the key
      [__proto__] ([assignPrimitive], [Statistics]).  A row is read by
      its own properties: [row[col]] is [undefined] for a row that does
      not hold [col] itself.
    - A number is a double, with the arithmetic of [SpecFloat]; a count of
      rows or of occurrences, which stays below 2^32, is a natural
      number.
    - A value of JSON holds no function, so an object with an own
      property [toString] cannot be converted to a primitive
      ([convertible]). *)

From Stdlib Require Import Ascii String.
From Stdlib Require Import NArith ZArith QArith Qround Qabs Bool Arith Lia Lqa.
From Stdlib Require Import List Sorting.Sorted Sorting.Permutation.
From Stdlib Require SpecFloat.
Import ListNotations.

Set Implicit Arguments.
Set Warnings "-register-all".
Local Close Scope Q_scope.

(* ================================================================== *)
(** ** Strings as sequences of code units *)
(* ================================================================== *)

Definition codeUnit := N.
Bind Scope N_scope with codeUnit.
Definition jsstring := list codeUnit.

(** An ASCII literal of the source as a JavaScript string. *)
Definition lit (s : string) : jsstring :=
  List.map N_of_ascii (list_ascii_of_string s).

Definition inRange (lo hi c : codeUnit) : bool := (lo <=? c)%N && (c <=? hi)%N.

Definition isUpper (c : codeUnit) : bool := inRange 65 90 c.
Definition isLower (c : codeUnit) : bool := inRange 97 122 c.
Definition isDigit (c : codeUnit) : bool := inRange 48 57 c.

(** [\w]: the word characters [A-Za-z0-9_]. *)
Definition isWordChar (c : codeUnit) : bool :=
  isUpper c || isLower c || isDigit c || (c =? 95)%N.

(** [\s]: WhiteSpace and LineTerminator of ECMAScript. *)
Definition isWhiteSpace (c : codeUnit) : bool :=
  inRange 9 13 c || (c =? 32)%N || (c =? 160)%N || (c =? 5760)%N
  || inRange 8192 8202 c || (c =? 8232)%N || (c =? 8233)%N
  || (c =? 8239)%N || (c =? 8287)%N || (c =? 12288)%N || (c =? 65279)%N.

(** Canonicalize of a pattern without the [u] flag: a letter of [a-z] is
    compared through its capital.  A code unit above 127 never
    canonicalises to an ASCII one, and every literal of the patterns below
    is ASCII, so such a unit stands for itself. *)
Definition canonicalize (c : codeUnit) : codeUnit :=
  if isLower c then (c - 32)%N else c.

Definition sameChar (ignoreCase : bool) (p c : codeUnit) : bool :=
  if ignoreCase then (canonicalize p =? canonicalize c)%N else (p =? c)%N.

Fixpoint eqs (a b : jsstring) : bool :=
  match a, b with
  | [], [] => true
  | x :: a', y :: b' => (x =? y)%N && eqs a' b'
  | _, _ => false
  end.

Fixpoint startsWith (needle s : jsstring) : bool :=
  match needle, s with
  | [], _ => true
  | x :: n', y :: s' => (x =? y)%N && startsWith n' s'
  | _ :: _, [] => false
  end.

(** [s.includes(needle)]. *)
Fixpoint includes (needle s : jsstring) : bool :=
  startsWith needle s ||
  match s with
  | [] => false
  | _ :: s' => includes needle s'
  end.

(* ================================================================== *)
(** ** Regular expressions *)
(* ================================================================== *)

Inductive regex : Type :=
| Eps                                  (* the empty pattern *)
| Char (c : codeUnit)                  (* a pattern character *)
| Class (p : codeUnit -> bool)         (* \s, \w, [a-z0-9-] *)
| WordBoundary                         (* \b *)
| Bol                                  (* ^ *)
| Eol                                  (* $ *)
| Seq (r1 r2 : regex)
| Alt (r1 r2 : regex)                  (* r1|r2 *)
| Opt (r : regex)                      (* r? *)
| Plus (r : regex)                     (* r+ *)
| Group (r : regex).                   (* (r), the capture of the pattern *)

(** A literal run of pattern characters. *)
Fixpoint str (s : jsstring) : regex :=
  match s with
  | [] => Eps
  | c :: s' => Seq (Char c) (str s')
  end.

Fixpoint alts (r : regex) (rs : list regex) : regex :=
  match rs with
  | [] => r
  | r' :: rs' => Alt r (alts r' rs')
  end.

(** The state of a match in progress: the code unit before the current
    position (none at the start of the input), the input still to read,
    and the capture. *)
Record mstate : Type := MState {
  prev : option codeUnit;
  rest : jsstring;
  capture : option jsstring
}.

Definition step (st : mstate) (c : codeUnit) (s : jsstring) : mstate :=
  MState (Some c) s (capture st).

Definition isWordAt (c : option codeUnit) : bool :=
  match c with
  | Some c => isWordChar c
  | None => false
  end.

Section Matcher.
Variable ignoreCase : bool.

(** The iterations of [r+] after the first, [once] being the matcher of
    [r]: each one must consume input, the longest run is tried first, and
    [fuel] bounds the iterations by the length of the input. *)
Fixpoint more (once : mstate -> (mstate -> option mstate) -> option mstate)
         (k : mstate -> option mstate) (fuel : nat) (st : mstate)
  : option mstate :=
  match fuel with
  | O => k st
  | S fuel' =>
      match once st (fun st' =>
              if (length (rest st') <? length (rest st))%nat
              then more once k fuel' st' else None) with
      | Some m => Some m
      | None => k st
      end
  end.

(** The matcher: [k] is the rest of the pattern; [None] is failure, and
    a failed continuation makes the matcher try its next choice. *)
Fixpoint matcher (r : regex) (st : mstate)
         (k : mstate -> option mstate) {struct r} : option mstate :=
  match r with
  | Eps => k st
  | Char p =>
      match rest st with
      | c :: s => if sameChar ignoreCase p c then k (step st c s) else None
      | [] => None
      end
  | Class p =>
      match rest st with
      | c :: s => if p c then k (step st c s) else None
      | [] => None
      end
  | WordBoundary =>
      if xorb (isWordAt (prev st)) (isWordAt (hd_error (rest st)))
      then k st else None
  | Bol => match prev st with None => k st | Some _ => None end
  | Eol => match rest st with [] => k st | _ :: _ => None end
  | Seq r1 r2 => matcher r1 st (fun st' => matcher r2 st' k)
  | Alt r1 r2 =>
      match matcher r1 st k with
      | Some m => Some m
      | None => matcher r2 st k
      end
  | Opt r1 =>
      match matcher r1 st k with
      | Some m => Some m
      | None => k st
      end
  | Plus r1 =>
      matcher r1 st (fun st1 =>
        more (matcher r1) k (length (rest st1)) st1)
  | Group r1 =>
      matcher r1 st (fun st' =>
        k (MState (prev st') (rest st')
             (Some (firstn (length (rest st) - length (rest st')) (rest st)))))
  end.

(** A match that starts at the current position. *)
Definition matchHere (r : regex) (p : option codeUnit) (s : jsstring)
  : option mstate :=
  matcher r (MState p s None) Some.

(** [regex.test(s)] of a pattern without the [g] flag: the positions are
    tried from the left. *)
Fixpoint testFrom (r : regex) (p : option codeUnit) (s : jsstring) : bool :=
  match matchHere r p s with
  | Some _ => true
  | None =>
      match s with
      | [] => false
      | c :: s' => testFrom r (Some c) s'
      end
  end.

Definition test (r : regex) (s : jsstring) : bool := testFrom r None s.
End Matcher.

(** Thrown values: an instance of [Error] with its message, or any other
    value. *)
Inductive exn : Type :=
| ErrorObj (message : jsstring)
| NonError.

Inductive outcome (A : Type) : Type :=
| Returned (a : A)
| Thrown (e : exn).
Arguments Returned {A} a.
Arguments Thrown {A} e.

(** [s.replace(r, f)] for a pattern with the [g] flag and a replacer
    function [f], which receives the matched text and the capture: the
    matches are found from the left, each search resuming where the match
    before it ended.  [fuel] bounds the number of positions visited. *)
Fixpoint replaceFrom (ignoreCase : bool) (r : regex)
         (f : jsstring -> option jsstring -> outcome jsstring)
         (fuel : nat) (p : option codeUnit) (s : jsstring)
  : outcome jsstring :=
  match fuel with
  | O => Returned s
  | S fuel' =>
      match matchHere ignoreCase r p s with
      | Some st =>
          let matched := firstn (length s - length (rest st)) s in
          match f matched (capture st) with
          | Thrown e => Thrown e
          | Returned new =>
              match matched, rest st with
              | [], c :: s' =>
                  match replaceFrom ignoreCase r f fuel' (Some c) s' with
                  | Returned out => Returned (new ++ c :: out)
                  | Thrown e => Thrown e
                  end
              | [], [] => Returned new
              | _ :: _, s' =>
                  match replaceFrom ignoreCase r f fuel' (prev st) s' with
                  | Returned out => Returned (new ++ out)
                  | Thrown e => Thrown e
                  end
              end
          end
      | None =>
          match s with
          | [] => Returned []
          | c :: s' =>
              match replaceFrom ignoreCase r f fuel' (Some c) s' with
              | Returned out => Returned (c :: out)
              | Thrown e => Thrown e
              end
          end
      end
  end.

Definition replace (ignoreCase : bool) (r : regex)
           (f : jsstring -> option jsstring -> outcome jsstring)
           (s : jsstring) : outcome jsstring :=
  replaceFrom ignoreCase r f (S (length s)) None s.

(* ================================================================== *)
(** ** The query gateway *)
(* ================================================================== *)

(** [ServerConfig] (lines 17-21). *)
Record ServerConfig : Type := {
  projectId : jsstring;
  location : option jsstring;
  keyFilename : option jsstring
}.

(** The project-id check of [validateConfig] (line 65):
    [/^[a-z0-9-]+$/.test(config.projectId)]. *)
Definition isProjectIdChar (c : codeUnit) : bool :=
  isLower c || isDigit c || (c =? 45)%N.

Definition projectIdPattern : regex :=
  Seq Bol (Seq (Plus (Class isProjectIdChar)) Eol).

Definition validProjectId (config : ServerConfig) : bool :=
  test false projectIdPattern (projectId config).

(** [unqualifiedPattern] of [qualifyTablePath] (line 161):
    [/FROM\s+(?:(\w+)\.)?INFORMATION_SCHEMA\.TABLES/gi]. *)
Definition datasetPrefix : regex :=            (* (\w+)\. *)
  Seq (Group (Plus (Class isWordChar))) (Char 46).

Definition tablesPath : regex :=               (* INFORMATION_SCHEMA\.TABLES *)
  str (lit "INFORMATION_SCHEMA.TABLES").

Definition unqualifiedPattern : regex :=
  Seq (str (lit "FROM"))
   (Seq (Plus (Class isWhiteSpace))
     (Seq (Opt datasetPrefix) tablesPath)).

Definition datasetError : exn :=
  ErrorObj (lit "Dataset must be specified when querying INFORMATION_SCHEMA (e.g. dataset.INFORMATION_SCHEMA.TABLES)").

Definition qualified (projectId dataset : jsstring) : jsstring :=
  lit "FROM `" ++ projectId ++ lit "." ++ dataset
  ++ lit ".INFORMATION_SCHEMA.TABLES`".

(** The replacer of [qualifyTablePath] (lines 162-167); [if (dataset)]
    holds for a capture that took part in the match and is not empty. *)
Definition qualifyMatch (projectId : jsstring) (_match : jsstring)
           (dataset : option jsstring) : outcome jsstring :=
  match dataset with
  | Some (c :: ds) => Returned (qualified projectId (c :: ds))
  | _ => Thrown datasetError
  end.

(** [qualifyTablePath] (lines 159-168). *)
Definition qualifyTablePath (sql projectId : jsstring) : outcome jsstring :=
  replace true unqualifiedPattern (qualifyMatch projectId) sql.

(** [forbiddenPattern] (line 334):
    [/\b(INSERT|UPDATE|DELETE|CREATE|DROP|ALTER|MERGE|TRUNCATE|GRANT|REVOKE|EXECUTE|BEGIN|COMMIT|ROLLBACK)\b/i]. *)
Definition forbiddenKeywords : list jsstring :=
  List.map lit
    ["INSERT"; "UPDATE"; "DELETE"; "CREATE"; "DROP"; "ALTER"; "MERGE";
     "TRUNCATE"; "GRANT"; "REVOKE"; "EXECUTE"; "BEGIN"; "COMMIT";
     "ROLLBACK"]%string.

Definition forbiddenPattern : regex :=
  Seq WordBoundary
   (Seq (Group (alts (str (lit "INSERT")) (List.map str (tl forbiddenKeywords))))
        WordBoundary).

(** The request sent to the warehouse client by [bigquery.query] (lines
    345-349). *)
Record QueryOptions : Type := {
  query : jsstring;
  queryLocation : option jsstring;
  maximumBytesBilled : jsstring
}.

(** The result of a tool call. *)
Record ToolResult : Type := {
  text : jsstring;
  isError : bool
}.

(** A handler computes in [M]: it reads and extends the trace of the
    requests sent to the warehouse, and ends by returning or throwing. *)
Definition M (A : Type) : Type :=
  list QueryOptions -> outcome A * list QueryOptions.

Definition ret {A} (a : A) : M A := fun calls => (Returned a, calls).

Definition throw {A} (e : exn) : M A := fun calls => (Thrown e, calls).

Definition bind {A B} (m : M A) (f : A -> M B) : M B :=
  fun calls =>
    match m calls with
    | (Returned a, calls') => f a calls'
    | (Thrown e, calls') => (Thrown e, calls')
    end.

Definition tryCatch {A} (body : M A) (handler : exn -> M A) : M A :=
  fun calls =>
    match body calls with
    | (Returned a, calls') => (Returned a, calls')
    | (Thrown e, calls') => handler e calls'
    end.

Definition liftOutcome {A} (o : outcome A) : M A := fun calls => (o, calls).

Notation "x <- m ;; f" := (bind m (fun x => f))
  (at level 61, m at next level, right associativity).

(** A handler run from the empty trace. *)
Definition run {A} (m : M A) : outcome A * list QueryOptions := m [].

(** [request.params.arguments?.maximumBytesBilled || "1000000000"] (line
    331): the default stands for an absent or empty argument. *)
Definition bytesBilled (maximumBytes : option jsstring) : jsstring :=
  match maximumBytes with
  | Some (c :: m) => c :: m
  | _ => lit "1000000000"
  end.

Section Gateway.
(** The rows a query yields, and the built-ins of the runtime and the
    warehouse client the handler calls. *)
Variable Rows : Type.
Variable JSON_stringify : Rows -> jsstring.
Variable toUpperCase : jsstring -> jsstring.
Variable bigquery_query : QueryOptions -> outcome Rows.

Variable config : ServerConfig.

(** [await bigquery.query(options)]. *)
Definition awaitQuery (options : QueryOptions) : M Rows :=
  fun calls => (bigquery_query options, calls ++ [options]).

(** Lines 340-343 of the handler: the qualification of
    INFORMATION_SCHEMA references. *)
Definition qualifyInformationSchema (sql : jsstring) : outcome jsstring :=
  if includes (lit "INFORMATION_SCHEMA") (toUpperCase sql)
  then qualifyTablePath sql (projectId config)
  else Returned sql.

(** The branch of the tool-call handler for the tool [query] (lines
    329-364). *)
Definition callToolQuery (sql : jsstring) (maximumBytes : option jsstring)
  : M ToolResult :=
  let maximumBytesBilled := bytesBilled maximumBytes in
  if test true forbiddenPattern sql
  then throw (ErrorObj (lit "Only READ operations are allowed"))
  else
    tryCatch
      (sql' <- liftOutcome (qualifyInformationSchema sql) ;;
       rows <- awaitQuery {| query := sql';
                             queryLocation := location config;
                             maximumBytesBilled := maximumBytesBilled |} ;;
       ret {| text := JSON_stringify rows; isError := false |})
      (fun error =>
         match error with
         | ErrorObj message =>
             ret {| text := lit "Error executing query: " ++ message;
                    isError := true |}
         | NonError => throw error
         end).
End Gateway.

(* ================================================================== *)
(** ** The gateway, stated without the matcher *)
(* ================================================================== *)

(** The last code unit of [s], or [p] for the empty string. *)
Fixpoint lastUnit (p : option codeUnit) (s : jsstring) : option codeUnit :=
  match s with
  | [] => p
  | c :: s' => lastUnit (Some c) s'
  end.

(** Reading the literal [l] off the input. *)
Fixpoint eat (ignoreCase : bool) (l : jsstring) (st : mstate)
  : option mstate :=
  match l with
  | [] => Some st
  | p :: l' =>
      match rest st with
      | c :: s => if sameChar ignoreCase p c then eat ignoreCase l' (step st c s)
                  else None
      | [] => None
      end
  end.

(** Reading [l] off a string, in any letter case. *)
Fixpoint strip (l s : jsstring) : option jsstring :=
  match l, s with
  | [], _ => Some s
  | p :: l', c :: s' => if sameChar true p c then strip l' s' else None
  | _ :: _, [] => None
  end.

(** The longest prefix whose code units satisfy [p], and what follows. *)
Fixpoint span (p : codeUnit -> bool) (s : jsstring) : jsstring * jsstring :=
  match s with
  | [] => ([], [])
  | c :: s' =>
      if p c then let (w, r) := span p s' in (c :: w, r) else ([], s)
  end.

(** [w] spells the word [kw], in any letter case. *)
Definition spells (kw w : jsstring) : Prop :=
  List.map canonicalize w = List.map canonicalize kw.

Definition allOf (p : codeUnit -> bool) (s : jsstring) : Prop :=
  Forall (fun c => p c = true) s.

(** [sql] holds the keyword [kw] as a word of its own: in any letter case,
    with no word character on either side. *)
Definition standaloneWord (kw sql : jsstring) : Prop :=
  exists pre w post,
    sql = pre ++ w ++ post /\ spells kw w
    /\ isWordAt (lastUnit None pre) = false
    /\ isWordAt (hd_error post) = false.

(** [m] is the text [FROM ds.INFORMATION_SCHEMA.TABLES]: the words in any
    letter case, white space after FROM, the dataset a run of word
    characters. *)
Definition qualifiedOccurrence (ds m : jsstring) : Prop :=
  exists f ws i,
    m = f ++ ws ++ ds ++ lit "." ++ i
    /\ spells (lit "FROM") f
    /\ ws <> [] /\ allOf isWhiteSpace ws
    /\ ds <> [] /\ allOf isWordChar ds
    /\ spells (lit "INFORMATION_SCHEMA.TABLES") i.

(** [m] is the text [FROM INFORMATION_SCHEMA.TABLES], with no dataset. *)
Definition unqualifiedOccurrence (m : jsstring) : Prop :=
  exists f ws i,
    m = f ++ ws ++ i
    /\ spells (lit "FROM") f
    /\ ws <> [] /\ allOf isWhiteSpace ws
    /\ spells (lit "INFORMATION_SCHEMA.TABLES") i.

(** The text a match of [unqualifiedPattern] covers, with its capture. *)
Definition occurrence (dataset : option jsstring) (m : jsstring) : Prop :=
  match dataset with
  | Some ds => qualifiedOccurrence ds m
  | None => unqualifiedOccurrence m
  end.

(** A match of [unqualifiedPattern] at the head of [s], read off directly:
    the capture and the input after the match. *)
Definition matchFrom (s : jsstring) : option (option jsstring * jsstring) :=
  match strip (lit "FROM") s with
  | None => None
  | Some s1 =>
      let (ws, s2) := span isWhiteSpace s1 in
      match ws with
      | [] => None
      | _ :: _ =>
          let (w, s3) := span isWordChar s2 in
          let withDataset :=
            match w, s3 with
            | _ :: _, c :: s4 =>
                if sameChar true 46 c
                then strip (lit "INFORMATION_SCHEMA.TABLES") s4 else None
            | _, _ => None
            end in
          match withDataset with
          | Some r => Some (Some w, r)
          | None =>
              match strip (lit "INFORMATION_SCHEMA.TABLES") s2 with
              | Some r => Some (None, r)
              | None => None
              end
          end
      end
  end.

(** [s] begins like a match: FROM in any letter case, then white space. *)
Definition startsFrom (s : jsstring) : bool :=
  match strip (lit "FROM") s with
  | Some (c :: _) => isWhiteSpace c
  | _ => false
  end.

(** [x] put before the result of a rewrite that did not throw. *)
Definition prepend (x : jsstring) (o : outcome jsstring) : outcome jsstring :=
  match o with
  | Returned out => Returned (x ++ out)
  | Thrown e => Thrown e
  end.

Definition notWhiteSpace (c : codeUnit) : bool := negb (isWhiteSpace c).

(** The code units a match is made of. *)
Definition isMatchChar (c : codeUnit) : bool :=
  isWordChar c || isWhiteSpace c || (c =? 46)%N.

(** Stand-ins for the runtime and the warehouse in the examples: a project,
    an upper-casing of the letters a-z, a serializer, a warehouse that
    answers and one that fails. *)
Definition exampleConfig : ServerConfig :=
  {| projectId := lit "my-project";
     location := Some (lit "US");
     keyFilename := None |}.

Definition upperAscii (s : jsstring) : jsstring := List.map canonicalize s.

Definition exampleStringify (rows : list jsstring) : jsstring :=
  lit "[" ++ List.concat rows ++ lit "]".

Definition answeringWarehouse (options : QueryOptions)
  : outcome (list jsstring) :=
  Returned [].

Definition failingWarehouse (options : QueryOptions)
  : outcome (list jsstring) :=
  Thrown (ErrorObj (lit "Not found: Table my-project:ds.t")).

(** The result the handler returns for a caught error. *)
Definition queryError (message : jsstring) : ToolResult :=
  {| text := lit "Error executing query: " ++ message; isError := true |}.

Definition datasetMessage : jsstring :=
  lit "Dataset must be specified when querying INFORMATION_SCHEMA (e.g. dataset.INFORMATION_SCHEMA.TABLES)".

(** The request the handler sends for the statement [sql]. *)
Definition queryRequest (config : ServerConfig) (sql : jsstring)
           (maximumBytes : option jsstring) : QueryOptions :=
  {| query := sql;
     queryLocation := location config;
     maximumBytesBilled := bytesBilled maximumBytes |}.

(* ================================================================== *)
(** ** Numbers, values and objects *)
(* ================================================================== *)

(** A number is a double: a binary floating-point number with 53
    significant bits and the exponents of IEEE 754 binary64, two zeros,
    two infinities and NaN, as [SpecFloat] of the Standard Library
    defines them.  The operations round to nearest, ties to even. *)
Definition number : Type := SpecFloat.spec_float.

Definition NaN : number := SpecFloat.S754_nan.

(** The double nearest to an integer. *)
Definition ofZ (z : Z) : number :=
  SpecFloat.binary_normalize 53 1024 z 0 false.

Definition ofNat (n : nat) : number := ofZ (Z.of_nat n).

Definition isNaNnum (n : number) : bool :=
  match n with SpecFloat.S754_nan => true | _ => false end.

Definition nadd (a b : number) : number := SpecFloat.SFadd 53 1024 a b.
Definition nsub (a b : number) : number := SpecFloat.SFsub 53 1024 a b.
Definition nmul (a b : number) : number := SpecFloat.SFmul 53 1024 a b.
Definition ndiv (a b : number) : number := SpecFloat.SFdiv 53 1024 a b.

(** [Math.abs]. *)
Definition nabs (a : number) : number := SpecFloat.SFabs a.

(** [a < b] and [a > b]: false when an operand is NaN. *)
Definition nlt (a b : number) : bool := SpecFloat.SFltb a b.
Definition ngt (a b : number) : bool := nlt b a.

(** The exact value of a number that is finite. *)
Definition exactValue (a : number) : option Q :=
  match a with
  | SpecFloat.S754_zero _ => Some 0%Q
  | SpecFloat.S754_finite negative m e =>
      let magnitude :=
        match e with
        | Zneg k => (Zpos m # Pos.pow 2 k)%Q
        | _ => inject_Z (Zpos m * 2 ^ e)
        end in
      Some (if negative then (- magnitude)%Q else magnitude)
  | _ => None
  end.

(** [Math.floor]: a number without a fractional part is its own floor. *)
Definition nfloor (a : number) : number :=
  match a with
  | SpecFloat.S754_finite negative m (Zneg k) =>
      ofZ (Z.div (if negative then Zneg m else Zpos m) (Zpos (Pos.pow 2 k)))
  | _ => a
  end.

Definition isNegativeZero (a : number) : bool :=
  match a with SpecFloat.S754_zero true => true | _ => false end.

(** [Math.min] and [Math.max] of two numbers: NaN when an operand is NaN,
    and the zero of negative sign is the lesser zero. *)
Definition nmin (a b : number) : number :=
  match SpecFloat.SFcompare a b with
  | Some Lt => a
  | Some Gt => b
  | Some Eq => if isNegativeZero a then a else b
  | None => NaN
  end.

Definition nmax (a b : number) : number :=
  match SpecFloat.SFcompare a b with
  | Some Lt => b
  | Some Gt => a
  | Some Eq => if isNegativeZero a then b else a
  | None => NaN
  end.

(** A number is falsy when it is a zero or NaN. *)
Definition ntruthy (a : number) : bool :=
  match a with
  | SpecFloat.S754_zero _ | SpecFloat.S754_nan => false
  | _ => true
  end.

(** The index a number names in an array: the number is an integer that
    is not negative. *)
Definition indexOf (a : number) : option nat :=
  match exactValue a with
  | Some q =>
      let r := Qred q in
      if (Qden r =? 1)%positive && (0 <=? Qnum r)%Z
      then Some (Z.to_nat (Qnum r)) else None
  | None => None
  end.

(** The values [JSON.parse] yields, and [undefined] for what a row does
    not hold.  An object lists its own properties in the order of
    [Object.keys]. *)
Inductive value : Type :=
| VUndefined
| VNull
| VBool (b : bool)
| VNum (n : number)
| VStr (s : jsstring)
| VArr (elements : list value)
| VObj (properties : list (jsstring * value)).

(** [typeof v]. *)
Definition typeof (v : value) : jsstring :=
  match v with
  | VUndefined => lit "undefined"
  | VBool _ => lit "boolean"
  | VNum _ => lit "number"
  | VStr _ => lit "string"
  | VNull | VArr _ | VObj _ => lit "object"
  end.

(** Decimal digits. *)
Definition digitUnit (d : nat) : codeUnit := (48 + N.of_nat d)%N.

Fixpoint uintToString (u : Decimal.uint) : jsstring :=
  match u with
  | Decimal.Nil => []
  | Decimal.D0 u' => 48%N :: uintToString u'
  | Decimal.D1 u' => 49%N :: uintToString u'
  | Decimal.D2 u' => 50%N :: uintToString u'
  | Decimal.D3 u' => 51%N :: uintToString u'
  | Decimal.D4 u' => 52%N :: uintToString u'
  | Decimal.D5 u' => 53%N :: uintToString u'
  | Decimal.D6 u' => 54%N :: uintToString u'
  | Decimal.D7 u' => 55%N :: uintToString u'
  | Decimal.D8 u' => 56%N :: uintToString u'
  | Decimal.D9 u' => 57%N :: uintToString u'
  end.

(** A natural number in decimal. *)
Definition natToString (n : N) : jsstring := uintToString (N.to_uint n).

Definition intToString (z : Z) : jsstring :=
  match z with
  | Zneg p => 45%N :: natToString (Npos p)
  | _ => natToString (Z.to_N z)
  end.

(** The value of a string of decimal digits. *)
Fixpoint digitsValue (acc : N) (s : jsstring) : option N :=
  match s with
  | [] => Some acc
  | c :: s' =>
      if isDigit c then digitsValue (acc * 10 + (c - 48))%N s' else None
  end.

(** An array index: a canonical numeric string below 2^32 - 1.  The
    properties with such keys come first in an object, in ascending
    order. *)
Definition arrayIndex (k : jsstring) : option N :=
  match k with
  | [] => None
  | [c] => digitsValue 0 [c]
  | c :: _ =>
      if (c =? 48)%N then None
      else match digitsValue 0 k with
           | Some n => if (n <? 4294967295)%N then Some n else None
           | None => None
           end
  end.

(** Objects used as maps from strings. *)
Section Objects.
Variable A : Type.

Definition obj : Type := list (jsstring * A).

(** [o[k]] for an own property. *)
Fixpoint lookup (k : jsstring) (o : obj) : option A :=
  match o with
  | [] => None
  | (k', a) :: o' => if eqs k k' then Some a else lookup k o'
  end.

(** Where a new property goes: an array index before the first larger
    index and before every other key, any other key last. *)
Fixpoint insertIndex (i : N) (k : jsstring) (a : A) (o : obj) : obj :=
  match o with
  | [] => [(k, a)]
  | (k', a') :: o' =>
      match arrayIndex k' with
      | Some j =>
          if (i <? j)%N then (k, a) :: o
          else (k', a') :: insertIndex i k a o'
      | None => (k, a) :: o
      end
  end.

Definition insertNew (k : jsstring) (a : A) (o : obj) : obj :=
  match arrayIndex k with
  | Some i => insertIndex i k a o
  | None => o ++ [(k, a)]
  end.

Fixpoint update (k : jsstring) (a : A) (o : obj) : obj :=
  match o with
  | [] => []
  | (k', a') :: o' =>
      if eqs k k' then (k', a) :: o' else (k', a') :: update k a o'
  end.

(** [o[k] = a]. *)
Definition assign (k : jsstring) (a : A) (o : obj) : obj :=
  match lookup k o with
  | Some _ => update k a o
  | None => insertNew k a o
  end.

(** [o[k] = a] where [o] was made by the literal [{}] and [a] is not an
    object: the key [__proto__] names the accessor that [o] inherits from
    [Object.prototype], whose setter does nothing with such an [a]. *)
Definition assignPrimitive (k : jsstring) (a : A) (o : obj) : obj :=
  if eqs k (lit "__proto__") then o else assign k a o.

(** [Object.keys(o)] and [Object.values(o)]. *)
Definition keys (o : obj) : list jsstring := List.map fst o.
Definition values (o : obj) : list A := List.map snd o.
End Objects.

(** The object with the same keys whose values are the images of the
    values of [o]. *)
Definition mapValues {A B} (f : A -> B) (o : obj A) : obj B :=
  List.map (fun entry => (fst entry, f (snd entry))) o.

Arguments lookup {A} k o.
Arguments insertIndex {A} i k a o.
Arguments insertNew {A} k a o.
Arguments update {A} k a o.
Arguments assign {A} k a o.
Arguments assignPrimitive {A} k a o.
Arguments keys {A} o.
Arguments values {A} o.

(** Sequencing of computations that may throw. *)
Definition obind {A B} (o : outcome A) (f : A -> outcome B) : outcome B :=
  match o with
  | Returned a => f a
  | Thrown e => Thrown e
  end.

Notation "x <~ o ;; f" := (obind o (fun x => f))
  (at level 61, o at next level, right associativity).

(** [list.map(f)] for an [f] that may throw: from the left, up to the
    first throw. *)
Fixpoint mapO {A B} (f : A -> outcome B) (l : list A) : outcome (list B) :=
  match l with
  | [] => Returned []
  | a :: l' =>
      b <~ f a ;;
      bs <~ mapO f l' ;;
      Returned (b :: bs)
  end.

(** [list.filter(p)] for a [p] that may throw. *)
Fixpoint filterO {A} (p : A -> outcome bool) (l : list A) : outcome (list A) :=
  match l with
  | [] => Returned []
  | a :: l' =>
      keep <~ p a ;;
      rest <~ filterO p l' ;;
      Returned (if keep then a :: rest else rest)
  end.

(** [list.forEach] threading an accumulator. *)
Fixpoint foldO {A S} (f : S -> A -> outcome S) (l : list A) (s : S)
  : outcome S :=
  match l with
  | [] => Returned s
  | a :: l' => s' <~ f s a ;; foldO f l' s'
  end.

(** The [TypeError] of the runtime, by its message. *)
Definition typeError (message : string) : exn := ErrorObj (lit message).

(** [Array.prototype.join]. *)
Fixpoint join (sep : jsstring) (l : list jsstring) : jsstring :=
  match l with
  | [] => []
  | [s] => s
  | s :: l' => s ++ sep ++ join sep l'
  end.

(** The index strings ["0"], ..., of a sequence of [n] elements. *)
Definition indexKeys (n : nat) : list jsstring :=
  List.map (fun i => natToString (N.of_nat i)) (seq 0 n).

(** A stable sort by a comparator, as [Array.prototype.sort] with a
    consistent comparator: [x] goes before the first element it does not
    exceed. *)
Section Sort.
Variable A : Type.
Variable exceeds : A -> A -> bool.     (* the comparator is positive *)

Fixpoint insertSorted (x : A) (l : list A) : list A :=
  match l with
  | [] => [x]
  | y :: l' => if exceeds x y then y :: insertSorted x l' else x :: l
  end.

Definition sortBy (l : list A) : list A := fold_right insertSorted [] l.
End Sort.

(* ================================================================== *)
(** ** Conversions and operators *)
(* ================================================================== *)

Definition isNull (v : value) : bool :=
  match v with VNull => true | _ => false end.

Definition isUndefined (v : value) : bool :=
  match v with VUndefined => true | _ => false end.

Definition isNumber (v : value) : bool :=
  match v with VNum _ => true | _ => false end.

Definition quote : jsstring := [34%N].
Definition nl : jsstring := [10%N].

(** Truthiness of a value. *)
Definition truthy (v : value) : bool :=
  match v with
  | VUndefined | VNull => false
  | VBool b => b
  | VNum n => ntruthy n
  | VStr [] => false
  | VStr (_ :: _) => true
  | VArr _ | VObj _ => true
  end.

(** A value that can be converted to a primitive.  An object of JSON
    holds no function: when it has an own property [toString], neither
    that property nor the [valueOf] it inherits, which answers the object
    itself, yields a primitive, and the conversion throws a TypeError.
    An array is converted by joining the texts of its elements. *)
Fixpoint convertible (v : value) : bool :=
  match v with
  | VArr elements =>
      (fix each (l : list value) : bool :=
         match l with
         | [] => true
         | x :: l' => convertible x && each l'
         end) elements
  | VObj properties =>
      match lookup (lit "toString") properties with
      | Some _ => false
      | None => true
      end
  | _ => true
  end.

Definition notConvertible : exn :=
  typeError "Cannot convert object to primitive value".

(** The text of a member a plain object inherits from [Object.prototype],
    as Node prints it: the source text of a built-in function, and
    ["[object Object]"] for the prototype itself, which the accessor
    [__proto__] answers. *)
Definition inheritedText (key : jsstring) : option jsstring :=
  if eqs key (lit "__proto__") then Some (lit "[object Object]")
  else if eqs key (lit "constructor")
  then Some (lit "function Object() { [native code] }")
  else if existsb (eqs key)
            (List.map lit
               ["__defineGetter__"; "__defineSetter__"; "hasOwnProperty";
                "__lookupGetter__"; "__lookupSetter__"; "isPrototypeOf";
                "propertyIsEnumerable"; "toString"; "valueOf";
                "toLocaleString"]%string)
  then Some (lit "function " ++ key ++ lit "() { [native code] }")
  else None.

Section Runtime.
(** The built-ins of the runtime that the repository does not hold:
    StringToNumber; Number::toString for a number that is not an integer
    of magnitude up to 2^53, given the exact value of the number;
    [String.prototype.toLowerCase]; and [Math.pow] and [Math.sqrt], whose
    precision the language leaves to the implementation. *)
Variable stringToNumber : jsstring -> number.
Variable fractionToString : Q -> jsstring.
Variable toLowerCase : jsstring -> jsstring.
Variable mathPow : number -> number -> number.
Variable mathSqrt : number -> number.

(** Number::toString. *)
Definition numberToString (n : number) : jsstring :=
  match n with
  | SpecFloat.S754_nan => lit "NaN"
  | SpecFloat.S754_infinity false => lit "Infinity"
  | SpecFloat.S754_infinity true => lit "-Infinity"
  | SpecFloat.S754_zero _ => lit "0"
  | SpecFloat.S754_finite _ _ _ =>
      match exactValue n with
      | Some q =>
          let r := Qred q in
          if (Qden r =? 1)%positive && (Z.abs (Qnum r) <=? 2 ^ 53)%Z
          then intToString (Qnum r)
          else fractionToString q
      | None => []
      end
  end.

(** [n.toFixed(2)]: for a number below 10^21 in magnitude the sign, then
    the multiple of 1/100 nearest to the exact value of the number, the
    larger one of two. *)
Definition toFixed2 (n : number) : jsstring :=
  match exactValue n with
  | Some q =>
      if Qle_bool (inject_Z (10 ^ 21)) (Qabs q) then numberToString n
      else
        let hundredths := Z.to_N (Qfloor (Qabs q * 100 + (1 # 2))) in
        let digits := natToString hundredths in
        let digits := List.repeat 48%N (3 - length digits) ++ digits in
        let k := (length digits - 2)%nat in
        (if Qle_bool 0 q then [] else lit "-")
        ++ firstn k digits ++ lit "." ++ skipn k digits
  | None => numberToString n
  end.

(** ToString of a value that is [convertible]. *)
Fixpoint toString (v : value) : jsstring :=
  match v with
  | VUndefined => lit "undefined"
  | VNull => lit "null"
  | VBool true => lit "true"
  | VBool false => lit "false"
  | VNum n => numberToString n
  | VStr s => s
  | VArr elements =>
      join (lit ",")
        ((fix each (l : list value) : list jsstring :=
            match l with
            | [] => []
            | VUndefined :: l' => [] :: each l'
            | VNull :: l' => [] :: each l'
            | x :: l' => toString x :: each l'
            end) elements)
  | VObj _ => lit "[object Object]"
  end.

(** ToPrimitive of a value that is [convertible]. *)
Definition toPrimitive (v : value) : value :=
  match v with
  | VArr _ | VObj _ => VStr (toString v)
  | _ => v
  end.

(** ToNumber of a value that is [convertible]. *)
Definition toNumber (v : value) : number :=
  match toPrimitive v with
  | VUndefined => NaN
  | VNull => ofZ 0
  | VBool true => ofZ 1
  | VBool false => ofZ 0
  | VNum n => n
  | VStr s => stringToNumber s
  | _ => NaN
  end.

(** [a + b] on values that are [convertible]: concatenation as soon as
    an operand is a string. *)
Definition jsAdd (a b : value) : value :=
  match toPrimitive a, toPrimitive b with
  | VStr s, pb => VStr (s ++ toString pb)
  | pa, VStr s => VStr (toString pa ++ s)
  | pa, pb => VNum (nadd (toNumber pa) (toNumber pb))
  end.

(** [a - b] and [a / b] on values that are [convertible]. *)
Definition jsSub (a b : value) : number := nsub (toNumber a) (toNumber b).
Definition jsDiv (a b : value) : number := ndiv (toNumber a) (toNumber b).

(** The conversions as the handlers meet them: [String(v)] and a template
    literal, [Number(v)], [a + b] and [isNaN(v)] throw a TypeError for a
    value that is not [convertible]. *)
Definition toStringO (v : value) : outcome jsstring :=
  if convertible v then Returned (toString v) else Thrown notConvertible.

Definition toNumberO (v : value) : outcome number :=
  if convertible v then Returned (toNumber v) else Thrown notConvertible.

Definition jsAddO (a b : value) : outcome value :=
  if convertible a && convertible b then Returned (jsAdd a b)
  else Thrown notConvertible.

Definition jsIsNaN (v : value) : outcome bool :=
  n <~ toNumberO v ;;
  Returned (isNaNnum n).

(** [o[k]]: own properties only; reading a property of [null] or
    [undefined] throws. *)
Definition getProp (o : value) (k : jsstring) : outcome value :=
  match o with
  | VObj properties =>
      Returned (match lookup k properties with
                | Some v => v
                | None => VUndefined
                end)
  | VArr elements =>
      Returned (match arrayIndex k with
                | Some i => nth (N.to_nat i) elements VUndefined
                | None => if eqs k (lit "length")
                          then VNum (ofNat (length elements))
                          else VUndefined
                end)
  | VStr s =>
      Returned (match arrayIndex k with
                | Some i => match nth_error s (N.to_nat i) with
                            | Some c => VStr [c]
                            | None => VUndefined
                            end
                | None => if eqs k (lit "length")
                          then VNum (ofNat (length s))
                          else VUndefined
                end)
  | VBool _ | VNum _ => Returned VUndefined
  | VNull => Thrown (typeError "Cannot read properties of null")
  | VUndefined => Thrown (typeError "Cannot read properties of undefined")
  end.

(** [Object.keys(o)]. *)
Definition objectKeys (o : value) : outcome (list jsstring) :=
  match o with
  | VObj properties => Returned (keys properties)
  | VArr elements => Returned (indexKeys (length elements))
  | VStr s => Returned (indexKeys (length s))
  | VBool _ | VNum _ => Returned []
  | VNull | VUndefined =>
      Thrown (typeError "Cannot convert undefined or null to object")
  end.

(** [v.toFixed(2)]: a method of numbers only.  The message of the
    TypeError is the engine's, and names the expression; its wording
    here stands for it. *)
Definition valueToFixed2 (v : value) : outcome jsstring :=
  match v with
  | VNum n => Returned (toFixed2 n)
  | _ => Thrown (typeError "toFixed is not a function")
  end.

(* ================================================================ *)
(** ** The tabular summarizer: the tool [analyze_results] *)
(* ================================================================ *)

(** What [JSON.parse(dataString)] does: it throws a [SyntaxError] or
    yields a value. *)
Inductive parseResult : Type :=
| SyntaxError (message : jsstring)
| Parsed (data : value).

(** The type tag of a column, from the value of the first row (lines
    499-515). *)
Definition columnType (sampleValue : value) : jsstring :=
  match sampleValue with
  | VNum _ => lit "numeric"
  | VStr _ => lit "string"
  | VBool _ => lit "boolean"
  | VNull => lit "unknown"
  | _ => typeof sampleValue
  end.

(** [columnTypes] and [numericColumns] (lines 495-515). *)
Definition inferColumns (first : value) (columns : list jsstring)
  : outcome (obj jsstring * list jsstring) :=
  foldO (fun (acc : obj jsstring * list jsstring) col =>
           let (columnTypes, numericColumns) := acc in
           sampleValue <~ getProp first col ;;
           Returned (assignPrimitive col (columnType sampleValue) columnTypes,
                     if isNumber sampleValue
                     then numericColumns ++ [col] else numericColumns))
        columns ([], []).

(** [val !== null && !isNaN(val)] (line 520). *)
Definition kept (val : value) : outcome bool :=
  if isNull val then Returned false
  else
    nan <~ jsIsNaN val ;;
    Returned (negb nan).

(** [data.map(row => row[col]).filter(...)] (line 520). *)
Definition columnValues (data : list value) (col : jsstring)
  : outcome (list value) :=
  column <~ mapO (fun row => getProp row col) data ;;
  filterO kept column.

(** [Math.min(...values)] and [Math.max(...values)] for a list that is
    not empty. *)
Definition mathMin (v : value) (vs : list value) : number :=
  fold_left (fun m x => nmin m (toNumber x)) vs (toNumber v).

Definition mathMax (v : value) (vs : list value) : number :=
  fold_left (fun m x => nmax m (toNumber x)) vs (toNumber v).

(** [[...values].sort((a, b) => a - b)] (line 528). *)
Definition sortAscending (vals : list value) : list value :=
  sortBy (fun a b => ngt (jsSub a b) (ofZ 0)) vals.

(** Lines 529-530. *)
Definition medianOf (sorted : list value) : value :=
  let mid := Nat.div (length sorted) 2 in
  if Nat.even (length sorted)
  then VNum (jsDiv (jsAdd (nth (mid - 1) sorted VUndefined)
                          (nth mid sorted VUndefined))
                   (VNum (ofZ 2)))
  else nth mid sorted VUndefined.

Record Stats : Type := {
  min : number;
  max : number;
  avg : number;
  median : value;
  sum : value
}.

(** Lines 521-539: the statistics of the values of a column, if there
    are any.  The sum of line 522 converts every value; the lines after
    it convert values that have been converted once. *)
Definition columnStatistics (vals : list value) : outcome (option Stats) :=
  match vals with
  | [] => Returned None
  | v :: vs =>
      sum <~ foldO jsAddO vals (VNum (ofZ 0)) ;;
      Returned (Some {| min := mathMin v vs;
                        max := mathMax v vs;
                        avg := jsDiv sum (VNum (ofNat (length vals)));
                        median := medianOf (sortAscending vals);
                        sum := sum |})
  end.

(** The object [statistics]: its own properties, and the statistics an
    assignment to the key [__proto__] has made its prototype
    ([statistics['__proto__'] = {...}] calls the setter that the object
    inherits, and adds no property). *)
Record Statistics : Type := {
  ownStatistics : obj Stats;
  prototypeStatistics : option Stats
}.

(** [statistics[col] = stats]. *)
Definition assignStatistics (col : jsstring) (stats : Stats)
           (statistics : Statistics) : Statistics :=
  if eqs col (lit "__proto__")
  then {| ownStatistics := ownStatistics statistics;
          prototypeStatistics := Some stats |}
  else {| ownStatistics := assign col stats (ownStatistics statistics);
          prototypeStatistics := prototypeStatistics statistics |}.

(** [statistics[col]] for a numeric column, if the column has got
    statistics.  (A numeric column holds a number in the first row, which
    line 520 keeps unless it is NaN, and [JSON.parse] yields no NaN.) *)
Definition statisticsOf (statistics : Statistics) (col : jsstring)
  : option Stats :=
  if eqs col (lit "__proto__") then prototypeStatistics statistics
  else lookup col (ownStatistics statistics).

(** [statistics] (lines 518-540). *)
Definition computeStatistics (data : list value)
           (numericColumns : list jsstring) : outcome Statistics :=
  foldO (fun statistics col =>
           vals <~ columnValues data col ;;
           computed <~ columnStatistics vals ;;
           Returned (match computed with
                     | Some stats => assignStatistics col stats statistics
                     | None => statistics
                     end))
        numericColumns
        {| ownStatistics := []; prototypeStatistics := None |}.

(** A cell of [valueMap]: a count, or the text that line 549 makes when
    [valueMap[val]] reads a member that the map inherits from
    [Object.prototype] -- the member is truthy, and [+ 1] appends ["1"]
    to its text. *)
Inductive Tally : Type :=
| Counted (n : nat)
| Joined (text : jsstring).

(** [(valueMap[key] || 0) + 1]. *)
Definition increment (key : jsstring) (cell : option Tally) : Tally :=
  match cell with
  | Some (Counted n) => Counted (S n)
  | Some (Joined []) => Counted 1
  | Some (Joined (c :: text)) => Joined ((c :: text) ++ lit "1")
  | None =>
      match inheritedText key with
      | Some text => Joined (text ++ lit "1")
      | None => Counted 1
      end
  end.

(** [valueMap] (lines 545-551). *)
Definition countValues (data : list value) (col : jsstring)
  : outcome (obj Tally) :=
  foldO (fun valueMap row =>
           val <~ getProp row col ;;
           if isNull val || isUndefined val then Returned valueMap
           else
             key <~ toStringO val ;;
             Returned (assignPrimitive key
                         (increment key (lookup key valueMap))
                         valueMap))
        data [].

Record TopValue : Type := {
  value_ : jsstring;
  count : Tally;
  percentage : jsstring
}.

Record Categorical : Type := {
  distinctCount : nat;
  topValues : list TopValue
}.

(** Line 557: [(count / rowCount * 100).toFixed(2) + '%'], in the
    arithmetic of doubles; a count that is a text divides to NaN. *)
Definition percentageOf (count : Tally) (rowCount : nat) : jsstring :=
  match count with
  | Counted n =>
      toFixed2 (nmul (ndiv (ofNat n) (ofNat rowCount)) (ofZ 100))
  | Joined _ => lit "NaN"
  end ++ lit "%".

(** [b[1] - a[1] > 0] in the comparator of line 555: a difference with a
    text is NaN. *)
Definition rankedAfter (a b : jsstring * Tally) : bool :=
  match snd a, snd b with
  | Counted m, Counted n => (m <? n)%nat
  | _, _ => false
  end.

(** [topValues] (lines 554-557): the entries by descending count, the
    first five. *)
Definition topValuesOf (valueMap : obj Tally) (rowCount : nat)
  : list TopValue :=
  List.map (fun entry : jsstring * Tally =>
              {| value_ := fst entry;
                 count := snd entry;
                 percentage := percentageOf (snd entry) rowCount |})
    (firstn 5 (sortBy rankedAfter valueMap)).

(** [columnTypes[col] === tag]. *)
Definition hasType (columnTypes : obj jsstring) (tag : jsstring)
           (col : jsstring) : bool :=
  match lookup col columnTypes with
  | Some t => eqs t tag
  | None => false
  end.

(** [categoricalAnalysis] (lines 543-563). *)
Definition computeCategorical (data : list value) (columns : list jsstring)
           (columnTypes : obj jsstring) : outcome (obj Categorical) :=
  foldO (fun categoricalAnalysis col =>
           valueMap <~ countValues data col ;;
           Returned
             (assign col
                {| distinctCount := length (keys valueMap);
                   topValues := topValuesOf valueMap (length data) |}
                categoricalAnalysis))
        (firstn 5 (filter (hasType columnTypes (lit "string")) columns))
        [].

(** A line of the trends section (lines 571-574). *)
Definition trendLine (statistics : Statistics) (col : jsstring) : jsstring :=
  match statisticsOf statistics col with
  | Some stats =>
      let range := nsub (max stats) (min stats) in
      lit "- " ++ col ++ lit ": Range of " ++ toFixed2 range
      ++ lit " from " ++ toFixed2 (min stats)
      ++ lit " to " ++ toFixed2 (max stats) ++ nl
  | None => []
  end.

(** A line of the outliers section (lines 580-592). *)
Definition outlierLine (data : list value) (statistics : Statistics)
           (col : jsstring) : outcome jsstring :=
  match statisticsOf statistics col with
  | Some stats =>
      vals <~ columnValues data col ;;
      let avg := avg stats in
      let stdDev :=
        mathSqrt
          (ndiv (fold_left
                   (fun sum val =>
                      nadd sum (mathPow (nsub (toNumber val) avg) (ofZ 2)))
                   vals (ofZ 0))
                (ofNat (length vals))) in
      outliers <~ filterO
                    (fun row =>
                       val <~ getProp row col ;;
                       keep <~ kept val ;;
                       Returned
                         (keep && ngt (nabs (nsub (toNumber val) avg))
                                      (nmul (ofZ 2) stdDev)))
                    data ;;
      Returned (lit "- " ++ col ++ lit ": Found "
                ++ natToString (N.of_nat (length outliers))
                ++ lit " potential outliers (values outside 2 standard deviations from the mean)"
                ++ nl)
  | None => Returned []
  end.

(** [bins[binIndex]++] on the five bins. *)
Fixpoint bump (i : nat) (bins : list nat) : list nat :=
  match bins, i with
  | [], _ => []
  | b :: bins', O => S b :: bins'
  | b :: bins', S i' => b :: bump i' bins'
  end.

(** A line of the distribution section (lines 598-613): an index that is
    NaN counts in no bin. *)
Definition distributionLine (data : list value) (statistics : Statistics)
           (col : jsstring) : outcome jsstring :=
  match statisticsOf statistics col with
  | Some stats =>
      vals <~ columnValues data col ;;
      let range := nsub (max stats) (min stats) in
      let binSize := ndiv range (ofZ 5) in
      let bins :=
        fold_left
          (fun bins val =>
             let binIndex :=
               nmin (nfloor (ndiv (nsub (toNumber val) (min stats))
                                  binSize))
                    (ofZ 4) in
             match indexOf binIndex with
             | Some i => bump i bins
             | None => bins
             end)
          vals [O; O; O; O; O] in
      Returned (lit "- " ++ col ++ lit ": Distribution across 5 equal bins: ["
                ++ join (lit ", ")
                     (List.map (fun b => natToString (N.of_nat b)) bins)
                ++ lit "]" ++ nl)
  | None => Returned []
  end.

(** [focusedInsights] (lines 566-616).  The argument [focus] may be any
    value: line 568 calls [toLowerCase] on a [focus] that is truthy, and
    a value that is not a string has no such method. *)
Definition focusedInsights (focus : option value) (data : list value)
           (numericColumns : list jsstring) (statistics : Statistics)
  : outcome jsstring :=
  match focus with
  | Some (VStr (c :: f)) =>
      match numericColumns with
      | _ :: _ =>
          let tag := toLowerCase (c :: f) in
          if eqs tag (lit "trends") then
            Returned (lit "Trend Analysis:" ++ nl
                      ++ List.concat (List.map (trendLine statistics)
                                               numericColumns))
          else if eqs tag (lit "outliers") then
            lines <~ mapO (outlierLine data statistics) numericColumns ;;
            Returned (lit "Outlier Detection:" ++ nl ++ List.concat lines)
          else if eqs tag (lit "distribution") then
            lines <~ mapO (distributionLine data statistics)
                          numericColumns ;;
            Returned (lit "Distribution Analysis:" ++ nl
                      ++ List.concat lines)
          else Returned []
      | [] => Returned []
      end
  | Some v =>
      if truthy v
      then Thrown (typeError "focus.toLowerCase is not a function")
      else Returned []
  | None => Returned []
  end.

(** [${focus}] in the heading of the focused section, which is printed
    when [focusedInsights] is not empty: [focus] is a string then. *)
Definition focusText (focus : option value) : jsstring :=
  match focus with
  | Some (VStr s) => s
  | _ => lit "undefined"
  end.

(** The sections of the report (lines 619-659). *)
Definition statisticsSection (entry : jsstring * Stats)
  : outcome jsstring :=
  let (col, stats) := entry in
  minimum <~ valueToFixed2 (VNum (min stats)) ;;
  maximum <~ valueToFixed2 (VNum (max stats)) ;;
  average <~ valueToFixed2 (VNum (avg stats)) ;;
  middle <~ valueToFixed2 (median stats) ;;
  total <~ valueToFixed2 (sum stats) ;;
  Returned (nl ++ lit "### " ++ col ++ nl
            ++ lit "- Minimum: " ++ minimum ++ nl
            ++ lit "- Maximum: " ++ maximum ++ nl
            ++ lit "- Average: " ++ average ++ nl
            ++ lit "- Median: " ++ middle ++ nl
            ++ lit "- Sum: " ++ total ++ nl).

(** [${v.count}]. *)
Definition tallyText (t : Tally) : jsstring :=
  match t with
  | Counted n => natToString (N.of_nat n)
  | Joined text => text
  end.

Definition topValueLine (v : TopValue) : jsstring :=
  lit "  - " ++ quote ++ value_ v ++ quote ++ lit ": "
  ++ tallyText (count v)
  ++ lit " (" ++ percentage v ++ lit ")".

Definition categoricalSection (entry : jsstring * Categorical) : jsstring :=
  let (col, analysis) := entry in
  nl ++ lit "### " ++ col ++ nl
  ++ lit "- Distinct values: "
  ++ natToString (N.of_nat (distinctCount analysis)) ++ nl
  ++ lit "- Top values:" ++ nl
  ++ join nl (List.map topValueLine (topValues analysis)) ++ nl.

(** The line on the first numeric column (line 656): it reads the
    statistics of that column, which must exist. *)
Definition rangeInsight (numericColumns : list jsstring)
           (statistics : Statistics) : outcome jsstring :=
  match numericColumns with
  | [] => Returned []
  | col :: _ =>
      match statisticsOf statistics col with
      | Some stats =>
          Returned (lit "- Numeric columns show "
                    ++ (if ngt (max stats) (nmul (min stats) (ofZ 10))
                        then lit "wide" else lit "narrow")
                    ++ lit " value ranges")
      | None =>
          Thrown (typeError "Cannot read properties of undefined (reading 'max')")
      end
  end.

Definition categoricalInsight (categoricalAnalysis : obj Categorical)
  : jsstring :=
  match categoricalAnalysis with
  | [] => []
  | (col, analysis) :: _ =>
      lit "- The " ++ quote ++ col ++ quote ++ lit " column has "
      ++ natToString (N.of_nat (distinctCount analysis))
      ++ lit " distinct values"
  end.

Definition renderAnalysis (focus : option value) (rowCount : nat)
           (columns : list jsstring) (columnTypes : obj jsstring)
           (numericColumns : list jsstring) (statistics : Statistics)
           (categoricalAnalysis : obj Categorical) (focused : jsstring)
  : outcome jsstring :=
  numeric <~ match numericColumns with
             | [] => Returned []
             | _ :: _ =>
                 sections <~ mapO statisticsSection
                               (ownStatistics statistics) ;;
                 Returned (nl ++ lit "**Numeric Column Statistics:**" ++ nl
                           ++ List.concat sections)
             end ;;
  insight <~ rangeInsight numericColumns statistics ;;
  let rows := natToString (N.of_nat rowCount) in
  Returned
    (nl ++ lit "## Data Analysis Summary" ++ nl ++ nl
     ++ lit "**General Information:**" ++ nl
     ++ lit "- Total rows: " ++ rows ++ nl
     ++ lit "- Total columns: "
     ++ natToString (N.of_nat (length columns)) ++ nl ++ nl
     ++ lit "**Column Types:**" ++ nl
     ++ join nl (List.map (fun entry : jsstring * jsstring =>
                             lit "- " ++ fst entry ++ lit ": " ++ snd entry)
                          columnTypes)
     ++ nl ++ nl ++ numeric ++ nl ++ nl
     ++ match categoricalAnalysis with
        | [] => []
        | _ :: _ =>
            nl ++ lit "**Categorical Column Analysis:**" ++ nl
            ++ List.concat (List.map categoricalSection categoricalAnalysis)
        end
     ++ nl ++ nl
     ++ match focused with
        | [] => []
        | _ :: _ =>
            nl ++ lit "**Focused Analysis ("
            ++ focusText focus
            ++ lit "):**" ++ nl ++ focused ++ nl
        end
     ++ nl ++ nl
     ++ lit "**Key Insights:**" ++ nl
     ++ lit "- "
     ++ (if (1000 <? rowCount)%nat then lit "Large dataset with "
         else lit "Small dataset with ") ++ rows ++ lit " rows" ++ nl
     ++ insight ++ nl
     ++ categoricalInsight categoricalAnalysis ++ nl).

(** The [catch] of a handler: an [Error] becomes a result flagged as an
    error, anything else is thrown again. *)
Definition catchError (prefix : jsstring) (body : outcome ToolResult)
  : outcome ToolResult :=
  match body with
  | Thrown (ErrorObj message) =>
      Returned {| text := prefix ++ message; isError := true |}
  | other => other
  end.

Definition parse (parsed : parseResult) : outcome value :=
  match parsed with
  | SyntaxError message => Thrown (ErrorObj message)
  | Parsed data => Returned data
  end.

Definition notAnArrayOfRows : ToolResult :=
  {| text := lit "The provided data is empty or not in the expected format (array of objects).";
     isError := true |}.

(** The branch of the tool-call handler for the tool [analyze_results]
    (lines 477-674); [parsed] is what [JSON.parse(dataString)] does. *)
Definition callToolAnalyzeResults (parsed : parseResult)
           (focus : option value) : outcome ToolResult :=
  catchError (lit "Error analyzing data: ")
    (data <~ parse parsed ;;
     match data with
     | VArr (first :: others) =>
         let data := first :: others in
         let rowCount := length data in
         columns <~ objectKeys first ;;
         inferred <~ inferColumns first columns ;;
         let (columnTypes, numericColumns) :=
           inferred : obj jsstring * list jsstring in
         statistics <~ computeStatistics data numericColumns ;;
         categoricalAnalysis <~ computeCategorical data columns columnTypes ;;
         focused <~ focusedInsights focus data numericColumns statistics ;;
         analysis <~ renderAnalysis focus rowCount columns columnTypes
                       numericColumns statistics categoricalAnalysis
                       focused ;;
         Returned {| text := analysis; isError := false |}
     | _ => Returned notAnArrayOfRows
     end).

(* ================================================================ *)
(** ** The chart builder: the tool [generate_visualization] *)
(* ================================================================ *)

(** The type tag of a column in the chart builder (lines 695-708). *)
Definition chartColumnType (sampleValue : value) : jsstring :=
  match sampleValue with
  | VNum _ => lit "numeric"
  | VStr _ => lit "string"
  | VBool _ => lit "boolean"
  | _ => typeof sampleValue
  end.

Definition chartColumnTypes (first : value) (columns : list jsstring)
  : outcome (obj jsstring) :=
  foldO (fun columnTypes col =>
           sampleValue <~ getProp first col ;;
           Returned (assignPrimitive col (chartColumnType sampleValue)
                                     columnTypes))
        columns [].

(** A column name used as a property key or in a text: [undefined] when
    the row has no column at that position. *)
Definition columnKey (column : option jsstring) : jsstring :=
  match column with
  | Some col => col
  | None => lit "undefined"
  end.

(** [xColumn] (lines 718-724). *)
Definition selectX (columns numericColumns categoricalColumns : list jsstring)
  : option jsstring :=
  match categoricalColumns, numericColumns with
  | c :: _, _ => Some c
  | [], n :: _ => Some n
  | [], [] => nth_error columns 0
  end.

(** [yColumn] (lines 726-733). *)
Definition selectY (columns numericColumns : list jsstring)
           (xColumn : option jsstring) : option jsstring :=
  match numericColumns with
  | n0 :: others =>
      match xColumn, others with
      | Some x, n1 :: _ => if eqs x n0 then Some n1 else Some n0
      | _, _ => Some n0
      end
  | [] => nth_error columns (if (1 <? length columns)%nat then 1 else 0)
  end.

(** [visType] (line 677): [(type || 'bar').toLowerCase()].  The argument
    [type] may be any value, and a truthy value that is not a string has
    no method [toLowerCase]. *)
Definition visTypeOf (type : option value) : outcome jsstring :=
  match type with
  | Some (VStr (c :: t)) => Returned (toLowerCase (c :: t))
  | Some v =>
      if truthy v
      then Thrown (typeError "toLowerCase is not a function")
      else Returned (toLowerCase (lit "bar"))
  | None => Returned (toLowerCase (lit "bar"))
  end.

(** [title] (line 678): [title || 'Data Visualization']. *)
Definition titleOf (title : option value) : value :=
  match title with
  | Some v => if truthy v then v else VStr (lit "Data Visualization")
  | None => VStr (lit "Data Visualization")
  end.

(** [chartType] (lines 736-753). *)
Definition chartTypeOf (visType : jsstring) : jsstring :=
  if eqs visType (lit "line") then lit "line"
  else if eqs visType (lit "pie") then lit "pie"
  else if eqs visType (lit "scatter") then lit "scatter"
  else lit "bar".

(** [(aggregatedData[key] || 0) + amount] (lines 766 and 768): the read
    goes through the prototype of the map, where it finds a member that
    is truthy and whose text [+] joins with the text of the amount. *)
Definition addToCell (key : jsstring) (cell : option value)
           (amount : number) : value :=
  match cell with
  | Some v => jsAdd (if truthy v then v else VNum (ofZ 0)) (VNum amount)
  | None =>
      match inheritedText key with
      | Some text => VStr (text ++ numberToString amount)
      | None => jsAdd (VNum (ofZ 0)) (VNum amount)
      end
  end.

(** [aggregatedData] of the pie branch (lines 761-770). *)
Definition aggregate (data : list value) (numericColumns : list jsstring)
           (xColumn yColumn : option jsstring) : outcome (obj value) :=
  foldO (fun aggregatedData row =>
           x <~ getProp row (columnKey xColumn) ;;
           key <~ toStringO x ;;
           amount <~ match numericColumns with
                     | _ :: _ =>
                         y <~ getProp row (columnKey yColumn) ;;
                         toNumberO y
                     | [] => Returned (ofZ 1)
                     end ;;
           Returned (assignPrimitive key
                       (addToCell key (lookup key aggregatedData) amount)
                       aggregatedData))
        data [].

Inductive ChartData : Type :=
| PieData (labels : list jsstring) (data : list value)
| ScatterData (label : jsstring) (points : list (number * number))
| SeriesData (labels : list value) (label : option jsstring)
             (data : list value).

(** [chartData] (lines 759-885). *)
Definition buildChartData (chartType : jsstring) (data : list value)
           (numericColumns : list jsstring)
           (xColumn yColumn : option jsstring) : outcome ChartData :=
  if eqs chartType (lit "pie") then
    aggregatedData <~ aggregate data numericColumns xColumn yColumn ;;
    Returned (PieData (keys aggregatedData) (values aggregatedData))
  else if eqs chartType (lit "scatter") then
    scatterData <~ mapO (fun row =>
                           x <~ getProp row (columnKey xColumn) ;;
                           x <~ toNumberO x ;;
                           y <~ getProp row (columnKey yColumn) ;;
                           y <~ toNumberO y ;;
                           Returned (x, y)) data ;;
    Returned (ScatterData (columnKey yColumn ++ lit " vs "
                           ++ columnKey xColumn) scatterData)
  else
    let limitedData := if (20 <? length data)%nat then firstn 20 data
                       else data in
    labels <~ mapO (fun row => getProp row (columnKey xColumn))
                   limitedData ;;
    vals <~ mapO (fun row => getProp row (columnKey yColumn))
                 limitedData ;;
    Returned (SeriesData labels yColumn vals).

(** What the returned document is made of: the template of lines
    887-972 filled with these parts. *)
Record ChartDocument : Type := {
  title : jsstring;
  chartType : jsstring;
  xColumn : option jsstring;
  yColumn : option jsstring;
  chartData : ChartData;
  tableHeader : list jsstring;
  tableRows : list (list jsstring)
}.

(** The branch of the tool-call handler for the tool
    [generate_visualization] (lines 675-987): a result flagged as an
    error, or the document of a result that is not.  Line 677 runs before
    the [try] of line 680 begins, so what it throws leaves the handler.
    The template of line 887 converts the title first (line 893), then
    the cells of the table (line 949). *)
Definition callToolGenerateVisualization (parsed : parseResult)
           (type title : option value)
  : outcome (ToolResult + ChartDocument) :=
  visType <~ visTypeOf type ;;
  match
    (data <~ parse parsed ;;
     match data with
     | VArr (first :: others) =>
         let data := first :: others in
         columns <~ objectKeys first ;;
         columnTypes <~ chartColumnTypes first columns ;;
         let numericColumns :=
           filter (hasType columnTypes (lit "numeric")) columns in
         let categoricalColumns :=
           filter (fun col => hasType columnTypes (lit "string") col
                              || hasType columnTypes (lit "boolean") col)
                  columns in
         let xColumn := selectX columns numericColumns categoricalColumns in
         let yColumn := selectY columns numericColumns xColumn in
         let chartType := chartTypeOf visType in
         chartData <~ buildChartData chartType data numericColumns
                        xColumn yColumn ;;
         caption <~ toStringO (titleOf title) ;;
         rows <~ mapO (fun row =>
                         mapO (fun col => cell <~ getProp row col ;;
                                          toStringO cell)
                              columns)
                      (firstn 10 data) ;;
         Returned (inr {| title := caption;
                          chartType := chartType;
                          xColumn := xColumn;
                          yColumn := yColumn;
                          chartData := chartData;
                          tableHeader := columns;
                          tableRows := rows |})
     | _ => Returned (inl notAnArrayOfRows)
     end)
  with
  | Thrown (ErrorObj message) =>
      Returned (inl {| text := lit "Error generating visualization: "
                               ++ message;
                       isError := true |})
  | other => other
  end.
End Runtime.

(* ================================================================== *)
(** ** The summarizer and the chart builder, as the specification words
       them *)
(* ================================================================== *)

(** Stand-ins for the built-ins of the runtime in the examples: a reader
    of decimal digit strings, a printer of fractions, a lower-casing of
    the letters A-Z, a square for [Math.pow(x, 2)] and the square root of
    [SpecFloat]. *)
Definition digitsToNumber (s : jsstring) : number :=
  match s with
  | [] => ofZ 0
  | _ :: _ => match digitsValue 0 s with
              | Some n => ofZ (Z.of_N n)
              | None => NaN
              end
  end.

Definition fractionAsQuotient (q : Q) : jsstring :=
  intToString (Qnum q) ++ lit "/" ++ natToString (Npos (Qden q)).

Definition lowerAscii (s : jsstring) : jsstring :=
  List.map (fun c => if isUpper c then (c + 32)%N else c) s.

Definition squareOf (base exponent : number) : number := nmul base base.

Definition rootOf (x : number) : number := SpecFloat.SFsqrt 53 1024 x.

(** A property of a row, and a number given by an integer. *)
Definition field (name : string) (v : value) : jsstring * value :=
  (lit name, v).

Definition int (z : Z) : value := VNum (ofZ z).

(** [row[col]], [undefined] standing for a read that throws. *)
Definition prop (row : value) (col : jsstring) : value :=
  match getProp row col with
  | Returned v => v
  | Thrown _ => VUndefined
  end.

(** A value that line 520 keeps: it is not null, and as a number it is
    not NaN. *)
Definition keeps (stringToNumber : jsstring -> number)
           (fractionToString : Q -> jsstring) (v : value) : bool :=
  negb (isNull v)
  && negb (isNaNnum (toNumber stringToNumber fractionToString v)).

(** Every row can be read: none is [null]. *)
Definition readable (data : list value) : Prop :=
  Forall (fun row => isNull row = false /\ isUndefined row = false) data.

(** Every value the rows hold can be converted to a primitive. *)
Definition convertibleCells (data : list value) : Prop :=
  Forall (fun row => forall col, convertible (prop row col) = true) data.

Definition isString (v : value) : bool :=
  match v with VStr _ => true | _ => false end.

(** An argument that is truthy and not a string: a handler that calls
    [toLowerCase] on it throws. *)
Definition notAString (argument : option value) : bool :=
  match argument with
  | Some v => truthy v && negb (isString v)
  | None => false
  end.

(** The number of elements of [l] that satisfy [p]. *)
Definition countIf {A} (p : A -> bool) (l : list A) : nat :=
  length (filter p l).

(** The distinct elements of a list of strings, by first occurrence. *)
Fixpoint distinct (seen l : list jsstring) : list jsstring :=
  match l with
  | [] => []
  | k :: l' =>
      if existsb (eqs k) seen then distinct seen l'
      else k :: distinct (k :: seen) l'
  end.

(** The X and Y columns as section 4.3 of the specification words them. *)
Definition firstColumn (p : jsstring -> bool) (columns : list jsstring)
  : option jsstring := find p columns.

Definition sameColumn (a b : option jsstring) : bool :=
  match a, b with
  | Some x, Some y => eqs x y
  | _, _ => false
  end.

Section ColumnRoles.
Variable first : value.
Variable columns : list jsstring.

Definition numericColumn (col : jsstring) : bool :=
  isNumber (prop first col).

Definition categoricalColumn (col : jsstring) : bool :=
  match prop first col with
  | VStr _ | VBool _ => true
  | _ => false
  end.

(** The first string-or-boolean column if any, else the first numeric
    column, else the first column by position. *)
Definition specX : option jsstring :=
  match firstColumn categoricalColumn columns with
  | Some c => Some c
  | None =>
      match firstColumn numericColumn columns with
      | Some n => Some n
      | None => hd_error columns
      end
  end.

(** The first numeric column if any, the second numeric column when the
    first is the X column and a second exists; otherwise the second
    column by position, or the first when only one column exists. *)
Definition specY : option jsstring :=
  match firstColumn numericColumn columns with
  | Some n0 =>
      if sameColumn specX (Some n0)
      then match nth_error (filter numericColumn columns) 1 with
           | Some n1 => Some n1
           | None => Some n0
           end
      else Some n0
  | None =>
      match columns with
      | _ :: c1 :: _ => Some c1
      | other => hd_error other
      end
  end.
End ColumnRoles.

(** A computation that throws nothing but instances of [Error]. *)
Definition throwsErrorsOnly {A} (o : outcome A) : Prop :=
  match o with
  | Thrown NonError => False
  | _ => True
  end.

(** The summary of a string column as the specification words it: the
    values of the rows that are neither null nor missing, as texts; the
    number of rows of each text; the texts in the order of their first
    occurrence; and a ranking by descending count that keeps, among the
    texts of one count, the order they had. *)
Definition present (v : value) : bool := negb (isNull v || isUndefined v).

Definition textsOf (fractionToString : Q -> jsstring) (data : list value)
           (col : jsstring) : list jsstring :=
  List.map (toString fractionToString)
           (filter present (List.map (fun row => prop row col) data)).

Definition frequency (key : jsstring) (texts : list jsstring) : nat :=
  countIf (eqs key) texts.

Definition frequencies (texts : list jsstring) : obj nat :=
  List.map (fun key => (key, frequency key texts)) (distinct [] texts).

Definition stringColumn (first : value) (col : jsstring) : bool :=
  match prop first col with VStr _ => true | _ => false end.

(** An entry of [topValues] for a text and the number of its rows. *)
Definition topValueOf (fractionToString : Q -> jsstring) (rowCount : nat)
           (entry : jsstring * nat) : TopValue :=
  {| value_ := fst entry;
     count := Counted (snd entry);
     percentage := percentageOf fractionToString (Counted (snd entry))
                                rowCount |}.

Definition isRankingOf (ranked entries : list (jsstring * nat)) : Prop :=
  Permutation ranked entries
  /\ StronglySorted (fun a b => (snd b <= snd a)%nat) ranked.

Definition keepsTies (ranked entries : list (jsstring * nat)) : Prop :=
  forall c, filter (fun e => (snd e =? c)%nat) ranked
            = filter (fun e => (snd e =? c)%nat) entries.

(** A row that is a record, and a name that no record inherits: a name
    that is not one of a member of [Object.prototype]. *)
Definition isRecord (row : value) : bool :=
  match row with VObj _ => true | _ => false end.

Definition plainName (k : jsstring) : bool :=
  match inheritedText k with Some _ => false | None => true end.

(** One round of the loop of lines 546-551 on a value that is counted,
    by its text. *)
Definition recordText (valueMap : obj Tally) (key : jsstring) : obj Tally :=
  assignPrimitive key (increment key (lookup key valueMap)) valueMap.

(** The same round on a map whose cells are all counts, for a text that
    names no member of [Object.prototype]. *)
Definition tally (valueMap : obj nat) (key : jsstring) : obj nat :=
  assign key
         (S (match lookup key valueMap with
             | Some count => count
             | None => O
             end))
         valueMap.

(* ================================================================== *)
(** ** Further definitions for the properties of the handlers *)
(* ================================================================== *)

(** A match of [unqualifiedPattern] begins somewhere in [s]. *)
Fixpoint matchesSomewhere (s : jsstring) : bool :=
  match matchFrom s with
  | Some _ => true
  | None =>
      match s with
      | [] => false
      | _ :: s' => matchesSomewhere s'
      end
  end.

(** [s] holds no text of the form [FROM [ds.]INFORMATION_SCHEMA.TABLES]. *)
Definition occurrenceFree (s : jsstring) : Prop :=
  forall pre m post dataset,
    s = pre ++ m ++ post -> ~ occurrence dataset m.

(* ================================================================== *)
(** ** The start of the server: [parseArgs] and [validateConfig] *)
(* ================================================================== *)

(** The [switch] of [parseArgs] (lines 90-102): the option [key] set to
    [value], if the option is known. *)
Definition setOption (config : ServerConfig) (key value : jsstring)
  : option ServerConfig :=
  if eqs key (lit "project-id") then
    Some {| projectId := value; location := location config;
            keyFilename := keyFilename config |}
  else if eqs key (lit "location") then
    Some {| projectId := projectId config; location := Some value;
            keyFilename := keyFilename config |}
  else if eqs key (lit "key-file") then
    Some {| projectId := projectId config; location := location config;
            keyFilename := Some value |}
  else None.

(** The loop of [parseArgs] (lines 77-103) over the arguments that are
    left. *)
Fixpoint parseArgsLoop (args : list jsstring) (config : ServerConfig)
  : outcome ServerConfig :=
  match args with
  | [] => Returned config
  | arg :: rest =>
      if negb (startsWith (lit "--") arg) then
        Thrown (ErrorObj (lit "Invalid argument: " ++ arg))
      else
        let key := skipn 2 arg in
        match rest with
        | [] => Thrown (ErrorObj (lit "Missing value for argument: " ++ arg))
        | value :: rest' =>
            if startsWith (lit "--") value then
              Thrown (ErrorObj (lit "Missing value for argument: " ++ arg))
            else
              match setOption config key value with
              | Some config' => parseArgsLoop rest' config'
              | None => Thrown (ErrorObj (lit "Unknown argument: " ++ arg))
              end
        end
  end.

Definition usage : jsstring :=
  lit "Missing required argument: --project-id" ++ nl
  ++ lit "Usage: mcp-server-bigquery --project-id <project-id> [--location <location>] [--key-file <path-to-key-file>]".

(** [parseArgs] (lines 70-113); [args] is [process.argv.slice(2)]. *)
Definition parseArgs (args : list jsstring) : outcome ServerConfig :=
  config <~ parseArgsLoop args {| projectId := [];
                                  location := Some (lit "US");
                                  keyFilename := None |} ;;
  match projectId config with
  | [] => Thrown (ErrorObj usage)
  | _ :: _ => Returned config
  end.

(** [v === 'service_account']. *)
Definition isServiceAccount (v : value) : bool :=
  match v with
  | VStr s => eqs s (lit "service_account")
  | _ => false
  end.

(** What [fs.access(path, R_OK)] does: it succeeds, or throws an [Error]
    that may carry a code, or throws something else. *)
Inductive accessOutcome : Type :=
| Accessible
| AccessError (code : option jsstring) (message : jsstring)
| AccessThrown.

(** The errors of lines 33-41. *)
Definition accessFailure (resolvedKeyPath : jsstring)
           (code : option jsstring) (message : jsstring) : exn :=
  let denied :=
    match code with Some c => eqs c (lit "EACCES") | None => false end in
  let missing :=
    match code with Some c => eqs c (lit "ENOENT") | None => false end in
  if denied then
    ErrorObj (lit "Permission denied accessing key file: " ++ resolvedKeyPath
              ++ lit ". Please check file permissions.")
  else if missing then
    ErrorObj (lit "Key file not found: " ++ resolvedKeyPath
              ++ lit ". Please verify the file path.")
  else
    ErrorObj (lit "Unable to access key file: " ++ resolvedKeyPath
              ++ lit ". Error: " ++ message).

Section Startup.
(** The file system and the built-ins [validateConfig] calls:
    [path.resolve], [fs.access], [fs.readFile] (whose errors are not
    syntax errors) and [JSON.parse]. *)
Variable path_resolve : jsstring -> jsstring.
Variable fs_access : jsstring -> accessOutcome.
Variable fs_readFile : jsstring -> outcome jsstring.
Variable JSON_parse : jsstring -> parseResult.

(** Lines 48-62: the contents of the key file. *)
Definition checkKeyFile (keyFilename : jsstring) : outcome unit :=
  keyFileContent <~ fs_readFile keyFilename ;;
  match JSON_parse keyFileContent with
  | SyntaxError _ =>
      Thrown (ErrorObj (lit "Service account key file is not valid JSON"))
  | Parsed keyData =>
      type <~ getProp keyData (lit "type") ;;
      if negb (truthy type) || negb (isServiceAccount type) then
        Thrown (ErrorObj (lit "Invalid service account key file format"))
      else
        project_id <~ getProp keyData (lit "project_id") ;;
        if negb (truthy project_id) then
          Thrown (ErrorObj (lit "Invalid service account key file format"))
        else Returned tt
  end.

(** [validateConfig] (lines 23-68): the configuration after the call,
    with the path of the key file resolved. *)
Definition validateConfig (config : ServerConfig) : outcome ServerConfig :=
  config <~ match keyFilename config with
            | Some (c :: file) =>
                let resolvedKeyPath := path_resolve (c :: file) in
                match fs_access resolvedKeyPath with
                | Accessible =>
                    let config :=
                      {| projectId := projectId config;
                         location := location config;
                         keyFilename := Some resolvedKeyPath |} in
                    _ <~ checkKeyFile resolvedKeyPath ;;
                    Returned config
                | AccessError code message =>
                    Thrown (accessFailure resolvedKeyPath code message)
                | AccessThrown =>
                    Thrown (ErrorObj
                              (lit "Unexpected error accessing key file: "
                               ++ resolvedKeyPath))
                end
            | _ => Returned config
            end ;;
  if validProjectId config then Returned config
  else Thrown (ErrorObj (lit "Invalid project ID format")).

(** Lines 133-134 of the start of the server: the configuration it runs
    with. *)
Definition startup (args : list jsstring) : outcome ServerConfig :=
  config <~ parseArgs args ;;
  validateConfig config.
End Startup.

(** The arguments as the usage line words them: options with their
    values. *)
Definition knownOption (key : jsstring) : bool :=
  eqs key (lit "project-id") || eqs key (lit "location")
  || eqs key (lit "key-file").

Definition argumentsOf (options : list (jsstring * jsstring))
  : list jsstring :=
  flat_map (fun option => [lit "--" ++ fst option; snd option]) options.

Definition wellFormedOption (option : jsstring * jsstring) : Prop :=
  knownOption (fst option) = true
  /\ startsWith (lit "--") (snd option) = false.

(** The value of the last option named [key]. *)
Fixpoint lastValue (key : jsstring) (options : list (jsstring * jsstring))
  : option jsstring :=
  match options with
  | [] => None
  | (k, v) :: options' =>
      match lastValue key options' with
      | Some v' => Some v'
      | None => if eqs k key then Some v else None
      end
  end.

Definition valueOr (default : jsstring) (v : option jsstring) : jsstring :=
  match v with
  | Some v => v
  | None => default
  end.

(** The configuration after the options [options] have been read. *)
Definition configured (options : list (jsstring * jsstring))
           (config : ServerConfig) : ServerConfig :=
  {| projectId :=
       valueOr (projectId config) (lastValue (lit "project-id") options);
     location :=
       match lastValue (lit "location") options with
       | Some l => Some l
       | None => location config
       end;
     keyFilename :=
       match lastValue (lit "key-file") options with
       | Some f => Some f
       | None => keyFilename config
       end |}.

(* ================================================================== *)
(** ** The parts of a chart document, as the code fills them *)
(* ================================================================== *)

(** The cells of the data table: the text of each column of each of the
    first ten rows. *)
Definition tableOf (fractionToString : Q -> jsstring)
           (columns : list jsstring) (data : list value)
  : list (list jsstring) :=
  List.map (fun row =>
              List.map (fun col => toString fractionToString (prop row col))
                       columns)
           (firstn 10 data).

(** The series of a bar or line chart, and the points of a scatter
    chart. *)
Definition seriesOf (column : option jsstring) (data : list value)
  : list value :=
  List.map (fun row => prop row (columnKey column)) (firstn 20 data).

Definition pointsOf (stringToNumber : jsstring -> number)
           (fractionToString : Q -> jsstring)
           (xColumn yColumn : option jsstring) (data : list value)
  : list (number * number) :=
  List.map (fun row =>
              (toNumber stringToNumber fractionToString
                        (prop row (columnKey xColumn)),
               toNumber stringToNumber fractionToString
                        (prop row (columnKey yColumn))))
           data.

(** The kind of chart asked for: the lower-cased [type], [bar] for a
    [type] that is absent or falsy. *)
Definition requestedKind (toLowerCase : jsstring -> jsstring)
           (type : option value) : jsstring :=
  toLowerCase (match type with
               | Some (VStr (c :: t)) => c :: t
               | _ => lit "bar"
               end).

(* ================================================================== *)
(** ** The histogram of the distribution section *)
(* ================================================================== *)



(* ================================================================== *)
(** ** Possible foreign keys ([get_schema_insights]) and resource paths *)
(* ================================================================== *)

(** [s.endsWith(suffix)]. *)
Definition endsWith (suffix s : jsstring) : bool :=
  startsWith (rev suffix) (rev s).

(** [s.replace(pattern, replacement)] for a pattern that is a string and
    a replacement without [$]: the first occurrence is replaced. *)
Fixpoint replaceString (pattern replacement s : jsstring) : jsstring :=
  if startsWith pattern s then replacement ++ skipn (length pattern) s
  else
    match s with
    | [] => []
    | c :: s' => c :: replaceString pattern replacement s'
    end.

(** An entry of [tableRelationships] (lines 1044-1049). *)
Record Relationship : Type := {
  sourceTable : jsstring;
  sourceField : jsstring;
  possibleTargetTable : jsstring;
  relationshipType : jsstring
}.

(** Lines 1040-1051: the relationships the names of the fields of a table
    suggest. *)
Definition relationshipsOf (datasetId tableId : jsstring)
           (fieldNames : list jsstring) : list Relationship :=
  flat_map
    (fun name =>
       if endsWith (lit "_id") name && negb (eqs name (lit "id")) then
         [{| sourceTable := datasetId ++ lit "." ++ tableId;
             sourceField := name;
             possibleTargetTable := replaceString (lit "_id") [] name;
             relationshipType := lit "possible foreign key" |}]
       else [])
    fieldNames.

(** [pre] is where the leftmost occurrence of [pattern] in [s] begins. *)
Definition leftmost (pattern pre post s : jsstring) : Prop :=
  s = pre ++ pattern ++ post
  /\ forall pre' post',
       s = pre' ++ pattern ++ post' -> (length pre <= length pre')%nat.

(** [s.split(sep)] for a separator of one code unit. *)
Fixpoint splitOn (sep : codeUnit) (s : jsstring) : list jsstring :=
  match s with
  | [] => [[]]
  | c :: s' =>
      if (c =? sep)%N then [] :: splitOn sep s'
      else
        match splitOn sep s' with
        | component :: components => (c :: component) :: components
        | [] => [[c]]
        end
  end.

(** [array.pop()]: the last element, [undefined] for an empty array, and
    the array that is left. *)
Definition pop {A} (l : list A) : option A * list A :=
  match rev l with
  | [] => (None, [])
  | x :: r => (Some x, rev r)
  end.

(** Lines 206-213 of the handler of resource reads: the dataset and the
    table a resource path names; [pathname] is the path of the URI. *)
Definition resourceTarget (pathname : jsstring)
  : outcome (option jsstring * option jsstring) :=
  let pathComponents := splitOn 47 pathname in
  let (schema, pathComponents) := pop pathComponents in
  let (tableId, pathComponents) := pop pathComponents in
  let (datasetId, _) := pop pathComponents in
  match schema with
  | Some s =>
      if eqs s (lit "schema") then Returned (datasetId, tableId)
      else Thrown (ErrorObj (lit "Invalid resource URI"))
  | None => Thrown (ErrorObj (lit "Invalid resource URI"))
  end.

(** The number of backticks in a text. *)
Definition backticks (s : jsstring) : nat := count_occ N.eq_dec s 96%N.

(* ================================================================== *)
(** ** The wrapper script *)
(* ================================================================== *)

(** The arguments the wrapper script starts the server with (lines 31-33
    and 41-46 of the script, after the path of the server itself);
    [keyFilePath] is the key file joined to the directory of the
    script. *)
Definition wrapperArguments (keyFilePath : jsstring) : list jsstring :=
  [lit "--project-id"; lit "bestreviews-200115";
   lit "--key-file"; keyFilePath;
   lit "--location"; lit "US"].

(* ================================================================== *)
(** * Properties *)
(* ================================================================== *)

Unset Implicit Arguments.

(** ** Code units *)

Arguments sameChar : simpl never.
Arguments canonicalize : simpl never.

Ltac bprop :=
  repeat rewrite ?orb_true_iff, ?andb_true_iff, ?orb_false_iff,
    ?andb_false_iff, ?N.leb_le, ?N.eqb_eq, ?N.leb_gt, ?N.eqb_neq in *.

Ltac unfold_chars :=
  unfold isProjectIdChar, isWhiteSpace, isWordChar, isUpper, isLower,
    isDigit, inRange in *.

Lemma canonicalize_cases c :
  (isLower c = true /\ canonicalize c = (c - 32)%N)
  \/ (isLower c = false /\ canonicalize c = c).
Proof. unfold canonicalize. destruct (isLower c); auto. Qed.

Lemma whiteSpace_not_word c : isWhiteSpace c = true -> isWordChar c = false.
Proof.
  intros H. apply not_true_is_false. intros W.
  unfold_chars. bprop. lia.
Qed.

Lemma word_not_whiteSpace c : isWordChar c = true -> isWhiteSpace c = false.
Proof.
  intros H. apply not_true_is_false. intros W.
  apply whiteSpace_not_word in W. congruence.
Qed.

Lemma canonicalize_word c : isWordChar (canonicalize c) = isWordChar c.
Proof.
  destruct (canonicalize_cases c) as [[L E]|[L E]]; rewrite E; [|reflexivity].
  transitivity true; [|symmetry]; unfold_chars; bprop; lia.
Qed.

Lemma canonicalize_whiteSpace c :
  isWhiteSpace c = true -> canonicalize c = c.
Proof.
  intros W. destruct (canonicalize_cases c) as [[L E]|[L E]]; [|assumption].
  exfalso. unfold_chars. bprop. lia.
Qed.

(** A pattern character that is not a small letter is matched by itself
    and by its small form only. *)
Lemma sameChar_true p c :
  sameChar true p c = true <-> canonicalize c = canonicalize p.
Proof. unfold sameChar. rewrite N.eqb_eq. split; intros; congruence. Qed.

Lemma sameChar_dot c : sameChar true 46 c = true <-> c = 46%N.
Proof.
  rewrite sameChar_true.
  destruct (canonicalize_cases c) as [[L E]|[L E]]; rewrite E;
    change (canonicalize 46) with 46%N; unfold_chars; bprop; split; lia.
Qed.

Lemma word_not_dot c : isWordChar c = true -> sameChar true 46 c = false.
Proof.
  intros W. apply not_true_is_false. rewrite sameChar_dot. intros ->.
  discriminate W.
Qed.

(** ** The matcher on the shapes the patterns are made of *)

Lemma mstate_eta st : MState (prev st) (rest st) (capture st) = st.
Proof. destruct st; reflexivity. Qed.

Lemma matcher_str ic l : forall st k,
  matcher ic (str l) st k =
  match eat ic l st with Some st' => k st' | None => None end.
Proof.
  induction l as [|p l IH]; intros st k; simpl.
  - reflexivity.
  - destruct (rest st) as [|c s]; [reflexivity|].
    destruct (sameChar ic p c); [apply IH | reflexivity].
Qed.

Lemma lastUnit_app s : forall p t,
  lastUnit p (s ++ t) = lastUnit (lastUnit p s) t.
Proof. induction s; intros; simpl; auto. Qed.

Lemma eat_strip l : forall st,
  eat true l st =
  match strip l (rest st) with
  | Some r =>
      Some (MState (lastUnit (prev st) (firstn (length l) (rest st))) r
                   (capture st))
  | None => None
  end.
Proof.
  induction l as [|p l IH]; intros st; simpl.
  - rewrite mstate_eta. reflexivity.
  - destruct (rest st) as [|c s] eqn:E; [reflexivity|].
    destruct (sameChar true p c); [|reflexivity].
    rewrite IH. simpl. reflexivity.
Qed.

Lemma strip_spec l : forall s r,
  strip l s = Some r <-> exists w, s = w ++ r /\ spells l w.
Proof.
  unfold spells.
  induction l as [|p l IH]; intros s r; simpl.
  - split.
    + intros [= ->]. exists []. auto.
    + intros (w & -> & E). destruct w; [reflexivity | discriminate].
  - destruct s as [|c s].
    + split; [discriminate|]. intros (w & E & S).
      destruct w; [discriminate S | discriminate E].
    + destruct (sameChar true p c) eqn:SC.
      * rewrite IH. apply sameChar_true in SC. split.
        -- intros (w & -> & S). exists (c :: w). simpl. split; congruence.
        -- intros (w & E & S). destruct w as [|c' w]; [discriminate S|].
           injection E as -> ->. injection S as _ S. eauto.
      * split; [discriminate|]. intros (w & E & S).
        destruct w as [|c' w]; [discriminate S|].
        injection E as -> ->. injection S as S1 _.
        apply sameChar_true in S1. congruence.
Qed.

Lemma span_spec p s :
  forall w r, span p s = (w, r) ->
    s = w ++ r /\ allOf p w /\ (forall c r', r = c :: r' -> p c = false).
Proof.
  unfold allOf.
  induction s as [|c s IH]; intros w r; simpl.
  - intros [= <- <-]. repeat split; auto. discriminate.
  - destruct (p c) eqn:P.
    + destruct (span p s) as [w' r'']. intros [= <- <-].
      destruct (IH _ _ eq_refl) as (-> & A & N).
      repeat split; auto.
    + intros [= <- <-]. repeat split; auto.
      intros c' r' [= <- <-]. assumption.
Qed.

Lemma span_app p w : forall r,
  allOf p w -> (forall c r', r = c :: r' -> p c = false) ->
  span p (w ++ r) = (w, r).
Proof.
  unfold allOf.
  induction w as [|c w IH]; intros r A N; simpl.
  - destruct r as [|c r]; [reflexivity|]. simpl.
    rewrite (N c r eq_refl). reflexivity.
  - inversion A; subst. rewrite H1, IH; auto.
Qed.

Lemma more_class ic p k :
  (forall st c s, rest st = c :: s -> p c = true -> k st = None) ->
  forall fuel st, (length (rest st) <= fuel)%nat ->
    more (matcher ic (Class p)) k fuel st =
    let (w, r) := span p (rest st) in
    k (MState (lastUnit (prev st) w) r (capture st)).
Proof.
  intros Hk. induction fuel as [|fuel IH]; intros st Hlen.
  - destruct st as [pv [|c s] cap]; simpl in *; [reflexivity | lia].
  - destruct st as [pv [|c s] cap]; simpl in *; [reflexivity|].
    destruct (p c) eqn:P.
    + replace (length s <? S (length s))%nat with true
        by (symmetry; apply Nat.ltb_lt; lia).
      unfold step at 1. simpl.
      rewrite IH by (simpl; lia). simpl.
      destruct (span p s) as [w r]. simpl.
      rewrite (Hk (MState pv (c :: s) cap) c s eq_refl P).
      destruct (k _); reflexivity.
    + reflexivity.
Qed.

Lemma matcher_plus_class ic p k st :
  (forall st c s, rest st = c :: s -> p c = true -> k st = None) ->
  matcher ic (Plus (Class p)) st k =
  let (w, r) := span p (rest st) in
  match w with
  | [] => None
  | _ :: _ => k (MState (lastUnit (prev st) w) r (capture st))
  end.
Proof.
  intros Hk. simpl.
  destruct (rest st) as [|c s] eqn:E; [reflexivity|]. simpl.
  destruct (p c) eqn:P; [|reflexivity].
  pose proof (@more_class ic p k Hk _ (step st c s) (le_n _)) as H.
  simpl in H. rewrite H.
  destruct (span p s); reflexivity.
Qed.

Lemma matcher_alts ic st k : forall rs r0 r m,
  In r (r0 :: rs) -> matcher ic r st k = Some m ->
  exists m', matcher ic (alts r0 rs) st k = Some m'.
Proof.
  induction rs as [|r1 rs IH]; intros r0 r m HIn Hm.
  - destruct HIn as [->|[]]. simpl. eauto.
  - simpl. destruct (matcher ic r0 st k) eqn:E0; [eauto|].
    destruct HIn as [->|HIn]; [congruence|]. eapply IH; eauto.
Qed.

Lemma testFrom_eq ic r p s :
  testFrom ic r p s =
  match matchHere ic r p s with
  | Some _ => true
  | None => match s with [] => false | c :: s' => testFrom ic r (Some c) s' end
  end.
Proof. destruct s; reflexivity. Qed.

Lemma testFrom_app ic r pre : forall p s m,
  matchHere ic r (lastUnit p pre) s = Some m ->
  testFrom ic r p (pre ++ s) = true.
Proof.
  induction pre as [|c pre IH]; intros p s m H; simpl in H.
  - rewrite testFrom_eq. simpl. rewrite H. reflexivity.
  - simpl. destruct (matchHere ic r p (c :: pre ++ s)); [reflexivity|].
    eapply IH; eauto.
Qed.

Lemma matcher_seq ic a b st k :
  matcher ic (Seq a b) st k = matcher ic a st (fun st' => matcher ic b st' k).
Proof. reflexivity. Qed.

Lemma matcher_group ic r st k :
  matcher ic (Group r) st k =
  matcher ic r st (fun st' =>
    k (MState (prev st') (rest st')
         (Some (firstn (length (rest st) - length (rest st')) (rest st))))).
Proof. reflexivity. Qed.

Lemma matcher_opt ic r st k :
  matcher ic (Opt r) st k =
  match matcher ic r st k with Some m => Some m | None => k st end.
Proof. reflexivity. Qed.

Lemma matcher_char ic p st k :
  matcher ic (Char p) st k =
  match rest st with
  | c :: s => if sameChar ic p c then k (step st c s) else None
  | [] => None
  end.
Proof. reflexivity. Qed.

Lemma matcher_boundary ic st k :
  matcher ic WordBoundary st k =
  if xorb (isWordAt (prev st)) (isWordAt (hd_error (rest st)))
  then k st else None.
Proof. reflexivity. Qed.

Lemma firstn_consumed (w r : jsstring) :
  firstn (length (w ++ r) - length r) (w ++ r) = w.
Proof.
  rewrite length_app. replace (length w + length r - length r)%nat
    with (length w) by lia.
  rewrite firstn_app, Nat.sub_diag, firstn_all. simpl. apply app_nil_r.
Qed.

(** ** Words in any letter case *)

Lemma spells_length kw w : spells kw w -> length w = length kw.
Proof.
  unfold spells. intros H. apply (f_equal (@length _)) in H.
  rewrite !length_map in H. exact H.
Qed.

Lemma spells_word kw : forall w,
  spells kw w -> allOf isWordChar kw -> allOf isWordChar w.
Proof.
  unfold spells, allOf.
  induction kw as [|k kw IH]; intros [|c w] S A; try discriminate S.
  - constructor.
  - injection S as S1 S2. inversion A; subst. constructor; auto.
    rewrite <- canonicalize_word, S1, canonicalize_word. assumption.
Qed.

Lemma word_run_ends w p post :
  w <> [] -> allOf isWordChar w ->
  isWordAt (hd_error (w ++ post)) = true /\ isWordAt (lastUnit p w) = true.
Proof.
  unfold allOf. intros NE A. split.
  - destruct w as [|c w]; [congruence|]. inversion A; subst. assumption.
  - revert p NE. induction A as [|c w C A IH]; intros p NE.
    + congruence.
    + simpl. destruct w as [|c' w']; [exact C|]. apply IH. discriminate.
Qed.

(* ================================================================== *)
(** ** The read-only guard *)
(* ================================================================== *)

Lemma forbiddenKeywords_words :
  Forall (fun kw => kw <> [] /\ allOf isWordChar kw) forbiddenKeywords.
Proof.
  unfold allOf.
  repeat (constructor; [split; [discriminate | repeat constructor]|]).
  constructor.
Qed.

Lemma forbiddenPattern_alternatives kw :
  In kw forbiddenKeywords ->
  In (str kw) (str (lit "INSERT") :: List.map str (tl forbiddenKeywords)).
Proof.
  intros H.
  change (In (str kw) (List.map str forbiddenKeywords)).
  apply in_map. exact H.
Qed.

(** The pattern matches wherever a keyword stands as a word of its own. *)
Lemma forbiddenPattern_matches kw p w post :
  In kw forbiddenKeywords -> spells kw w ->
  isWordAt p = false -> isWordAt (hd_error post) = false ->
  exists m, matchHere true forbiddenPattern p (w ++ post) = Some m.
Proof.
  intros HIn S Hp Hpost.
  pose proof forbiddenKeywords_words as F.
  rewrite Forall_forall in F. destruct (F kw HIn) as [NE A].
  assert (Aw : allOf isWordChar w) by (eapply spells_word; eauto).
  assert (NEw : w <> []).
  { intros ->. apply spells_length in S. destruct kw; [congruence|discriminate]. }
  destruct (word_run_ends w p post NEw Aw) as [Hhd Hlast].
  unfold matchHere, forbiddenPattern.
  rewrite matcher_seq, matcher_boundary. cbn [prev rest].
  rewrite Hp, Hhd. cbn [xorb].
  rewrite matcher_seq, matcher_group.
  eapply matcher_alts.
  - apply forbiddenPattern_alternatives. exact HIn.
  - rewrite matcher_str, eat_strip. cbn [rest prev capture].
    assert (E : strip kw (w ++ post) = Some post).
    { apply strip_spec. exists w. auto. }
    rewrite E. rewrite matcher_boundary. cbn [prev rest].
    rewrite <- (spells_length kw w S), firstn_app, Nat.sub_diag, firstn_all.
    cbn [firstn]. rewrite app_nil_r, Hlast, Hpost. reflexivity.
Qed.

Lemma forbiddenPattern_test kw sql :
  In kw forbiddenKeywords -> standaloneWord kw sql ->
  test true forbiddenPattern sql = true.
Proof.
  intros HIn (pre & w & post & -> & S & Hpre & Hpost).
  destruct (forbiddenPattern_matches kw (lastUnit None pre) w post)
    as [m Hm]; auto.
  unfold test. eapply testFrom_app. exact Hm.
Qed.

(* ================================================================== *)
(** ** The pattern of [qualifyTablePath] *)
(* ================================================================== *)

Lemma tablesPath_whiteSpace st c s k :
  rest st = c :: s -> isWhiteSpace c = true ->
  matcher true tablesPath st k = None.
Proof.
  intros E W. unfold tablesPath. rewrite matcher_str.
  change (lit "INFORMATION_SCHEMA.TABLES")
    with (73%N :: lit "NFORMATION_SCHEMA.TABLES").
  cbn [eat]. rewrite E.
  replace (sameChar true 73 c) with false; [reflexivity|].
  symmetry. apply not_true_is_false. rewrite sameChar_true.
  rewrite (canonicalize_whiteSpace c W). intros ->. discriminate W.
Qed.

Lemma datasetPrefix_spec st k :
  matcher true datasetPrefix st k =
  let (w, s3) := span isWordChar (rest st) in
  match w, s3 with
  | _ :: _, c :: s4 =>
      if sameChar true 46 c then k (MState (Some c) s4 (Some w)) else None
  | _, _ => None
  end.
Proof.
  unfold datasetPrefix. rewrite matcher_seq, matcher_group.
  rewrite matcher_plus_class.
  - destruct (span isWordChar (rest st)) as [w s3] eqn:E.
    destruct (span_spec _ _ _ _ E) as (R & _ & _).
    destruct w as [|c0 w]; [reflexivity|].
    cbn [prev rest capture]. rewrite matcher_char. cbn [rest].
    destruct s3 as [|c s4]; [reflexivity|].
    rewrite R, firstn_consumed. reflexivity.
  - intros st' c s E W. rewrite matcher_char. cbn [rest]. rewrite E.
    rewrite (word_not_dot c W). reflexivity.
Qed.

Lemma datasetPrefix_whiteSpace st c s k :
  rest st = c :: s -> isWhiteSpace c = true ->
  matcher true datasetPrefix st k = None.
Proof.
  intros E W. rewrite datasetPrefix_spec, E. cbn [span].
  rewrite (whiteSpace_not_word c W). reflexivity.
Qed.

Lemma strip_length l : forall s r,
  strip l s = Some r -> (length s = length l + length r)%nat.
Proof.
  intros s r H. apply strip_spec in H. destruct H as (w & -> & S).
  rewrite length_app, (spells_length _ _ S). reflexivity.
Qed.

(** The matcher on [unqualifiedPattern] is [matchFrom]. *)
Lemma matchHere_unqualified p s :
  matchHere true unqualifiedPattern p s =
  match matchFrom s with
  | Some (dataset, r) =>
      Some (MState (lastUnit p (firstn (length s - length r) s)) r dataset)
  | None => None
  end.
Proof.
  unfold matchHere, unqualifiedPattern, matchFrom.
  rewrite matcher_seq, matcher_str, eat_strip. cbn [rest prev capture].
  destruct (strip (lit "FROM") s) as [s1|] eqn:E1; [|reflexivity].
  apply strip_spec in E1. destruct E1 as (f & -> & Sf).
  pose proof (spells_length _ _ Sf) as Lf.
  rewrite matcher_seq, matcher_plus_class.
  2:{ intros st c s E W. rewrite matcher_seq, matcher_opt.
      rewrite (datasetPrefix_whiteSpace st c s _ E W).
      apply (tablesPath_whiteSpace st c s _ E W). }
  cbn [rest prev capture].
  destruct (span isWhiteSpace s1) as [ws s2] eqn:E2.
  destruct (span_spec _ _ _ _ E2) as (-> & _ & _).
  destruct ws as [|w0 ws]; [reflexivity|].
  rewrite matcher_seq, matcher_opt, datasetPrefix_spec. cbn [rest].
  destruct (span isWordChar s2) as [w s3] eqn:E3.
  destruct (span_spec _ _ _ _ E3) as (-> & _ & _).
  set (pv := lastUnit _ (w0 :: ws)).
  assert (Tail : forall st, matcher true tablesPath st Some =
            match strip (lit "INFORMATION_SCHEMA.TABLES") (rest st) with
            | Some r => Some (MState (lastUnit (prev st)
                          (firstn 25 (rest st))) r (capture st))
            | None => None
            end).
  { intros st. unfold tablesPath. rewrite matcher_str, eat_strip.
    destruct (strip _ (rest st)); reflexivity. }
  assert (Fallback :
    match strip (lit "INFORMATION_SCHEMA.TABLES") (w ++ s3) with
    | Some r => Some (MState (lastUnit pv (firstn 25 (w ++ s3))) r None)
    | None => None
    end =
    match
      match strip (lit "INFORMATION_SCHEMA.TABLES") (w ++ s3) with
      | Some r => Some (@None jsstring, r)
      | None => None
      end
    with
    | Some (dataset, r) =>
        Some (MState (lastUnit p
                (firstn (length (f ++ (w0 :: ws) ++ w ++ s3) - length r)
                        (f ++ (w0 :: ws) ++ w ++ s3))) r dataset)
    | None => None
    end).
  { destruct (strip _ (w ++ s3)) as [r|] eqn:E4; [|reflexivity].
    apply strip_spec in E4. destruct E4 as (i & E & Si).
    pose proof (spells_length _ _ Si) as Li. rewrite E.
    change (length (lit "INFORMATION_SCHEMA.TABLES")) with 25%nat in Li.
    rewrite <- Li at 1. rewrite firstn_app, Nat.sub_diag, firstn_all.
    cbn [firstn]. rewrite app_nil_r.
    replace (f ++ (w0 :: ws) ++ i ++ r) with ((f ++ (w0 :: ws) ++ i) ++ r)
      by (rewrite <- !app_assoc; reflexivity).
    rewrite firstn_consumed. unfold pv. rewrite !lastUnit_app. reflexivity. }
  destruct w as [|c0 w].
  { rewrite Tail. cbn [rest prev capture]. exact Fallback. }
  destruct s3 as [|c s4].
  { rewrite Tail. cbn [rest prev capture]. exact Fallback. }
  destruct (sameChar true 46 c) eqn:D.
  2:{ rewrite Tail. cbn [rest prev capture]. exact Fallback. }
  rewrite Tail. cbn [rest prev capture].
  destruct (strip (lit "INFORMATION_SCHEMA.TABLES") s4) as [r|] eqn:E4.
  2:{ rewrite Tail. cbn [rest prev capture]. exact Fallback. }
  apply strip_spec in E4. destruct E4 as (i & -> & Si).
  pose proof (spells_length _ _ Si) as Li.
  change (length (lit "INFORMATION_SCHEMA.TABLES")) with 25%nat in Li.
  rewrite <- Li at 1. rewrite firstn_app, Nat.sub_diag, firstn_all.
  cbn [firstn]. rewrite app_nil_r.
  replace (f ++ (w0 :: ws) ++ (c0 :: w) ++ c :: i ++ r)
    with ((f ++ (w0 :: ws) ++ (c0 :: w) ++ c :: i) ++ r)
    by (rewrite <- !app_assoc; reflexivity).
  rewrite firstn_consumed, !lastUnit_app.
  destruct i as [|i0 i]; [discriminate Li|].
  reflexivity.
Qed.

Lemma IST_letters i :
  spells (lit "INFORMATION_SCHEMA.TABLES") i ->
  exists w t, i = w ++ 46%N :: t
    /\ allOf isWordChar w /\ w <> []
    /\ spells (lit "TABLES") t.
Proof.
  intros S. unfold spells in S.
  do 25 (destruct i as [|? i]; [discriminate S|]).
  destruct i; [|discriminate S].
  cbv [lit list_ascii_of_string List.map N_of_ascii N_of_digits
       N.add N.mul] in S.
  injection S as H0 H1 H2 H3 H4 H5 H6 H7 H8 H9 H10 H11 H12 H13 H14 H15 H16
    H17 H18 H19 H20 H21 H22 H23 H24.
  exists [c; c0; c1; c2; c3; c4; c5; c6; c7; c8; c9; c10; c11; c12; c13;
          c14; c15; c16], [c18; c19; c20; c21; c22; c23].
  assert (D : c17 = 46%N).
  { apply sameChar_dot, sameChar_true. rewrite H18. reflexivity. }
  subst c17. repeat split.
  - unfold allOf.
    repeat (constructor;
            [rewrite <- canonicalize_word;
             first [rewrite H0|rewrite H1|rewrite H2|rewrite H3|rewrite H4
                   |rewrite H5|rewrite H6|rewrite H7|rewrite H8|rewrite H9
                   |rewrite H10|rewrite H11|rewrite H12|rewrite H13
                   |rewrite H14|rewrite H15|rewrite H16|rewrite H17];
             reflexivity|]).
    constructor.
  - discriminate.
  - unfold spells. cbn [List.map].
    rewrite H19, H20, H21, H22, H23, H24. reflexivity.
Qed.

Lemma spells_head kw k w c :
  spells (k :: kw) (c :: w) -> canonicalize c = canonicalize k.
Proof. unfold spells. cbn [List.map]. intros [= H _]. exact H. Qed.

Lemma strip_mismatch k l c s :
  canonicalize c <> canonicalize k -> strip (k :: l) (c :: s) = None.
Proof.
  intros H. cbn [strip].
  replace (sameChar true k c) with false; [reflexivity|].
  symmetry. apply not_true_is_false. rewrite sameChar_true. exact H.
Qed.

(** A match is the text of an occurrence, and the text of an occurrence is
    matched whatever follows it. *)
Lemma matchFrom_occurrence s dataset r :
  matchFrom s = Some (dataset, r) ->
  exists m, s = m ++ r /\ occurrence dataset m.
Proof.
  unfold matchFrom.
  destruct (strip (lit "FROM") s) as [s1|] eqn:E1; [|discriminate].
  apply strip_spec in E1. destruct E1 as (f & -> & Sf).
  destruct (span isWhiteSpace s1) as [ws s2] eqn:E2.
  destruct (span_spec _ _ _ _ E2) as (-> & Aws & _).
  destruct ws as [|w0 ws]; [discriminate|].
  destruct (span isWordChar s2) as [w s3] eqn:E3.
  destruct (span_spec _ _ _ _ E3) as (-> & Aw & _).
  assert (Fallback :
    match strip (lit "INFORMATION_SCHEMA.TABLES") (w ++ s3) with
    | Some r => Some (@None jsstring, r)
    | None => None
    end = Some (dataset, r) ->
    exists m, f ++ (w0 :: ws) ++ w ++ s3 = m ++ r /\ occurrence dataset m).
  { destruct (strip _ (w ++ s3)) as [r'|] eqn:E4; [|discriminate].
    intros [= <- <-]. apply strip_spec in E4. destruct E4 as (i & E & Si).
    exists (f ++ (w0 :: ws) ++ i). rewrite E, <- !app_assoc. split; auto.
    exists f, (w0 :: ws), i. repeat split; auto. discriminate. }
  destruct w as [|c0 w]; [exact Fallback|].
  destruct s3 as [|c s4]; [exact Fallback|].
  destruct (sameChar true 46 c) eqn:D; [|exact Fallback].
  destruct (strip (lit "INFORMATION_SCHEMA.TABLES") s4) as [r'|] eqn:E4;
    [|exact Fallback].
  intros [= <- <-]. apply sameChar_dot in D. subst c.
  apply strip_spec in E4. destruct E4 as (i & -> & Si).
  exists (f ++ (w0 :: ws) ++ (c0 :: w) ++ lit "." ++ i). split.
  - rewrite <- !app_assoc. reflexivity.
  - exists f, (w0 :: ws), i. repeat split; auto; discriminate.
Qed.

Lemma occurrence_matchFrom dataset m r :
  occurrence dataset m -> matchFrom (m ++ r) = Some (dataset, r).
Proof.
  destruct dataset as [ds|]; cbn [occurrence].
  - intros (f & ws & i & -> & Sf & NEws & Aws & NEds & Ads & Si).
    unfold matchFrom. rewrite <- !app_assoc.
    assert (E1 : strip (lit "FROM") (f ++ ws ++ ds ++ lit "." ++ i ++ r)
                 = Some (ws ++ ds ++ lit "." ++ i ++ r)).
    { apply strip_spec. exists f. auto. }
    rewrite E1.
    destruct ds as [|d0 ds]; [congruence|].
    rewrite (span_app isWhiteSpace ws); auto.
    2:{ intros c r' [= <- <-]. apply word_not_whiteSpace.
        inversion Ads; auto. }
    destruct ws as [|w0 ws]; [congruence|].
    rewrite (span_app isWordChar (d0 :: ds)); auto.
    2:{ intros c r' [= <- <-]. reflexivity. }
    change (lit "." ++ i ++ r) with (46%N :: i ++ r). cbv iota.
    replace (sameChar true 46 46) with true by reflexivity.
    assert (E4 : strip (lit "INFORMATION_SCHEMA.TABLES") (i ++ r) = Some r).
    { apply strip_spec. exists i. auto. }
    rewrite E4. reflexivity.
  - intros (f & ws & i & -> & Sf & NEws & Aws & Si).
    unfold matchFrom. rewrite <- !app_assoc.
    assert (E1 : strip (lit "FROM") (f ++ ws ++ i ++ r) = Some (ws ++ i ++ r)).
    { apply strip_spec. exists f. auto. }
    rewrite E1.
    assert (E4 : strip (lit "INFORMATION_SCHEMA.TABLES") (i ++ r) = Some r).
    { apply strip_spec. exists i. auto. }
    destruct (IST_letters i Si) as (w & t & -> & Aw & NEw & St).
    destruct w as [|c0 w]; [congruence|].
    rewrite (span_app isWhiteSpace ws); auto.
    2:{ intros c r' [= <- <-]. apply word_not_whiteSpace.
        inversion Aw; auto. }
    destruct ws as [|w0 ws]; [congruence|].
    rewrite <- app_assoc.
    rewrite (span_app isWordChar (c0 :: w)); auto.
    2:{ intros c r' [= <- <-]. reflexivity. }
    cbn [app]. replace (sameChar true 46 46) with true by reflexivity.
    destruct t as [|t0 t]; [discriminate St|].
    change (lit "INFORMATION_SCHEMA.TABLES")
      with (73%N :: lit "NFORMATION_SCHEMA.TABLES").
    cbn [app]. rewrite strip_mismatch.
    + change (73%N :: lit "NFORMATION_SCHEMA.TABLES")
        with (lit "INFORMATION_SCHEMA.TABLES").
      rewrite <- app_assoc in E4. cbn [app] in E4. rewrite E4. reflexivity.
    + change (lit "TABLES") with (84%N :: lit "ABLES") in St.
      rewrite (spells_head _ _ _ _ St). discriminate.
Qed.

(* ================================================================== *)
(** ** [qualifyTablePath] by its equations *)
(* ================================================================== *)

Lemma occurrence_from dataset m :
  occurrence dataset m ->
  exists f t, m = f ++ t /\ spells (lit "FROM") f.
Proof.
  destruct dataset as [ds|]; cbn [occurrence].
  - intros (f & ws & i & -> & Sf & _). eauto.
  - intros (f & ws & i & -> & Sf & _). eauto.
Qed.

Lemma occurrence_nonempty dataset m : occurrence dataset m -> m <> [].
Proof.
  intros O. destruct (occurrence_from _ _ O) as (f & t & -> & Sf).
  apply spells_length in Sf. destruct f; [discriminate Sf | discriminate].
Qed.

Lemma matchFrom_shorter s dataset r :
  matchFrom s = Some (dataset, r) ->
  (length r < length s)%nat /\ firstn (length s - length r) s <> [].
Proof.
  intros H. apply matchFrom_occurrence in H. destruct H as (m & -> & O).
  apply occurrence_nonempty in O. rewrite firstn_consumed, length_app.
  split; [|assumption]. destruct m; [congruence | simpl; lia].
Qed.

Lemma matchFrom_dataset s ds r :
  matchFrom s = Some (Some ds, r) -> ds <> [].
Proof.
  intros H. apply matchFrom_occurrence in H. destruct H as (m & _ & O).
  destruct O as (f & ws & i & _ & _ & _ & _ & NE & _). exact NE.
Qed.

Lemma replaceFrom_step pid fuel p s :
  replaceFrom true unqualifiedPattern (qualifyMatch pid) (S fuel) p s =
  match matchFrom s with
  | Some (dataset, r) =>
      match qualifyMatch pid (firstn (length s - length r) s) dataset with
      | Thrown e => Thrown e
      | Returned new =>
          prepend new
            (replaceFrom true unqualifiedPattern (qualifyMatch pid) fuel
               (lastUnit p (firstn (length s - length r) s)) r)
      end
  | None =>
      match s with
      | [] => Returned []
      | c :: s' =>
          prepend [c]
            (replaceFrom true unqualifiedPattern (qualifyMatch pid) fuel
               (Some c) s')
      end
  end.
Proof.
  cbn [replaceFrom]. rewrite matchHere_unqualified.
  destruct (matchFrom s) as [[dataset r]|] eqn:E.
  - cbn [rest capture prev].
    destruct (qualifyMatch pid _ dataset); [|reflexivity].
    destruct (matchFrom_shorter _ _ _ E) as [_ NE].
    destruct (firstn (length s - length r) s); [congruence|].
    reflexivity.
  - destruct s; reflexivity.
Qed.

Lemma replaceFrom_indep pid : forall f1 f2 p1 p2 s,
  (length s < f1)%nat -> (length s < f2)%nat ->
  replaceFrom true unqualifiedPattern (qualifyMatch pid) f1 p1 s =
  replaceFrom true unqualifiedPattern (qualifyMatch pid) f2 p2 s.
Proof.
  induction f1 as [|f1 IH]; intros f2 p1 p2 s L1 L2; [lia|].
  destruct f2 as [|f2]; [lia|].
  rewrite !replaceFrom_step.
  destruct (matchFrom s) as [[dataset r]|] eqn:E.
  - destruct (matchFrom_shorter _ _ _ E) as [Lr _].
    unfold qualifyMatch. destruct dataset as [[|c ds]|]; try reflexivity.
    f_equal. apply IH; lia.
  - destruct s as [|c s]; [reflexivity|]. f_equal.
    apply IH; simpl in *; lia.
Qed.

Lemma qualifyTablePath_eq s pid :
  qualifyTablePath s pid =
  match matchFrom s with
  | Some (Some (c :: ds), r) =>
      prepend (qualified pid (c :: ds)) (qualifyTablePath r pid)
  | Some (_, r) => Thrown datasetError
  | None =>
      match s with
      | [] => Returned []
      | c :: s' => prepend [c] (qualifyTablePath s' pid)
      end
  end.
Proof.
  unfold qualifyTablePath, replace. rewrite replaceFrom_step.
  destruct (matchFrom s) as [[dataset r]|] eqn:E.
  - destruct (matchFrom_shorter _ _ _ E) as [Lr _].
    unfold qualifyMatch. destruct dataset as [[|c ds]|]; try reflexivity.
    apply f_equal. apply replaceFrom_indep; lia.
  - destruct s as [|c s]; [reflexivity|]. apply f_equal.
    apply replaceFrom_indep; simpl; lia.
Qed.

Lemma qualifyTablePath_nil pid : qualifyTablePath [] pid = Returned [].
Proof. reflexivity. Qed.

Lemma qualifyTablePath_occurrence pid ds m r :
  qualifiedOccurrence ds m ->
  qualifyTablePath (m ++ r) pid =
  prepend (qualified pid ds) (qualifyTablePath r pid).
Proof.
  intros O. rewrite qualifyTablePath_eq.
  rewrite (occurrence_matchFrom (Some ds) m r O).
  destruct O as (f & ws & i & _ & _ & _ & _ & NE & _).
  destruct ds; [congruence | reflexivity].
Qed.

Lemma qualifyTablePath_unqualified pid m r :
  unqualifiedOccurrence m -> qualifyTablePath (m ++ r) pid = Thrown datasetError.
Proof.
  intros O. rewrite qualifyTablePath_eq.
  rewrite (occurrence_matchFrom None m r O). reflexivity.
Qed.

Lemma jsstring_length_ind (P : jsstring -> Prop) :
  (forall s, (forall t, (length t < length s)%nat -> P t) -> P s) ->
  forall s, P s.
Proof.
  intros H s. remember (length s) as n eqn:E. revert s E.
  induction n as [n IH] using lt_wf_ind. intros s ->.
  apply H. intros t L. eapply IH; eauto.
Qed.

(** ** Matches do not overlap *)

Lemma occurrence_startsFrom dataset m r :
  occurrence dataset m -> startsFrom (m ++ r) = true.
Proof.
  intros O. unfold startsFrom.
  assert (exists f c t, m = f ++ c :: t /\ spells (lit "FROM") f
                        /\ isWhiteSpace c = true) as (f & c & t & -> & Sf & W).
  { destruct dataset as [ds|]; cbn [occurrence] in O;
      destruct O as (f & ws & i & O); decompose [and] O; subst;
      (destruct ws as [|c ws]; [congruence|]);
      match goal with A : allOf _ (_ :: _) |- _ => inversion A; subst end;
      eexists f, c, _; repeat split; eauto. }
  rewrite <- app_assoc.
  assert (E : strip (lit "FROM") (f ++ (c :: t) ++ r) = Some ((c :: t) ++ r)).
  { apply strip_spec. eauto. }
  rewrite E. exact W.
Qed.

Lemma startsFrom_head c s :
  canonicalize c <> 70%N -> startsFrom (c :: s) = false.
Proof.
  intros H. unfold startsFrom.
  change (lit "FROM") with (70%N :: lit "ROM").
  rewrite strip_mismatch; [reflexivity | exact H].
Qed.

Lemma startsFrom_long l r :
  (5 <= length l)%nat -> allOf notWhiteSpace l ->
  startsFrom (l ++ r) = false.
Proof.
  intros L A. unfold allOf in A.
  do 5 (destruct l as [|? l]; [simpl in L; lia|]).
  unfold startsFrom.
  destruct (strip (lit "FROM") _) as [[|x t]|] eqn:E; try reflexivity.
  cbn in E. repeat match type of E with
    | (if ?b then _ else _) = _ => destruct b; [|discriminate E]
    end.
  injection E as <- _.
  repeat match goal with A : Forall _ (_ :: _) |- _ => inversion A; clear A; subst end.
  apply negb_true_iff. assumption.
Qed.

Lemma suffix_cases (pre l a b : jsstring) :
  pre ++ l = a ++ b ->
  (exists a', a = pre ++ a' /\ l = a' ++ b /\ a' <> [])
  \/ (exists b', b = b' ++ l /\ pre = a ++ b').
Proof.
  intros E. apply app_eq_app in E. destruct E as (x & [[-> ->]|[-> ->]]).
  - right. eauto.
  - destruct x as [|c x].
    + right. exists []. simpl. rewrite !app_nil_r. auto.
    + left. exists (c :: x). repeat split; auto. discriminate.
Qed.

Lemma canonicalize_notWhiteSpace k :
  isWhiteSpace k = false -> isWhiteSpace (canonicalize k) = false.
Proof.
  intros H. destruct (canonicalize_cases k) as [[L E]|[L E]]; rewrite E;
    [|assumption].
  apply not_true_is_false. intros W. unfold_chars. bprop. lia.
Qed.

Lemma spells_notWhiteSpace kw : forall w,
  spells kw w -> allOf notWhiteSpace kw -> allOf notWhiteSpace w.
Proof.
  unfold spells, allOf, notWhiteSpace.
  induction kw as [|k kw IH]; intros [|c w] S A; try discriminate S.
  - constructor.
  - injection S as S1 S2. inversion A; subst. constructor; auto.
    apply negb_true_iff. apply not_true_is_false. intros W.
    rewrite (canonicalize_whiteSpace c W) in S1. subst c.
    apply negb_true_iff in H1. apply canonicalize_notWhiteSpace in H1.
    congruence.
Qed.

Lemma word_notWhiteSpace w : allOf isWordChar w -> allOf notWhiteSpace w.
Proof.
  unfold allOf, notWhiteSpace. intros A.
  induction A; constructor; auto.
  apply negb_true_iff, word_not_whiteSpace. assumption.
Qed.

Lemma allOf_app p a b : allOf p a -> allOf p b -> allOf p (a ++ b).
Proof. unfold allOf. intros. apply Forall_app. auto. Qed.

Lemma allOf_app_inv p a b : allOf p (a ++ b) -> allOf p a /\ allOf p b.
Proof. unfold allOf. apply Forall_app. Qed.

(** The shape of an occurrence: FROM, white space, then text without white
    space that ends in the path. *)
Lemma occurrence_shape dataset m :
  occurrence dataset m ->
  exists f ws x i,
    m = f ++ ws ++ x ++ i
    /\ spells (lit "FROM") f /\ ws <> [] /\ allOf isWhiteSpace ws
    /\ allOf notWhiteSpace x
    /\ spells (lit "INFORMATION_SCHEMA.TABLES") i.
Proof.
  destruct dataset as [ds|]; cbn [occurrence].
  - intros (f & ws & i & -> & Sf & NEws & Aws & NEds & Ads & Si).
    exists f, ws, (ds ++ lit "."), i. rewrite <- !app_assoc.
    repeat split; auto.
    apply allOf_app; [apply word_notWhiteSpace; assumption|].
    repeat constructor.
  - intros (f & ws & i & -> & Sf & NEws & Aws & Si).
    exists f, ws, [], i. repeat split; auto. constructor.
Qed.

Lemma startsFrom_second c c' s :
  canonicalize c' <> 82%N -> startsFrom (c :: c' :: s) = false.
Proof.
  intros H. unfold startsFrom.
  change (lit "FROM") with (70%N :: 82%N :: lit "OM").
  cbn [strip]. destruct (sameChar true 70 c); [|reflexivity].
  change (if sameChar true 82 c' then strip (lit "OM") s else None)
    with (strip (82%N :: lit "OM") (c' :: s)).
  rewrite strip_mismatch; [reflexivity | exact H].
Qed.

Lemma IST_suffix i b l r :
  spells (lit "INFORMATION_SCHEMA.TABLES") i -> i = b ++ l -> l <> [] ->
  startsFrom (l ++ r) = false.
Proof.
  intros S E NE. unfold spells in S.
  do 25 (destruct i as [|? i]; [discriminate S|]).
  destruct i; [|discriminate S].
  match type of S with _ = ?rhs =>
    let v := eval vm_compute in rhs in change rhs with v in S end.
  cbn [List.map] in S.
  injection S as H0 H1 H2 H3 H4 H5 H6 H7 H8 H9 H10 H11 H12 H13 H14 H15 H16
    H17 H18 H19 H20 H21 H22 H23 H24.
  do 25 (destruct b as [|? b];
         [cbn [app] in E; subst l; cbn [app];
          first [apply startsFrom_head; congruence
                |apply startsFrom_second; congruence]
         |injection E as <- E]).
  destruct b; [|discriminate E]. cbn [app] in E. congruence.
Qed.

Lemma FROM_suffix f pre l r :
  spells (lit "FROM") f -> f = pre ++ l -> pre <> [] -> l <> [] ->
  startsFrom (l ++ r) = false.
Proof.
  intros S E NEpre NEl. unfold spells in S.
  do 4 (destruct f as [|? f]; [discriminate S|]).
  destruct f; [|discriminate S].
  match type of S with _ = ?rhs =>
    let v := eval vm_compute in rhs in change rhs with v in S end.
  cbn [List.map] in S.
  injection S as H0 H1 H2 H3.
  destruct pre as [|? pre]; [congruence|]. injection E as <- E.
  do 3 (destruct pre as [|? pre];
        [cbn [app] in E; subst l; apply startsFrom_head; congruence
        |injection E as <- E]).
  destruct pre; [|discriminate E]. cbn [app] in E. congruence.
Qed.

(** No match begins inside the text of another. *)
Lemma no_inner_start dataset m pre l r :
  occurrence dataset m -> m = pre ++ l -> pre <> [] -> l <> [] ->
  startsFrom (l ++ r) = false.
Proof.
  intros O E NEpre NEl.
  destruct (occurrence_shape _ _ O) as (f & ws & x & i & -> & Sf & NEws & Aws & Ax & Si).
  symmetry in E. apply suffix_cases in E.
  destruct E as [(f' & -> & -> & NEf')|(b & E & ->)].
  { rewrite <- app_assoc. eapply FROM_suffix; eauto. }
  symmetry in E. apply suffix_cases in E.
  destruct E as [(ws' & -> & -> & NEws')|(b1 & E & ->)].
  { destruct ws' as [|c ws']; [congruence|]. cbn [app].
    apply allOf_app_inv in Aws. destruct Aws as [_ Aws]. inversion Aws; subst.
    apply startsFrom_head. rewrite canonicalize_whiteSpace by assumption.
    intros ->. discriminate. }
  symmetry in E. apply suffix_cases in E.
  destruct E as [(x' & -> & -> & NEx')|(b2 & E & ->)].
  { apply startsFrom_long.
    - rewrite length_app. pose proof (spells_length _ _ Si) as L.
      change (length (lit "INFORMATION_SCHEMA.TABLES")) with 25%nat in L. lia.
    - apply allOf_app_inv in Ax. destruct Ax as [_ Ax].
      apply allOf_app; [assumption|].
      eapply spells_notWhiteSpace; [exact Si|]. repeat constructor. }
  eapply IST_suffix; eauto.
Qed.

(* ================================================================== *)
(** ** What [qualifyTablePath] rewrites *)
(* ================================================================== *)

Ltac by_length s IH :=
  intros s; pattern s; apply jsstring_length_ind; clear s; intros s IH.

Lemma prepend_returned x o out :
  prepend x o = Returned out ->
  exists out', o = Returned out' /\ out = x ++ out'.
Proof.
  destruct o as [out'|e]; cbn [prepend]; [|discriminate].
  intros [= <-]. eauto.
Qed.

Lemma prepend_thrown x o e : prepend x o = Thrown e -> o = Thrown e.
Proof. destruct o; cbn [prepend]; [discriminate | congruence]. Qed.

(** A match at the head of a prefix is a match at the head of the whole. *)
Lemma matchFrom_extend s dataset r t :
  matchFrom s = Some (dataset, r) ->
  matchFrom (s ++ t) = Some (dataset, r ++ t).
Proof.
  intros H. apply matchFrom_occurrence in H. destruct H as (m & -> & O).
  rewrite <- app_assoc. apply occurrence_matchFrom. exact O.
Qed.

(** The case analysis behind every proof below: where a match at the head
    of [pre ++ m ++ post] ends, [m] being an occurrence. *)
Lemma match_before_occurrence pre m post dataset dataset' r :
  occurrence dataset m ->
  matchFrom (pre ++ m ++ post) = Some (dataset', r) ->
  (pre = [] /\ dataset' = dataset /\ r = post)
  \/ (exists w x, pre = w ++ x /\ occurrence dataset' w /\ w <> []
                  /\ r = x ++ m ++ post).
Proof.
  intros O H.
  destruct pre as [|c pre].
  { left. cbn [app] in H. rewrite (occurrence_matchFrom _ _ post O) in H.
    injection H as <- <-. auto. }
  right. pose proof H as H'.
  apply matchFrom_occurrence in H'. destruct H' as (w & E & Ow).
  pose proof (occurrence_nonempty _ _ Ow) as NEw.
  apply suffix_cases in E.
  destruct E as [(l & -> & E & NEl)|(x & -> & E)].
  - exfalso.
    pose proof (no_inner_start _ _ (c :: pre) l r Ow eq_refl
                  ltac:(discriminate) NEl) as N.
    rewrite <- E, (occurrence_startsFrom _ _ post O) in N. discriminate.
  - exists w, x. auto.
Qed.

(** An occurrence without a dataset makes the rewrite throw. *)
Lemma qualifyTablePath_throws pid : forall pre m post,
  unqualifiedOccurrence m ->
  qualifyTablePath (pre ++ m ++ post) pid = Thrown datasetError.
Proof.
  by_length pre IH. intros m post O.
  rewrite qualifyTablePath_eq.
  destruct (matchFrom (pre ++ m ++ post)) as [[dataset r]|] eqn:E.
  - destruct (match_before_occurrence pre m post None dataset r O E)
      as [(-> & -> & ->)|(w & x & -> & Ow & NEw & ->)]; [reflexivity|].
    destruct dataset as [[|c ds]|]; try reflexivity.
    rewrite IH; [reflexivity | | assumption].
    rewrite length_app. destruct w; [congruence | simpl; lia].
  - destruct pre as [|c pre].
    + cbn [app] in E. rewrite (occurrence_matchFrom None m post O) in E.
      discriminate.
    + cbn [app]. rewrite IH; [reflexivity | simpl; lia | assumption].
Qed.

(** Each occurrence with a dataset is replaced by its qualified form, and
    the text on either side is rewritten on its own. *)
Lemma qualifyTablePath_rewrites pid : forall pre m post ds out,
  qualifiedOccurrence ds m ->
  qualifyTablePath (pre ++ m ++ post) pid = Returned out ->
  exists pre' post',
    qualifyTablePath pre pid = Returned pre'
    /\ qualifyTablePath post pid = Returned post'
    /\ out = pre' ++ qualified pid ds ++ post'.
Proof.
  by_length pre IH. intros m post ds out O H.
  rewrite qualifyTablePath_eq in H.
  destruct (matchFrom (pre ++ m ++ post)) as [[dataset r]|] eqn:E.
  - destruct (match_before_occurrence pre m post (Some ds) dataset r O E)
      as [(-> & -> & ->)|(w & x & -> & Ow & NEw & ->)].
    + pose proof (matchFrom_dataset _ _ _ E) as NE.
      destruct ds as [|d ds]; [congruence|].
      apply prepend_returned in H. destruct H as (post' & Hp & ->).
      exists [], post'. auto.
    + destruct dataset as [[|c ds']|]; try discriminate H.
      apply prepend_returned in H. destruct H as (out' & Hr & ->).
      destruct (IH x ltac:(rewrite length_app; destruct w;
                           [congruence | simpl; lia]) m post ds out' O Hr)
        as (x' & post' & Hx & Hpost & ->).
      exists (qualified pid (c :: ds') ++ x'), post'.
      rewrite (qualifyTablePath_occurrence pid (c :: ds') w x Ow), Hx.
      rewrite <- !app_assoc. auto.
  - destruct pre as [|c pre].
    + cbn [app] in E. rewrite (occurrence_matchFrom (Some ds) m post O) in E.
      discriminate.
    + cbn [app] in H. apply prepend_returned in H.
      destruct H as (out' & Hr & ->).
      destruct (IH pre ltac:(simpl; lia) m post ds out' O Hr)
        as (pre' & post' & Hpre & Hpost & ->).
      exists (c :: pre'), post'. repeat split; auto.
      rewrite qualifyTablePath_eq.
      destruct (matchFrom (c :: pre)) as [[dataset r]|] eqn:E'.
      * apply (matchFrom_extend _ _ _ (m ++ post)) in E'.
        cbn [app] in E', E. congruence.
      * rewrite Hpre. reflexivity.
Qed.

(** The rewrite throws for no other reason. *)
Lemma qualifyTablePath_thrown pid : forall sql e,
  qualifyTablePath sql pid = Thrown e ->
  e = datasetError
  /\ exists pre m post, sql = pre ++ m ++ post /\ unqualifiedOccurrence m.
Proof.
  by_length sql IH. intros e H.
  rewrite qualifyTablePath_eq in H.
  destruct (matchFrom sql) as [[dataset r]|] eqn:E.
  - pose proof (matchFrom_shorter _ _ _ E) as [L _].
    pose proof (matchFrom_occurrence _ _ _ E) as (w & -> & Ow).
    destruct dataset as [[|c ds]|].
    + apply matchFrom_dataset in E. congruence.
    + apply prepend_thrown in H. destruct (IH r L e H) as (-> & pre & m & post & -> & O).
      split; [reflexivity|]. exists (w ++ pre), m, post.
      rewrite <- app_assoc. auto.
    + injection H as <-. split; [reflexivity|].
      exists [], w, r. auto.
  - destruct sql as [|c sql]; [discriminate H|].
    apply prepend_thrown in H.
    destruct (IH sql ltac:(simpl; lia) e H) as (-> & pre & m & post & -> & O).
    split; [reflexivity|]. exists (c :: pre), m, post. auto.
Qed.

(* ================================================================== *)
(** ** The rewrite applied twice *)
(* ================================================================== *)

Lemma matcher_bol ic st k :
  matcher ic Bol st k = match prev st with None => k st | Some _ => None end.
Proof. reflexivity. Qed.

Lemma matcher_eol ic st k :
  matcher ic Eol st k = match rest st with [] => k st | _ :: _ => None end.
Proof. reflexivity. Qed.

Lemma projectIdPattern_chars pid :
  test false projectIdPattern pid = true -> allOf isProjectIdChar pid.
Proof.
  unfold test. rewrite testFrom_eq.
  assert (Later : forall s c, testFrom false projectIdPattern (Some c) s = false).
  { induction s as [|c' s IH]; intros c; rewrite testFrom_eq;
      unfold matchHere, projectIdPattern; rewrite matcher_seq, matcher_bol;
      cbn [prev]; auto. }
  unfold matchHere at 1, projectIdPattern at 1.
  rewrite matcher_seq, matcher_bol. cbn [prev].
  rewrite matcher_seq, matcher_plus_class.
  2:{ intros st c s E _. rewrite matcher_eol, E. reflexivity. }
  cbn [rest prev capture].
  destruct (span isProjectIdChar pid) as [w r] eqn:E.
  destruct (span_spec _ _ _ _ E) as (-> & A & _).
  destruct w as [|c w].
  - cbn [app]. destruct r; [discriminate | rewrite Later; discriminate].
  - rewrite matcher_eol. cbn [rest]. destruct r as [|c' r].
    + rewrite app_nil_r. auto.
    + cbn [app]. rewrite Later. discriminate.
Qed.

Lemma validProjectId_chars config :
  validProjectId config = true -> allOf isProjectIdChar (projectId config).
Proof. apply projectIdPattern_chars. Qed.

Lemma occurrence_chars dataset m : occurrence dataset m -> allOf isMatchChar m.
Proof.
  assert (W : forall w, allOf isWordChar w -> allOf isMatchChar w).
  { unfold allOf, isMatchChar. intros w A. induction A; constructor; auto.
    rewrite H. reflexivity. }
  assert (S : forall w, allOf isWhiteSpace w -> allOf isMatchChar w).
  { unfold allOf, isMatchChar. intros w A. induction A; constructor; auto.
    rewrite H. apply orb_true_iff. left. apply orb_true_r. }
  assert (F : forall f, spells (lit "FROM") f -> allOf isMatchChar f).
  { intros f Sf. apply W. eapply spells_word; eauto. repeat constructor. }
  assert (I : forall i, spells (lit "INFORMATION_SCHEMA.TABLES") i ->
                        allOf isMatchChar i).
  { intros i Si. destruct (IST_letters i Si) as (w & t & -> & Aw & _ & St).
    apply allOf_app; [apply W; assumption|].
    constructor; [reflexivity|]. apply W.
    eapply spells_word; eauto. repeat constructor. }
  destruct dataset as [ds|]; cbn [occurrence].
  - intros (f & ws & i & -> & Sf & _ & Aws & _ & Ads & Si).
    repeat apply allOf_app; auto. repeat constructor.
  - intros (f & ws & i & -> & Sf & _ & Aws & Si).
    repeat apply allOf_app; auto.
Qed.

Lemma matchChar_not_backtick w : allOf isMatchChar w -> ~ In 96%N w.
Proof.
  unfold allOf. intros A H. rewrite Forall_forall in A.
  specialize (A _ H). discriminate A.
Qed.

Lemma occurrence_last dataset m :
  occurrence dataset m ->
  exists c, lastUnit None m = Some c /\ canonicalize c = 83%N.
Proof.
  intros O.
  destruct (occurrence_shape _ _ O) as (f & ws & x & i & -> & _ & _ & _ & _ & Si).
  destruct (IST_letters i Si) as (w & t & -> & _ & _ & St).
  unfold spells in St.
  do 6 (destruct t as [|? t]; [discriminate St|]).
  destruct t; [|discriminate St].
  match type of St with _ = ?rhs =>
    let v := eval vm_compute in rhs in change rhs with v in St end.
  cbn [List.map] in St. injection St as _ _ _ _ _ H.
  match type of H with canonicalize ?c = _ => exists c end.
  split; [|exact H].
  rewrite !lastUnit_app. reflexivity.
Qed.

Lemma occurrence_whiteSpace dataset m :
  occurrence dataset m -> exists c, In c m /\ isWhiteSpace c = true.
Proof.
  intros O.
  destruct (occurrence_shape _ _ O) as (f & ws & x & i & -> & _ & NE & A & _).
  destruct ws as [|c ws]; [congruence|]. inversion A; subst.
  exists c. split; [|assumption].
  apply in_or_app. right. left. reflexivity.
Qed.

Lemma occurrence_length dataset m : occurrence dataset m -> (5 < length m)%nat.
Proof.
  intros O.
  destruct (occurrence_shape _ _ O) as (f & ws & x & i & -> & _ & _ & _ & _ & Si).
  apply spells_length in Si. rewrite !length_app, Si. simpl. lia.
Qed.

Lemma before_backtick (w r a z : jsstring) :
  ~ In 96%N w -> w ++ r = a ++ 96%N :: z -> exists l, a = w ++ l.
Proof.
  intros N E. apply app_eq_app in E. destruct E as (x & [[-> E]|[-> E]]).
  - destruct x as [|c x].
    + exists []. rewrite !app_nil_r. reflexivity.
    + injection E as <- _. exfalso. apply N. apply in_or_app. right. left.
      reflexivity.
  - eauto.
Qed.

(** A match in the rewritten text lies in text the rewrite left alone. *)
Lemma rewritten_match pid : forall s out,
  qualifyTablePath s pid = Returned out ->
  forall x dataset m t,
    occurrence dataset m -> x ++ out = m ++ t -> exists t', x ++ s = m ++ t'.
Proof.
  by_length s IH. intros out H x dataset m t O E.
  rewrite qualifyTablePath_eq in H.
  destruct (matchFrom s) as [[ds r]|] eqn:M.
  - destruct ds as [[|c ds]|]; try discriminate H.
    apply prepend_returned in H. destruct H as (out' & _ & ->).
    apply suffix_cases in E.
    destruct E as [(a & -> & E & NE)|(b & _ & ->)].
    + exfalso.
      pose proof (matchChar_not_backtick _ (occurrence_chars _ _ O)) as NB.
      destruct (occurrence_last _ _ O) as (c' & L & C).
      rewrite lastUnit_app in L.
      unfold qualified in E. rewrite <- !app_assoc in E.
      change (lit "FROM `" ++ ?z)
        with (70%N :: 82%N :: 79%N :: 77%N :: 32%N :: 96%N :: z) in E.
      assert (NBa : ~ In 96%N a).
      { intros HIn. apply NB. apply in_or_app. right. exact HIn. }
      destruct a as [|a0 a]; [congruence|].
      do 5 (injection E as <- E;
            (destruct a as [|? a];
             [cbn [lastUnit] in L; injection L as <-; discriminate C|])).
      injection E as <- E. apply NBa. cbn. tauto.
    + exists (b ++ s). rewrite app_assoc. reflexivity.

  - destruct s as [|c s].
    + injection H as <-. eauto.
    + apply prepend_returned in H. destruct H as (out' & H & ->).
      cbn [app] in E.
      destruct (IH s ltac:(simpl; lia) out' H (x ++ [c]) dataset m t O)
        as (t' & E').
      * rewrite <- app_assoc. exact E.
      * exists t'. rewrite <- app_assoc in E'. exact E'.
Qed.

Lemma prepend_nil o : prepend [] o = o.
Proof. destruct o; reflexivity. Qed.

Lemma prepend_app x y o : prepend (x ++ y) o = prepend x (prepend y o).
Proof. destruct o; cbn [prepend]; [rewrite app_assoc|]; reflexivity. Qed.

(** Text in which no match begins is copied. *)
Lemma qualifyTablePath_skip pid t : forall b,
  (forall b1 b2, b = b1 ++ b2 -> b2 <> [] -> matchFrom (b2 ++ t) = None) ->
  qualifyTablePath (b ++ t) pid = prepend b (qualifyTablePath t pid).
Proof.
  induction b as [|c b IH]; intros N.
  - rewrite prepend_nil. reflexivity.
  - rewrite qualifyTablePath_eq.
    rewrite (N [] (c :: b) eq_refl ltac:(discriminate)). cbn [app].
    rewrite IH.
    + change (c :: b) with ([c] ++ b). rewrite prepend_app. reflexivity.
    + intros b1 b2 -> NE. apply (N (c :: b1) b2); auto.
Qed.

Lemma projectIdChar_notWhiteSpace w :
  allOf isProjectIdChar w -> allOf notWhiteSpace w.
Proof.
  unfold allOf, notWhiteSpace. intros A. induction A as [|c w C A IH];
    constructor; auto.
  apply negb_true_iff. apply not_true_is_false. intros W.
  unfold_chars. bprop. lia.
Qed.

(** No match begins inside a qualified path. *)
Lemma qualified_no_match pid ds t b1 b2 :
  allOf isProjectIdChar pid -> allOf isWordChar ds ->
  qualified pid ds = b1 ++ b2 -> b2 <> [] -> matchFrom (b2 ++ t) = None.
Proof.
  intros Apid Ads E NE.
  destruct (matchFrom (b2 ++ t)) as [[dataset r]|] eqn:M; [|reflexivity].
  exfalso. apply matchFrom_occurrence in M. destruct M as (m & Em & O).
  pose proof (matchChar_not_backtick _ (occurrence_chars _ _ O)) as NB.
  pose proof (occurrence_length _ _ O) as Lm.
  destruct (occurrence_whiteSpace _ _ O) as (c & Hc & Wc).
  set (body := pid ++ lit "." ++ ds ++ lit ".INFORMATION_SCHEMA.TABLES").
  assert (Abody : allOf notWhiteSpace body).
  { unfold body. repeat apply allOf_app.
    - apply projectIdChar_notWhiteSpace. assumption.
    - repeat constructor.
    - apply word_notWhiteSpace. assumption.
    - repeat constructor. }
  assert (Q : qualified pid ds = lit "FROM " ++ 96%N :: body ++ [96%N]).
  { unfold qualified, body. rewrite <- !app_assoc. reflexivity. }
  assert (Head : forall z, 96%N :: z = m ++ r -> False).
  { intros z Ez. destruct m as [|m0 m]; [simpl in Lm; lia|].
    injection Ez as <- _. apply NB. left. reflexivity. }
  assert (Inside : forall a z, allOf notWhiteSpace a ->
                     a ++ 96%N :: z = m ++ r -> False).
  { intros a z Aa Ez. symmetry in Ez.
    apply before_backtick in Ez; [|assumption]. destruct Ez as (l & ->).
    apply allOf_app_inv in Aa. destruct Aa as [Am _].
    unfold allOf in Am. rewrite Forall_forall in Am.
    specialize (Am c Hc). unfold notWhiteSpace in Am. rewrite Wc in Am.
    discriminate Am. }
  rewrite Q in E. symmetry in E. apply suffix_cases in E.
  destruct E as [(a & Ea & -> & NEa)|(b & E & _)].
  - rewrite <- app_assoc in Em. cbn [app] in Em. symmetry in Em.
    apply before_backtick in Em; [|assumption]. destruct Em as (l & ->).
    apply (f_equal (@length _)) in Ea. rewrite !length_app in Ea.
    simpl in Ea. lia.
  - destruct b as [|b0 b].
    + cbn [app] in E. subst b2. cbn [app] in Em. eapply Head; eauto.
    + injection E as _ E. symmetry in E. apply suffix_cases in E.
      destruct E as [(a & Ea & -> & NEa)|(b' & E & _)].
      * rewrite <- app_assoc in Em. cbn [app] in Em.
        eapply (Inside a); eauto.
        rewrite Ea in Abody. apply allOf_app_inv in Abody. tauto.
      * destruct b' as [|? b'].
        -- cbn [app] in E. subst b2. cbn [app] in Em. eapply Head; eauto.
        -- injection E as _ E. destruct b'; [|discriminate E].
           cbn [app] in E. exact (NE (eq_sym E)).
Qed.

(** [qualifyTablePath] leaves its own output unchanged, for a project id
    that [validateConfig] accepts. *)
Lemma qualifyTablePath_idempotent pid :
  allOf isProjectIdChar pid ->
  forall sql out,
    qualifyTablePath sql pid = Returned out ->
    qualifyTablePath out pid = Returned out.
Proof.
  intros Apid. by_length sql IH. intros out H.
  pose proof H as H0. rewrite qualifyTablePath_eq in H.
  destruct (matchFrom sql) as [[dataset r]|] eqn:M.
  - destruct dataset as [[|c ds]|]; try discriminate H.
    apply prepend_returned in H. destruct H as (out' & Hr & ->).
    pose proof (matchFrom_shorter _ _ _ M) as [L _].
    pose proof (matchFrom_occurrence _ _ _ M) as (m & _ & O).
    destruct O as (f & ws & i & _ & _ & _ & _ & _ & Ads & _).
    rewrite qualifyTablePath_skip.
    + rewrite (IH r L out' Hr). reflexivity.
    + intros b1 b2 E NE. eapply qualified_no_match; eauto.
  - destruct sql as [|c sql]; [injection H as <-; reflexivity|].
    apply prepend_returned in H. destruct H as (out' & Hr & ->).
    cbn [app]. rewrite qualifyTablePath_eq.
    destruct (matchFrom (c :: out')) as [[dataset r]|] eqn:M'.
    + exfalso. apply matchFrom_occurrence in M'.
      destruct M' as (m & E & O).
      destruct (rewritten_match pid sql out' Hr [c] dataset m r O E)
        as (t' & E').
      cbn [app] in E'. rewrite E', (occurrence_matchFrom _ _ t' O) in M.
      discriminate.
    + rewrite (IH sql ltac:(simpl; lia) out' Hr). reflexivity.
Qed.

(* ================================================================== *)
(** ** The tool [query] *)
(* ================================================================== *)

Section GatewayProperties.
Variable Rows : Type.
Variable JSON_stringify : Rows -> jsstring.
Variable toUpperCase : jsstring -> jsstring.
Variable bigquery_query : QueryOptions -> outcome Rows.
Variable config : ServerConfig.

Let handler := callToolQuery JSON_stringify toUpperCase bigquery_query config.
Let qualify := qualifyInformationSchema toUpperCase config.

Let request := queryRequest config.

Lemma callToolQuery_guarded sql maximumBytes :
  test true forbiddenPattern sql = true ->
  run (handler sql maximumBytes) =
  (Thrown (ErrorObj (lit "Only READ operations are allowed")), []).
Proof.
  intros H. unfold handler, callToolQuery, run. rewrite H. reflexivity.
Qed.

Lemma callToolQuery_passed sql maximumBytes :
  test true forbiddenPattern sql = false ->
  run (handler sql maximumBytes) =
  match qualify sql with
  | Thrown (ErrorObj message) => (Returned (queryError message), [])
  | Thrown NonError => (Thrown NonError, [])
  | Returned sql' =>
      match bigquery_query (request sql' maximumBytes) with
      | Returned rows =>
          (Returned {| text := JSON_stringify rows; isError := false |},
           [request sql' maximumBytes])
      | Thrown (ErrorObj message) =>
          (Returned (queryError message), [request sql' maximumBytes])
      | Thrown NonError => (Thrown NonError, [request sql' maximumBytes])
      end
  end.
Proof.
  intros H. unfold handler, callToolQuery, run. rewrite H.
  unfold tryCatch, bind, liftOutcome, awaitQuery, ret, throw, qualify.
  destruct (qualifyInformationSchema toUpperCase config sql) as [sql'|[m|]];
    try reflexivity.
  unfold request, queryRequest.
  destruct (bigquery_query _) as [rows|[m|]]; reflexivity.
Qed.
End GatewayProperties.

(** C1.  A statement that holds one of the forbidden keywords as a word of
    its own, in any letter case, is rejected by the tool [query]: the
    handler throws "Only READ operations are allowed", and the trace of
    requests sent to the warehouse stays empty. *)
Theorem query_rejects_forbidden_keyword :
  forall (Rows : Type) (JSON_stringify : Rows -> jsstring)
         (toUpperCase : jsstring -> jsstring)
         (bigquery_query : QueryOptions -> outcome Rows)
         (config : ServerConfig) (sql : jsstring)
         (maximumBytes : option jsstring) (kw : jsstring),
    In kw forbiddenKeywords ->
    standaloneWord kw sql ->
    run (callToolQuery JSON_stringify toUpperCase bigquery_query config
           sql maximumBytes)
    = (Thrown (ErrorObj (lit "Only READ operations are allowed")), []).
Proof.
  intros Rows JSON_stringify toUpperCase bigquery_query config sql
         maximumBytes kw HIn HWord.
  apply callToolQuery_guarded.
  eapply forbiddenPattern_test; eauto.
Qed.

Lemma query_rejects_forbidden_keyword_witness :
  In (lit "DROP") forbiddenKeywords
  /\ standaloneWord (lit "DROP") (lit "select 1; drop table t")
  /\ run (callToolQuery exampleStringify upperAscii answeringWarehouse
            exampleConfig (lit "select 1; drop table t") None)
     = (Thrown (ErrorObj (lit "Only READ operations are allowed")), []).
Proof.
  assert (HIn : In (lit "DROP") forbiddenKeywords).
  { unfold forbiddenKeywords. cbn [List.map In]. tauto. }
  assert (HWord : standaloneWord (lit "DROP") (lit "select 1; drop table t")).
  { exists (lit "select 1; "), (lit "drop"), (lit " table t").
    repeat split; reflexivity. }
  split; [exact HIn|]. split; [exact HWord|].
  apply (query_rejects_forbidden_keyword _ exampleStringify upperAscii
           answeringWarehouse exampleConfig (lit "select 1; drop table t")
           None (lit "DROP") HIn HWord).
Defined.

(** C2, as the code has it.  A forbidden keyword is rejected by a throw
    that leaves the handler; a missing dataset qualifier and a failure the
    warehouse reports through an [Error] are returned as a tool result
    that carries the error flag and the message, and are not thrown. *)
Theorem query_faults :
  forall (Rows : Type) (JSON_stringify : Rows -> jsstring)
         (toUpperCase : jsstring -> jsstring)
         (bigquery_query : QueryOptions -> outcome Rows)
         (config : ServerConfig) (sql : jsstring)
         (maximumBytes : option jsstring),
    let result :=
      run (callToolQuery JSON_stringify toUpperCase bigquery_query config
             sql maximumBytes) in
    (forall kw, In kw forbiddenKeywords -> standaloneWord kw sql ->
       result
       = (Thrown (ErrorObj (lit "Only READ operations are allowed")), []))
    /\ (test true forbiddenPattern sql = false ->
        includes (lit "INFORMATION_SCHEMA") (toUpperCase sql) = true ->
        (exists pre m post,
            sql = pre ++ m ++ post /\ unqualifiedOccurrence m) ->
        result = (Returned (queryError datasetMessage), []))
    /\ (forall sql' message,
          test true forbiddenPattern sql = false ->
          qualifyInformationSchema toUpperCase config sql = Returned sql' ->
          bigquery_query (queryRequest config sql' maximumBytes)
          = Thrown (ErrorObj message) ->
          result = (Returned (queryError message),
                    [queryRequest config sql' maximumBytes])).
Proof.
  intros Rows JSON_stringify toUpperCase bigquery_query config sql
         maximumBytes result.
  split; [|split].
  - intros kw HIn HWord. apply callToolQuery_guarded.
    eapply forbiddenPattern_test; eauto.
  - intros Guard Gate (pre & m & post & -> & O).
    unfold result. rewrite callToolQuery_passed by assumption.
    unfold qualifyInformationSchema. rewrite Gate.
    rewrite qualifyTablePath_throws by assumption. reflexivity.
  - intros sql' message Guard Q W.
    unfold result. rewrite callToolQuery_passed by assumption.
    rewrite Q, W. reflexivity.
Qed.

Lemma query_faults_witness :
  run (callToolQuery exampleStringify upperAscii answeringWarehouse
         exampleConfig (lit "select * from INFORMATION_SCHEMA.TABLES") None)
  = (Returned (queryError datasetMessage), [])
  /\ run (callToolQuery exampleStringify upperAscii failingWarehouse
            exampleConfig (lit "select * from ds.t") None)
     = (Returned (queryError (lit "Not found: Table my-project:ds.t")),
        [queryRequest exampleConfig (lit "select * from ds.t") None]).
Proof.
  split.
  - apply (query_faults _ exampleStringify upperAscii answeringWarehouse
             exampleConfig (lit "select * from INFORMATION_SCHEMA.TABLES")
             None).
    + reflexivity.
    + reflexivity.
    + exists (lit "select * "), (lit "from INFORMATION_SCHEMA.TABLES"), [].
      split; [reflexivity|].
      exists (lit "from"), (lit " "), (lit "INFORMATION_SCHEMA.TABLES").
      repeat split; try reflexivity; try discriminate.
      repeat constructor.
  - apply (query_faults _ exampleStringify upperAscii failingWarehouse
             exampleConfig (lit "select * from ds.t") None);
      reflexivity.
Defined.

(** C2 as stated fails: a statement with a forbidden keyword makes the
    handler throw, so no tool result is returned for that fault. *)
Lemma query_forbidden_keyword_is_thrown :
  standaloneWord (lit "DROP") (lit "DROP TABLE t")
  /\ fst (run (callToolQuery exampleStringify upperAscii answeringWarehouse
                 exampleConfig (lit "DROP TABLE t") None))
     = Thrown (ErrorObj (lit "Only READ operations are allowed"))
  /\ (forall result,
        fst (run (callToolQuery exampleStringify upperAscii
                    answeringWarehouse exampleConfig (lit "DROP TABLE t")
                    None))
        <> Returned result).
Proof.
  split; [|split].
  - exists [], (lit "DROP"), (lit " TABLE t"). repeat split; reflexivity.
  - reflexivity.
  - intros result. discriminate.
Qed.

(** C3.  For a statement whose upper-cased text contains
    INFORMATION_SCHEMA, the qualification step of the handler (lines
    340-343) throws the usage error as soon as the statement holds
    [FROM INFORMATION_SCHEMA.TABLES] without a dataset; otherwise it
    succeeds, and each [FROM ds.INFORMATION_SCHEMA.TABLES] stands in the
    result as [FROM `projectId.ds.INFORMATION_SCHEMA.TABLES`], between the
    rewritten text before it and the rewritten text after it.  For a
    statement the read-only guard lets through, the tool call then returns
    the usage error as its result without contacting the warehouse, or
    sends the rewritten statement to the warehouse. *)
Theorem information_schema_qualification :
  forall (Rows : Type) (JSON_stringify : Rows -> jsstring)
         (toUpperCase : jsstring -> jsstring)
         (bigquery_query : QueryOptions -> outcome Rows)
         (config : ServerConfig) (sql : jsstring)
         (maximumBytes : option jsstring),
    includes (lit "INFORMATION_SCHEMA") (toUpperCase sql) = true ->
    let step := qualifyInformationSchema toUpperCase config sql in
    let result :=
      run (callToolQuery JSON_stringify toUpperCase bigquery_query config
             sql maximumBytes) in
    (forall pre m post,
        sql = pre ++ m ++ post -> unqualifiedOccurrence m ->
        step = Thrown datasetError
        /\ (test true forbiddenPattern sql = false ->
            result = (Returned (queryError datasetMessage), [])))
    /\ ((forall pre m post,
            sql = pre ++ m ++ post -> ~ unqualifiedOccurrence m) ->
        exists out,
          step = Returned out
          /\ (test true forbiddenPattern sql = false ->
              snd result = [queryRequest config out maximumBytes]))
    /\ (forall pre ds m post out,
          sql = pre ++ m ++ post -> qualifiedOccurrence ds m ->
          step = Returned out ->
          exists pre' post',
            qualifyTablePath pre (projectId config) = Returned pre'
            /\ qualifyTablePath post (projectId config) = Returned post'
            /\ out = pre' ++ lit "FROM `" ++ projectId config ++ lit "."
                     ++ ds ++ lit ".INFORMATION_SCHEMA.TABLES`" ++ post').
Proof.
  intros Rows JSON_stringify toUpperCase bigquery_query config sql
         maximumBytes Gate step result.
  assert (Step : step = qualifyTablePath sql (projectId config)).
  { unfold step, qualifyInformationSchema. rewrite Gate. reflexivity. }
  split; [|split].
  - intros pre m post -> O.
    assert (T : step = Thrown datasetError).
    { rewrite Step. apply qualifyTablePath_throws. exact O. }
    split; [exact T|]. intros Guard.
    unfold result. rewrite callToolQuery_passed by assumption.
    fold step. rewrite T. reflexivity.
  - intros None.
    destruct (qualifyTablePath sql (projectId config)) as [out|e] eqn:E.
    + exists out. split; [exact Step|]. intros Guard.
      unfold result. rewrite callToolQuery_passed by assumption.
      fold step. rewrite Step.
      destruct (bigquery_query _) as [rows|[msg|]]; reflexivity.
    + exfalso. apply qualifyTablePath_thrown in E.
      destruct E as (_ & pre & m & post & Esql & O).
      exact (None pre m post Esql O).
  - intros pre ds m post out -> O E.
    rewrite Step in E.
    destruct (qualifyTablePath_rewrites _ _ _ _ _ _ O E)
      as (pre' & post' & Hpre & Hpost & ->).
    exists pre', post'. repeat split; auto.
    unfold qualified. rewrite <- !app_assoc. reflexivity.
Qed.

Lemma information_schema_qualification_witness :
  includes (lit "INFORMATION_SCHEMA")
    (upperAscii (lit "select * from ds.information_schema.tables t")) = true
  /\ qualifyInformationSchema upperAscii exampleConfig
       (lit "select * from ds.information_schema.tables t")
     = Returned (lit "select * FROM `my-project.ds.INFORMATION_SCHEMA.TABLES` t")
  /\ exists pre' post',
       qualifyTablePath (lit "select * ") (projectId exampleConfig)
       = Returned pre'
       /\ qualifyTablePath (lit " t") (projectId exampleConfig)
          = Returned post'
       /\ lit "select * FROM `my-project.ds.INFORMATION_SCHEMA.TABLES` t"
          = pre' ++ lit "FROM `" ++ projectId exampleConfig ++ lit "."
            ++ lit "ds" ++ lit ".INFORMATION_SCHEMA.TABLES`" ++ post'.
Proof.
  assert (Gate : includes (lit "INFORMATION_SCHEMA")
            (upperAscii (lit "select * from ds.information_schema.tables t"))
          = true) by reflexivity.
  split; [exact Gate|]. split; [reflexivity|].
  refine (proj2 (proj2 (information_schema_qualification _ exampleStringify
            upperAscii answeringWarehouse exampleConfig
            (lit "select * from ds.information_schema.tables t") None Gate))
            (lit "select * ") (lit "ds")
            (lit "from ds.information_schema.tables") (lit " t") _ _ _ _).
  - reflexivity.
  - exists (lit "from"), (lit " "), (lit "information_schema.tables").
    repeat split; try reflexivity; try discriminate; repeat constructor.
  - reflexivity.
Defined.

(** C4.  With a project id that [validateConfig] accepts, the rewrite is
    idempotent: applied to its own output it returns the output
    unchanged, and no match of the pattern begins at a qualified path. *)
Theorem qualifyTablePath_twice :
  forall (config : ServerConfig) (sql out : jsstring),
    validProjectId config = true ->
    qualifyTablePath sql (projectId config) = Returned out ->
    qualifyTablePath out (projectId config) = Returned out
    /\ (forall ds p t,
          allOf isWordChar ds ->
          matchHere true unqualifiedPattern p
            (qualified (projectId config) ds ++ t) = None).
Proof.
  intros config sql out Valid H.
  pose proof (validProjectId_chars config Valid) as A.
  split.
  - eapply qualifyTablePath_idempotent; eauto.
  - intros ds p t Ads. rewrite matchHere_unqualified.
    rewrite (qualified_no_match (projectId config) ds t []
               (qualified (projectId config) ds) A Ads eq_refl);
      [reflexivity|].
    unfold qualified. discriminate.
Qed.

Lemma qualifyTablePath_twice_witness :
  validProjectId exampleConfig = true
  /\ qualifyTablePath (lit "select * from ds.information_schema.tables t")
       (projectId exampleConfig)
     = Returned (lit "select * FROM `my-project.ds.INFORMATION_SCHEMA.TABLES` t")
  /\ qualifyTablePath
       (lit "select * FROM `my-project.ds.INFORMATION_SCHEMA.TABLES` t")
       (projectId exampleConfig)
     = Returned (lit "select * FROM `my-project.ds.INFORMATION_SCHEMA.TABLES` t").
Proof.
  assert (Valid : validProjectId exampleConfig = true) by reflexivity.
  assert (H : qualifyTablePath
                (lit "select * from ds.information_schema.tables t")
                (projectId exampleConfig)
              = Returned
                  (lit "select * FROM `my-project.ds.INFORMATION_SCHEMA.TABLES` t"))
    by reflexivity.
  split; [exact Valid|]. split; [exact H|].
  exact (proj1 (qualifyTablePath_twice exampleConfig _ _ Valid H)).
Defined.

(* ================================================================== *)
(** ** Objects and computations that may throw *)
(* ================================================================== *)

Lemma eqs_spec a : forall b, eqs a b = true <-> a = b.
Proof.
  induction a as [|x a IH]; intros [|y b]; simpl; split; try discriminate;
    auto.
  - rewrite andb_true_iff, N.eqb_eq, IH. intros [-> ->]. reflexivity.
  - intros [= -> ->]. rewrite N.eqb_refl, (proj2 (IH b) eq_refl). reflexivity.
Qed.

Lemma eqs_refl a : eqs a a = true.
Proof. apply eqs_spec. reflexivity. Qed.

Lemma eqs_false a b : a <> b -> eqs a b = false.
Proof.
  intros H. apply not_true_is_false. rewrite eqs_spec. exact H.
Qed.

Lemma eqs_sym a b : eqs a b = eqs b a.
Proof.
  destruct (eqs a b) eqn:E.
  - apply eqs_spec in E. subst. symmetry. apply eqs_refl.
  - symmetry. apply eqs_false. intros ->. rewrite eqs_refl in E. discriminate.
Qed.

Section ObjectLaws.
Variable A : Type.
Implicit Types (o : obj A) (k : jsstring) (a : A).

Lemma lookup_none k o : lookup k o = None <-> ~ In k (keys o).
Proof.
  induction o as [|[k' a'] o IH]; simpl.
  - tauto.
  - destruct (eqs k k') eqn:E.
    + apply eqs_spec in E. subst. split; [discriminate | tauto].
    + rewrite IH. split.
      * intros N [H|H]; [|tauto]. subst. rewrite eqs_refl in E.
        discriminate.
      * tauto.
Qed.

Lemma lookup_some_in k a o : lookup k o = Some a -> In k (keys o).
Proof.
  intros H. destruct (in_dec (list_eq_dec N.eq_dec) k (keys o)); auto.
  apply lookup_none in n. congruence.
Qed.

Lemma lookup_update_same k a o :
  lookup k o <> None -> lookup k (update k a o) = Some a.
Proof.
  induction o as [|[k' a'] o IH]; simpl; [congruence|].
  destruct (eqs k k') eqn:E; simpl; rewrite E; auto.
Qed.

Lemma lookup_update_other k k' a o :
  k' <> k -> lookup k' (update k a o) = lookup k' o.
Proof.
  intros NE. induction o as [|[k0 a0] o IH]; simpl; [reflexivity|].
  destruct (eqs k k0) eqn:E; simpl.
  - apply eqs_spec in E. subst k0. rewrite (eqs_false _ _ NE). reflexivity.
  - rewrite IH. reflexivity.
Qed.

Lemma keys_update k a o : keys (update k a o) = keys o.
Proof.
  induction o as [|[k0 a0] o IH]; simpl; [reflexivity|].
  destruct (eqs k k0); simpl; [reflexivity | rewrite IH; reflexivity].
Qed.

Lemma lookup_insertIndex_same i k a o :
  lookup k o = None -> lookup k (insertIndex i k a o) = Some a.
Proof.
  induction o as [|[k0 a0] o IH]; simpl; intros H.
  - rewrite eqs_refl. reflexivity.
  - destruct (eqs k k0) eqn:E; [discriminate|].
    destruct (arrayIndex k0) as [j|]; [destruct (i <? j)%N|]; simpl;
      rewrite ?eqs_refl, ?E; auto.
Qed.

Lemma lookup_insertIndex_other i k k' a o :
  k' <> k -> lookup k' (insertIndex i k a o) = lookup k' o.
Proof.
  intros NE. induction o as [|[k0 a0] o IH]; simpl.
  - rewrite (eqs_false _ _ NE). reflexivity.
  - destruct (arrayIndex k0) as [j|]; [destruct (i <? j)%N|]; simpl;
      rewrite ?(eqs_false _ _ NE), ?IH; reflexivity.
Qed.

Lemma keys_insertIndex i k a o :
  Permutation (keys (insertIndex i k a o)) (k :: keys o).
Proof.
  induction o as [|[k0 a0] o IH]; simpl; [reflexivity|].
  destruct (arrayIndex k0) as [j|]; [destruct (i <? j)%N|]; simpl;
    try reflexivity.
  rewrite IH. apply perm_swap.
Qed.

Lemma lookup_app_other k k' a o :
  k' <> k -> lookup k' (o ++ [(k, a)]) = lookup k' o.
Proof.
  intros NE. induction o as [|[k0 a0] o IH]; simpl.
  - rewrite (eqs_false _ _ NE). reflexivity.
  - rewrite IH. reflexivity.
Qed.

Lemma lookup_app_same k a o :
  lookup k o = None -> lookup k (o ++ [(k, a)]) = Some a.
Proof.
  induction o as [|[k0 a0] o IH]; simpl; intros H.
  - rewrite eqs_refl. reflexivity.
  - destruct (eqs k k0); [discriminate | auto].
Qed.

(** The laws of [o[k] = a]. *)
Lemma lookup_assign_same k a o : lookup k (assign k a o) = Some a.
Proof.
  unfold assign, insertNew. destruct (lookup k o) eqn:E.
  - apply lookup_update_same. congruence.
  - destruct (arrayIndex k).
    + apply lookup_insertIndex_same. exact E.
    + apply lookup_app_same. exact E.
Qed.

Lemma lookup_assign_other k k' a o :
  k' <> k -> lookup k' (assign k a o) = lookup k' o.
Proof.
  intros NE. unfold assign, insertNew. destruct (lookup k o).
  - apply lookup_update_other. exact NE.
  - destruct (arrayIndex k).
    + apply lookup_insertIndex_other. exact NE.
    + apply lookup_app_other. exact NE.
Qed.

Lemma keys_assign_old k a a' o :
  lookup k o = Some a' -> keys (assign k a o) = keys o.
Proof. intros H. unfold assign. rewrite H. apply keys_update. Qed.

Lemma keys_assign_new k a o :
  lookup k o = None -> Permutation (keys (assign k a o)) (k :: keys o).
Proof.
  intros H. unfold assign, insertNew. rewrite H.
  destruct (arrayIndex k).
  - apply keys_insertIndex.
  - unfold keys. rewrite map_app. simpl.
    symmetry. apply Permutation_cons_append.
Qed.

Lemma keys_assign_plain k a o :
  lookup k o = None -> arrayIndex k = None ->
  keys (assign k a o) = keys o ++ [k].
Proof.
  intros H I. unfold assign, insertNew. rewrite H, I.
  unfold keys. rewrite map_app. reflexivity.
Qed.

Lemma in_keys_assign k k' a o :
  In k' (keys (assign k a o)) <-> k' = k \/ In k' (keys o).
Proof.
  destruct (lookup k o) eqn:E.
  - rewrite (keys_assign_old _ _ _ _ E). apply lookup_some_in in E.
    split; [tauto|]. intros [->|H]; auto.
  - split; intros H.
    + apply (Permutation_in _ (keys_assign_new k a o E)) in H.
      destruct H; auto.
    + apply (Permutation_in _ (Permutation_sym (keys_assign_new k a o E))).
      destruct H; [left; auto | right; auto].
Qed.

Lemma NoDup_keys_assign k a o :
  NoDup (keys o) -> NoDup (keys (assign k a o)).
Proof.
  intros ND. destruct (lookup k o) eqn:E.
  - rewrite (keys_assign_old _ _ _ _ E). exact ND.
  - eapply Permutation_NoDup.
    + symmetry. apply keys_assign_new. exact E.
    + constructor; [|exact ND]. apply lookup_none. exact E.
Qed.

Lemma length_keys o : length (keys o) = length o.
Proof. unfold keys. apply length_map. Qed.
End ObjectLaws.

(** ** Throwing *)

Lemma obind_returned {A B} (o : outcome A) (f : A -> outcome B) b :
  obind o f = Returned b -> exists a, o = Returned a /\ f a = Returned b.
Proof. destruct o; simpl; [eauto | discriminate]. Qed.

Lemma mapO_returned {A B} (f : A -> outcome B) : forall l bs,
  mapO f l = Returned bs -> Forall2 (fun a b => f a = Returned b) l bs.
Proof.
  induction l as [|a l IH]; simpl; intros bs H.
  - injection H as <-. constructor.
  - apply obind_returned in H. destruct H as (b & Hb & H).
    apply obind_returned in H. destruct H as (bs' & Hbs & H).
    injection H as <-. constructor; auto.
Qed.

Lemma mapO_total {A B} (f : A -> outcome B) (g : A -> B) : forall l,
  Forall (fun a => f a = Returned (g a)) l ->
  mapO f l = Returned (List.map g l).
Proof.
  induction 1 as [|a l Ha Hl IH]; simpl; [reflexivity|].
  rewrite Ha. simpl. rewrite IH. reflexivity.
Qed.

Lemma throwsErrorsOnly_obind {A B} (o : outcome A) (f : A -> outcome B) :
  throwsErrorsOnly o -> (forall a, throwsErrorsOnly (f a)) ->
  throwsErrorsOnly (obind o f).
Proof. destruct o as [a|[m|]]; simpl; auto. Qed.

Lemma throwsErrorsOnly_mapO {A B} (f : A -> outcome B) l :
  (forall a, throwsErrorsOnly (f a)) -> throwsErrorsOnly (mapO f l).
Proof.
  intros Hf. induction l as [|a l IH]; simpl; [exact I|].
  apply throwsErrorsOnly_obind; [apply Hf|]. intros b.
  apply throwsErrorsOnly_obind; [exact IH|]. intros bs. exact I.
Qed.

Lemma throwsErrorsOnly_filterO {A} (p : A -> outcome bool) l :
  (forall a, throwsErrorsOnly (p a)) -> throwsErrorsOnly (filterO p l).
Proof.
  intros Hp. induction l as [|a l IH]; simpl; [exact I|].
  apply throwsErrorsOnly_obind; [apply Hp|]. intros b.
  apply throwsErrorsOnly_obind; [exact IH|]. intros bs. exact I.
Qed.

Lemma throwsErrorsOnly_foldO {A S} (f : S -> A -> outcome S) l :
  (forall s a, throwsErrorsOnly (f s a)) ->
  forall s, throwsErrorsOnly (foldO f l s).
Proof.
  intros Hf. induction l as [|a l IH]; intros s; simpl; [exact I|].
  apply throwsErrorsOnly_obind; [apply Hf | apply IH].
Qed.

Lemma filterO_returned {A} (p : A -> outcome bool) (q : A -> bool) :
  forall l kept,
    filterO p l = Returned kept ->
    (forall a b, p a = Returned b -> b = q a) ->
    kept = filter q l /\ Forall (fun a => p a = Returned (q a)) l.
Proof.
  induction l as [|a l IH]; simpl; intros kept H Hq.
  - injection H as <-. split; constructor.
  - apply obind_returned in H. destruct H as (b & Hb & H).
    apply obind_returned in H. destruct H as (rest & Hr & H).
    injection H as <-. destruct (IH _ Hr Hq) as [-> F].
    pose proof (Hq _ _ Hb) as Eb. subst b. split; [reflexivity|].
    constructor; [exact Hb | exact F].
Qed.

Lemma filterO_total {A} (p : A -> outcome bool) (q : A -> bool) : forall l,
  Forall (fun a => p a = Returned (q a)) l ->
  filterO p l = Returned (filter q l).
Proof.
  induction 1 as [|a l Ha Hl IH]; simpl; [reflexivity|].
  rewrite Ha. simpl. rewrite IH. reflexivity.
Qed.

Lemma getProp_errors row col : throwsErrorsOnly (getProp row col).
Proof. destruct row; exact I. Qed.

Lemma objectKeys_errors row : throwsErrorsOnly (objectKeys row).
Proof. destruct row; exact I. Qed.

Lemma getProp_prop row col :
  isNull row = false -> isUndefined row = false ->
  getProp row col = Returned (prop row col).
Proof. unfold prop. destruct row; simpl; intros; try discriminate; reflexivity. Qed.

Lemma getProp_returned row col v :
  getProp row col = Returned v ->
  v = prop row col /\ isNull row = false /\ isUndefined row = false.
Proof.
  unfold prop. intros H. rewrite H. destruct row; try discriminate H; auto.
Qed.

(* ================================================================== *)
(** ** The tool [analyze_results]: what it returns and what it throws *)
(* ================================================================== *)

Section ConversionThrows.
Variable stringToNumber : jsstring -> number.
Variable fractionToString : Q -> jsstring.

Lemma toStringO_errors v : throwsErrorsOnly (toStringO fractionToString v).
Proof. unfold toStringO. destruct (convertible v); exact I. Qed.

Lemma toNumberO_errors v :
  throwsErrorsOnly (toNumberO stringToNumber fractionToString v).
Proof. unfold toNumberO. destruct (convertible v); exact I. Qed.

Lemma jsAddO_errors a b :
  throwsErrorsOnly (jsAddO stringToNumber fractionToString a b).
Proof.
  unfold jsAddO. destruct (convertible a && convertible b); exact I.
Qed.

Lemma kept_errors v :
  throwsErrorsOnly (kept stringToNumber fractionToString v).
Proof.
  unfold kept, jsIsNaN, toNumberO.
  destruct (isNull v); [exact I|]. destruct (convertible v); exact I.
Qed.
End ConversionThrows.

Ltac errors_only :=
  repeat first
    [ exact I
    | apply getProp_errors
    | apply objectKeys_errors
    | apply toStringO_errors
    | apply toNumberO_errors
    | apply jsAddO_errors
    | apply kept_errors
    | apply throwsErrorsOnly_obind
    | apply throwsErrorsOnly_mapO
    | apply throwsErrorsOnly_filterO
    | apply throwsErrorsOnly_foldO
    | intro
    | match goal with
      | |- throwsErrorsOnly (match ?x with _ => _ end) => destruct x
      end ].

Section SummarizerThrows.
Variable stringToNumber : jsstring -> number.
Variable fractionToString : Q -> jsstring.
Variable toLowerCase : jsstring -> jsstring.
Variable mathPow : number -> number -> number.
Variable mathSqrt : number -> number.

Lemma columnValues_errors data col :
  throwsErrorsOnly (columnValues stringToNumber fractionToString data col).
Proof. unfold columnValues. errors_only. Qed.

Lemma columnStatistics_errors vals :
  throwsErrorsOnly (columnStatistics stringToNumber fractionToString vals).
Proof. unfold columnStatistics. destruct vals; errors_only. Qed.

Lemma computeStatistics_errors data numericColumns :
  throwsErrorsOnly
    (computeStatistics stringToNumber fractionToString data numericColumns).
Proof.
  unfold computeStatistics. apply throwsErrorsOnly_foldO. intros s a.
  apply throwsErrorsOnly_obind; [apply columnValues_errors|]. intros vals.
  apply throwsErrorsOnly_obind; [apply columnStatistics_errors|].
  intros computed. exact I.
Qed.

Lemma computeCategorical_errors data columns columnTypes :
  throwsErrorsOnly
    (computeCategorical fractionToString data columns columnTypes).
Proof. unfold computeCategorical, countValues. errors_only. Qed.

Lemma focusedInsights_errors focus data numericColumns statistics :
  throwsErrorsOnly
    (focusedInsights stringToNumber fractionToString toLowerCase mathPow
       mathSqrt focus data numericColumns statistics).
Proof.
  unfold focusedInsights.
  destruct focus as [v|]; [|exact I].
  destruct v as [| |b|x|[|c f]|elements|properties]; cbn [truthy];
    try exact I;
    try match goal with
        | |- throwsErrorsOnly (if ?b then _ else _) => destruct b; exact I
        end.
  destruct numericColumns as [|n ns]; try exact I.
  repeat match goal with
         | |- throwsErrorsOnly (if ?b then _ else _) => destruct b
         end; try exact I.
  - apply throwsErrorsOnly_obind; [|intros; exact I].
    apply throwsErrorsOnly_mapO. intros col. unfold outlierLine.
    destruct (statisticsOf statistics col); [|exact I].
    apply throwsErrorsOnly_obind; [apply columnValues_errors|].
    errors_only.
  - apply throwsErrorsOnly_obind; [|intros; exact I].
    apply throwsErrorsOnly_mapO. intros col. unfold distributionLine.
    destruct (statisticsOf statistics col); [|exact I].
    apply throwsErrorsOnly_obind; [apply columnValues_errors|].
    errors_only.
Qed.

Lemma renderAnalysis_errors focus rowCount columns columnTypes
      numericColumns statistics categoricalAnalysis focused :
  throwsErrorsOnly
    (renderAnalysis fractionToString focus rowCount columns columnTypes
       numericColumns statistics categoricalAnalysis focused).
Proof.
  unfold renderAnalysis.
  apply throwsErrorsOnly_obind.
  - destruct numericColumns; [exact I|].
    apply throwsErrorsOnly_obind; [|intros; exact I].
    apply throwsErrorsOnly_mapO. intros [col stats].
    unfold statisticsSection, valueToFixed2. errors_only.
  - intros numeric. apply throwsErrorsOnly_obind; [|intros; exact I].
    unfold rangeInsight. errors_only.
Qed.

Lemma analysis_errors parsed focus :
  throwsErrorsOnly
    (data <~ parse parsed ;;
     match data with
     | VArr (first :: others) =>
         let data := first :: others in
         let rowCount := length data in
         columns <~ objectKeys first ;;
         inferred <~ inferColumns first columns ;;
         let (columnTypes, numericColumns) :=
           inferred : obj jsstring * list jsstring in
         statistics <~ computeStatistics stringToNumber fractionToString
                         data numericColumns ;;
         categoricalAnalysis <~ computeCategorical fractionToString data
                                  columns columnTypes ;;
         focused <~ focusedInsights stringToNumber fractionToString
                      toLowerCase mathPow mathSqrt focus data
                      numericColumns statistics ;;
         analysis <~ renderAnalysis fractionToString focus rowCount columns
                       columnTypes numericColumns statistics
                       categoricalAnalysis focused ;;
         Returned {| text := analysis; isError := false |}
     | _ => Returned notAnArrayOfRows
     end).
Proof.
  apply throwsErrorsOnly_obind; [destruct parsed; exact I|].
  intros data. destruct data as [| | | | |[|first others]|]; try exact I.
  apply throwsErrorsOnly_obind; [apply objectKeys_errors|]. intros columns.
  apply throwsErrorsOnly_obind.
  { unfold inferColumns. apply throwsErrorsOnly_foldO. intros [ct nc] col.
    errors_only. }
  intros [columnTypes numericColumns].
  apply throwsErrorsOnly_obind; [apply computeStatistics_errors|].
  intros statistics.
  apply throwsErrorsOnly_obind; [apply computeCategorical_errors|].
  intros categoricalAnalysis.
  apply throwsErrorsOnly_obind; [apply focusedInsights_errors|].
  intros focused.
  apply throwsErrorsOnly_obind; [apply renderAnalysis_errors|].
  intros analysis. exact I.
Qed.

End SummarizerThrows.

Lemma catchError_returns prefix body :
  throwsErrorsOnly body -> exists result, catchError prefix body = Returned result.
Proof.
  destruct body as [r|[m|]]; simpl; intros H.
  - exists r. reflexivity.
  - eexists. reflexivity.
  - destruct H.
Qed.

(** C7, as the code has it.  The tool [analyze_results] never throws: it
    always returns a result.  When the text is not JSON, the result
    carries the error flag and the message of the parser; when the parsed
    value is not an array with at least one element, the result carries
    the error flag and the message that the data is empty or not in the
    expected format. *)
Theorem analyze_results_rejects :
  forall (stringToNumber : jsstring -> number)
         (fractionToString : Q -> jsstring)
         (toLowerCase : jsstring -> jsstring)
         (mathPow : number -> number -> number)
         (mathSqrt : number -> number)
         (parsed : parseResult) (focus : option value),
    let result :=
      callToolAnalyzeResults stringToNumber fractionToString toLowerCase
        mathPow mathSqrt parsed focus in
    (exists returned, result = Returned returned)
    /\ (forall message,
          parsed = SyntaxError message ->
          result = Returned {| text := lit "Error analyzing data: " ++ message;
                               isError := true |})
    /\ (forall data,
          parsed = Parsed data ->
          (forall first others, data <> VArr (first :: others)) ->
          result = Returned notAnArrayOfRows
          /\ isError notAnArrayOfRows = true).
Proof.
  intros stringToNumber fractionToString toLowerCase mathPow mathSqrt
         parsed focus result.
  split; [|split].
  - exact (catchError_returns _ _
             (analysis_errors stringToNumber fractionToString toLowerCase
                mathPow mathSqrt parsed focus)).
  - intros message ->. reflexivity.
  - intros data -> H. split; [|reflexivity].
    unfold result, callToolAnalyzeResults. simpl.
    destruct data as [| | | | |[|first others]|]; try reflexivity.
    exfalso. eapply H. reflexivity.
Qed.

Lemma analyze_results_rejects_witness :
  callToolAnalyzeResults digitsToNumber fractionAsQuotient lowerAscii
    squareOf rootOf
    (SyntaxError (lit "Unexpected token h in JSON at position 0")) None
  = Returned {| text := lit "Error analyzing data: Unexpected token h in JSON at position 0";
                isError := true |}
  /\ callToolAnalyzeResults digitsToNumber fractionAsQuotient lowerAscii
       squareOf rootOf (Parsed (VArr [])) None
     = Returned notAnArrayOfRows
  /\ callToolAnalyzeResults digitsToNumber fractionAsQuotient lowerAscii
       squareOf rootOf (Parsed (VObj [field "a" (int 1)])) None
     = Returned notAnArrayOfRows.
Proof.
  split; [|split].
  - exact (proj1 (proj2 (analyze_results_rejects digitsToNumber
             fractionAsQuotient lowerAscii squareOf rootOf
             (SyntaxError (lit "Unexpected token h in JSON at position 0"))
             None)) _ eq_refl).
  - refine (proj1 (proj2 (proj2 (analyze_results_rejects digitsToNumber
             fractionAsQuotient lowerAscii squareOf rootOf
             (Parsed (VArr [])) None))
             (VArr []) eq_refl _)).
    discriminate.
  - refine (proj1 (proj2 (proj2 (analyze_results_rejects digitsToNumber
             fractionAsQuotient lowerAscii squareOf rootOf
             (Parsed (VObj [field "a" (int 1)])) None))
             (VObj [field "a" (int 1)]) eq_refl _)).
    discriminate.
Defined.

(** C7 as stated fails: the array [1, 2, 3] is not an array of records,
    and the tool returns a report for it that is not flagged as an
    error. *)
Lemma analyze_results_accepts_non_records :
  exists report,
    callToolAnalyzeResults digitsToNumber fractionAsQuotient lowerAscii
      squareOf rootOf (Parsed (VArr [int 1; int 2; int 3])) None
    = Returned {| text := report; isError := false |}.
Proof. eexists. vm_compute. reflexivity. Qed.
(* ================================================================== *)
(** ** The values of a column *)
(* ================================================================== *)

Lemma Forall2_map_prop col : forall data column,
  Forall2 (fun row v => getProp row col = Returned v) data column ->
  column = List.map (fun row => prop row col) data /\ readable data.
Proof.
  unfold readable.
  induction 1 as [|row v data column H F IH]; simpl.
  - split; constructor.
  - destruct IH as [-> R]. apply getProp_returned in H.
    destruct H as (-> & N & U). split; [reflexivity|].
    constructor; auto.
Qed.

Lemma readable_column col data :
  readable data ->
  mapO (fun row => getProp row col) data
  = Returned (List.map (fun row => prop row col) data).
Proof.
  intros R. apply mapO_total. unfold readable in R.
  eapply Forall_impl; [|exact R]. intros row [N U].
  apply getProp_prop; assumption.
Qed.

Section ColumnValues.
Variable stringToNumber : jsstring -> number.
Variable fractionToString : Q -> jsstring.

Local Abbreviation keptValue := (kept stringToNumber fractionToString).
Local Abbreviation keepsValue := (keeps stringToNumber fractionToString).
Local Abbreviation valuesOf := (columnValues stringToNumber fractionToString).

Lemma kept_returned v b : keptValue v = Returned b -> b = keepsValue v.
Proof.
  unfold kept, keeps, jsIsNaN, toNumberO.
  destruct (isNull v); [intros [= <-]; reflexivity|].
  destruct (convertible v); [|discriminate].
  cbn [obind negb andb]. intros [= <-]. reflexivity.
Qed.

Lemma kept_convertible v :
  convertible v = true -> keptValue v = Returned (keepsValue v).
Proof.
  intros C. unfold kept, keeps, jsIsNaN, toNumberO. rewrite C.
  destruct (isNull v); reflexivity.
Qed.

Lemma kept_true v :
  keptValue v = Returned true -> convertible v = true.
Proof.
  unfold kept, jsIsNaN, toNumberO.
  destruct (isNull v); [discriminate|].
  destruct (convertible v); [reflexivity | discriminate].
Qed.

(** The values a column contributes are those of its rows, in the order
    of the rows, without the ones that are null or NaN. *)
Lemma columnValues_returned data col vals :
  valuesOf data col = Returned vals ->
  vals = filter keepsValue (List.map (fun row => prop row col) data)
  /\ readable data
  /\ Forall (fun v => convertible v = true) vals.
Proof.
  unfold columnValues. intros H.
  apply obind_returned in H. destruct H as (column & Hc & H).
  apply mapO_returned in Hc.
  apply Forall2_map_prop in Hc. destruct Hc as [-> R].
  destruct (@filterO_returned _ _ keepsValue _ _ H kept_returned) as [-> F].
  split; [reflexivity|]. split; [exact R|].
  apply Forall_forall. intros v Hv. apply filter_In in Hv.
  destruct Hv as [HIn K]. rewrite Forall_forall in F.
  specialize (F v HIn). rewrite K in F. apply kept_true. exact F.
Qed.

Lemma columnValues_readable data col :
  readable data ->
  Forall (fun row => convertible (prop row col) = true) data ->
  valuesOf data col
  = Returned (filter keepsValue (List.map (fun row => prop row col) data)).
Proof.
  intros R C. unfold columnValues.
  rewrite (readable_column col data R). cbn [obind].
  apply filterO_total. apply Forall_map.
  eapply Forall_impl; [|exact C]. intros row Hc.
  apply kept_convertible. exact Hc.
Qed.
End ColumnValues.

(* ================================================================== *)
(** ** The columns of a chart *)
(* ================================================================== *)

Lemma lookup_assignPrimitive_same {A} k (a : A) o :
  eqs k (lit "__proto__") = false ->
  lookup k (assignPrimitive k a o) = Some a.
Proof.
  intros P. unfold assignPrimitive. rewrite P. apply lookup_assign_same.
Qed.

Lemma lookup_assignPrimitive_other {A} k k' (a : A) o :
  k' <> k -> lookup k' (assignPrimitive k a o) = lookup k' o.
Proof.
  intros NE. unfold assignPrimitive. destruct (eqs k (lit "__proto__"));
    [reflexivity | apply lookup_assign_other; exact NE].
Qed.

Lemma lookup_assignPrimitive_proto {A} k k' (a : A) o :
  eqs k' (lit "__proto__") = true ->
  lookup k' (assignPrimitive k a o) = lookup k' o.
Proof.
  intros P. unfold assignPrimitive.
  destruct (eqs k (lit "__proto__")) eqn:E; [reflexivity|].
  apply lookup_assign_other. intros ->. congruence.
Qed.

(** The type table of the chart builder: a column has the type of its
    value in the first row, and a column named [__proto__] has none. *)
Lemma chartColumnTypes_lookup first col : forall columns acc columnTypes,
  foldO (fun columnTypes col =>
           sampleValue <~ getProp first col ;;
           Returned (assignPrimitive col (chartColumnType sampleValue)
                                     columnTypes))
        columns acc = Returned columnTypes ->
  (In col columns -> eqs col (lit "__proto__") = false ->
   lookup col columnTypes = Some (chartColumnType (prop first col)))
  /\ (eqs col (lit "__proto__") = true ->
      lookup col columnTypes = lookup col acc).
Proof.
  induction columns as [|c cols IH]; intros acc columnTypes H.
  - simpl in H. injection H as <-. split; [intros []|reflexivity].
  - simpl in H. apply obind_returned in H. destruct H as (acc' & Hc & H).
    apply obind_returned in Hc. destruct Hc as (v & Hv & Hc).
    injection Hc as <-. apply getProp_returned in Hv. destruct Hv as (-> & _).
    destruct (IH _ _ H) as [IHin IHproto]. split.
    + intros HIn P.
      destruct (in_dec (list_eq_dec N.eq_dec) col cols) as [HIn'|HOut].
      * apply IHin; assumption.
      * destruct HIn as [->|HIn]; [|tauto].
        assert (Keep : forall cols acc columnTypes,
                  foldO (fun columnTypes col =>
                           sampleValue <~ getProp first col ;;
                           Returned (assignPrimitive col
                                       (chartColumnType sampleValue)
                                       columnTypes))
                        cols acc = Returned columnTypes ->
                  ~ In col cols -> lookup col columnTypes = lookup col acc).
        { clear. induction cols as [|c cols IH]; intros acc columnTypes H N.
          - simpl in H. injection H as <-. reflexivity.
          - simpl in H. apply obind_returned in H.
            destruct H as (acc' & Hc & H).
            apply obind_returned in Hc. destruct Hc as (v & Hv & Hc).
            injection Hc as <-. rewrite (IH _ _ H).
            + apply lookup_assignPrimitive_other. intros ->. apply N.
              left. reflexivity.
            + intros HIn. apply N. right. exact HIn. }
        rewrite (Keep _ _ _ H HOut).
        apply lookup_assignPrimitive_same. exact P.
    + intros P. rewrite (IHproto P).
      apply lookup_assignPrimitive_proto. exact P.
Qed.

(** [columnTypes[col] === tag] for a column of the first row. *)
Lemma chartColumnTypes_hasType first columns columnTypes tag col :
  chartColumnTypes first columns = Returned columnTypes ->
  In col columns ->
  hasType columnTypes tag col
  = negb (eqs col (lit "__proto__"))
    && eqs (chartColumnType (prop first col)) tag.
Proof.
  intros H HIn. unfold chartColumnTypes in H.
  destruct (chartColumnTypes_lookup first col _ _ _ H) as [A B].
  unfold hasType. destruct (eqs col (lit "__proto__")) eqn:P.
  - rewrite (B eq_refl). reflexivity.
  - rewrite (A HIn eq_refl). reflexivity.
Qed.

Lemma chartColumnType_numeric v :
  eqs (chartColumnType v) (lit "numeric") = isNumber v.
Proof. destruct v; reflexivity. Qed.

Lemma chartColumnType_categorical v :
  eqs (chartColumnType v) (lit "string")
  || eqs (chartColumnType v) (lit "boolean")
  = match v with VStr _ | VBool _ => true | _ => false end.
Proof. destruct v; reflexivity. Qed.

Lemma find_filter {A} (p : A -> bool) l : find p l = hd_error (filter p l).
Proof.
  induction l as [|a l IH]; simpl; [reflexivity|].
  destruct (p a); [reflexivity | exact IH].
Qed.

Lemma selectX_spec first columns :
  selectX columns (filter (numericColumn first) columns)
          (filter (categoricalColumn first) columns)
  = specX first columns.
Proof.
  unfold selectX, specX, firstColumn. rewrite !find_filter.
  destruct (filter (categoricalColumn first) columns); [|reflexivity].
  destruct (filter (numericColumn first) columns); [|reflexivity].
  destruct columns; reflexivity.
Qed.

Lemma selectY_spec first columns :
  selectY columns (filter (numericColumn first) columns)
          (specX first columns)
  = specY first columns.
Proof.
  unfold selectY, specY, firstColumn. rewrite find_filter.
  destruct (filter (numericColumn first) columns) as [|n0 others] eqn:E.
  - cbn [hd_error]. destruct columns as [|c0 [|c1 cs]]; reflexivity.
  - cbn [hd_error nth_error].
    assert (X : exists x, specX first columns = Some x).
    { unfold specX, firstColumn. rewrite !find_filter, E.
      destruct (filter (categoricalColumn first) columns); cbn; eauto. }
    destruct X as (x & ->). cbn [sameColumn].
    destruct others as [|n1 others']; cbn [nth_error];
      destruct (eqs x n0); reflexivity.
Qed.

Lemma visTypeOf_returned toLowerCase type visType :
  visTypeOf toLowerCase type = Returned visType ->
  visType = requestedKind toLowerCase type.
Proof.
  unfold visTypeOf, requestedKind.
  destruct type as [v|]; [|intros [= <-]; reflexivity].
  destruct v as [| |b|n|[|c t]|elements|properties]; cbn [truthy];
    try (intros [= <-]; reflexivity); try discriminate.
  - destruct b; [discriminate | intros [= <-]; reflexivity].
  - destruct (ntruthy n); [discriminate | intros [= <-]; reflexivity].
Qed.

(** What the document of a chart is made of: the chart data are built
    from the rows and the two columns of the document. *)
Lemma visualization_document :
  forall (stringToNumber : jsstring -> number)
         (fractionToString : Q -> jsstring)
         (toLowerCase : jsstring -> jsstring)
         (first : value) (others : list value)
         (type caption : option value)
         (columns : list jsstring) (doc : ChartDocument),
    objectKeys first = Returned columns ->
    callToolGenerateVisualization stringToNumber fractionToString toLowerCase
      (Parsed (VArr (first :: others))) type caption
    = Returned (inr doc) ->
    exists columnTypes,
      chartColumnTypes first columns = Returned columnTypes
      /\ xColumn doc
         = selectX columns
             (filter (hasType columnTypes (lit "numeric")) columns)
             (filter (fun col => hasType columnTypes (lit "string") col
                                 || hasType columnTypes (lit "boolean") col)
                     columns)
      /\ yColumn doc
         = selectY columns
             (filter (hasType columnTypes (lit "numeric")) columns)
             (xColumn doc)
      /\ chartType doc = chartTypeOf (requestedKind toLowerCase type)
      /\ buildChartData stringToNumber fractionToString
           (chartType doc) (first :: others)
           (filter (hasType columnTypes (lit "numeric")) columns)
           (xColumn doc) (yColumn doc)
         = Returned (chartData doc)
      /\ toStringO fractionToString (titleOf caption) = Returned (title doc)
      /\ tableHeader doc = columns
      /\ mapO (fun row =>
                 mapO (fun col => cell <~ getProp row col ;;
                                  toStringO fractionToString cell)
                      columns)
              (firstn 10 (first :: others))
         = Returned (tableRows doc).
Proof.
  intros stringToNumber fractionToString toLowerCase first others type
         caption columns doc Keys H.
  unfold callToolGenerateVisualization in H.
  destruct (visTypeOf toLowerCase type) as [visType|e] eqn:V;
    [|discriminate H].
  apply visTypeOf_returned in V. subst visType.
  cbn [parse obind] in H. rewrite Keys in H. cbn [obind] in H.
  destruct (chartColumnTypes first columns) as [columnTypes|e] eqn:T.
  2:{ cbn [obind] in H. destruct e; discriminate H. }
  cbn [obind] in H. exists columnTypes. split; [reflexivity|].
  destruct (buildChartData _ _ _ _ _ _ _) as [chart|e] eqn:B;
    cbn [obind] in H.
  2:{ destruct e; discriminate H. }
  destruct (toStringO fractionToString (titleOf caption)) as [text|e] eqn:C;
    cbn [obind] in H.
  2:{ destruct e; discriminate H. }
  destruct (mapO _ (firstn 10 (first :: others))) as [rows|e] eqn:R;
    cbn [obind] in H.
  2:{ destruct e; discriminate H. }
  injection H as <-.
  cbn [xColumn yColumn chartData chartType title tableHeader tableRows].
  repeat split; assumption.
Qed.

(** Where no column of the first row is named [__proto__], the X column
    of the document the chart builder returns is the first column whose
    value in the first row is a string or a boolean if there is one, else
    the first column whose value there is a number, else the first
    column; the Y column is the first numeric column if there is one --
    the second numeric column when the first is the X column and a second
    exists -- and otherwise the second column, or the first when the row
    has a single column. *)
Lemma chart_column_roles :
  forall (stringToNumber : jsstring -> number)
         (fractionToString : Q -> jsstring)
         (toLowerCase : jsstring -> jsstring)
         (first : value) (others : list value)
         (type title : option value)
         (columns : list jsstring) (doc : ChartDocument),
    objectKeys first = Returned columns ->
    ~ In (lit "__proto__") columns ->
    callToolGenerateVisualization stringToNumber fractionToString toLowerCase
      (Parsed (VArr (first :: others))) type title
    = Returned (inr doc) ->
    xColumn doc = specX first columns
    /\ yColumn doc = specY first columns.
Proof.
  intros stringToNumber fractionToString toLowerCase first others type title
         columns doc Keys Plain H.
  destruct (visualization_document _ _ _ _ _ _ _ _ _ Keys H)
    as (columnTypes & T & X & Y & _).
  assert (P : forall col, In col columns -> eqs col (lit "__proto__") = false).
  { intros col HIn. apply eqs_false. intros ->. exact (Plain HIn). }
  assert (Numeric : filter (hasType columnTypes (lit "numeric")) columns
                    = filter (numericColumn first) columns).
  { apply filter_ext_in. intros col HIn.
    rewrite (chartColumnTypes_hasType _ _ _ _ _ T HIn), (P col HIn).
    apply chartColumnType_numeric. }
  assert (Categorical :
            filter (fun col => hasType columnTypes (lit "string") col
                               || hasType columnTypes (lit "boolean") col)
                   columns
            = filter (categoricalColumn first) columns).
  { apply filter_ext_in. intros col HIn.
    rewrite !(chartColumnTypes_hasType _ _ _ _ _ T HIn), (P col HIn).
    apply chartColumnType_categorical. }
  rewrite Numeric, Categorical, selectX_spec in X.
  rewrite Numeric, X, selectY_spec in Y. split; assumption.
Qed.

Lemma chart_column_roles_example :
  objectKeys (VObj [field "n" (int 1); field "k" (VStr (lit "a"));
                    field "m" (int 2)])
  = Returned [lit "n"; lit "k"; lit "m"]
  /\ (exists doc,
        callToolGenerateVisualization digitsToNumber fractionAsQuotient
          lowerAscii
          (Parsed (VArr [VObj [field "n" (int 1); field "k" (VStr (lit "a"));
                               field "m" (int 2)]]))
          None None
        = Returned (inr doc)
        /\ xColumn doc = Some (lit "k") /\ yColumn doc = Some (lit "n")).
Proof.
  split; [reflexivity|].
  eexists. split; [reflexivity|].
  refine (chart_column_roles digitsToNumber fractionAsQuotient lowerAscii
            (VObj [field "n" (int 1); field "k" (VStr (lit "a"));
                   field "m" (int 2)]) [] None None
            [lit "n"; lit "k"; lit "m"] _ eq_refl _ eq_refl).
  cbn. intros [H|[H|[H|[]]]]; discriminate H.
Defined.

(** C9 fails on the code for a column named [__proto__].  For the row
    [{"__proto__": 5, "name": "x"}] the claim selects the numeric column
    [__proto__] for the Y axis.  The chart builder records the type of a
    column by [columnTypes[col] = 'numeric'] (line 698); for the key
    [__proto__] this assignment calls the setter that [columnTypes]
    inherits and records nothing, so the column is neither numeric nor
    categorical for lines 711-712, and the Y column of the document is
    [name]. *)
Theorem chart_column_named_proto_is_untyped :
  let first := VObj [field "__proto__" (int 5);
                     field "name" (VStr (lit "x"))] in
  let columns := [lit "__proto__"; lit "name"] in
  objectKeys first = Returned columns
  /\ numericColumn first (lit "__proto__") = true
  /\ specX first columns = Some (lit "name")
  /\ specY first columns = Some (lit "__proto__")
  /\ chartColumnTypes first columns = Returned [(lit "name", lit "string")]
  /\ (exists doc,
        callToolGenerateVisualization digitsToNumber fractionAsQuotient
          lowerAscii (Parsed (VArr [first])) None None
        = Returned (inr doc)
        /\ xColumn doc = Some (lit "name")
        /\ yColumn doc = Some (lit "name")).
Proof.
  cbv zeta. repeat split; try reflexivity.
  eexists. split; [vm_compute; reflexivity|]. split; reflexivity.
Qed.
(* ================================================================== *)
(** ** The slices of a pie chart *)
(* ================================================================== *)

(** C8 fails on the code for a category with a row whose Y value is
    missing.  On the rows of the claim, k=a v=1, k=a v=2, k=b v=5, the
    slices are a:3 and b:5.  On the rows k=a v=1, k=a, k=a v=2 the second
    row adds [Number(undefined)], which is NaN, so the cell of [a] is NaN
    after it; line 766 then reads the cell by [aggregatedData[key] || 0],
    which takes NaN for an empty cell, and the third row restarts the sum
    from zero: the slice of [a] is 2, the Y value of the last row alone,
    where the Y values of the category sum to 3. *)
Theorem pie_slice_restarts_after_NaN :
  (exists doc,
     callToolGenerateVisualization digitsToNumber fractionAsQuotient
       lowerAscii
       (Parsed (VArr [VObj [field "k" (VStr (lit "a")); field "v" (int 1)];
                      VObj [field "k" (VStr (lit "a")); field "v" (int 2)];
                      VObj [field "k" (VStr (lit "b")); field "v" (int 5)]]))
       (Some (VStr (lit "pie"))) None
     = Returned (inr doc)
     /\ chartData doc = PieData [lit "a"; lit "b"] [int 3; int 5])
  /\ aggregate digitsToNumber fractionAsQuotient
       [VObj [field "k" (VStr (lit "a")); field "v" (int 1)];
        VObj [field "k" (VStr (lit "a"))]]
       [lit "v"] (Some (lit "k")) (Some (lit "v"))
     = Returned [(lit "a", VNum NaN)]
  /\ (exists doc,
        callToolGenerateVisualization digitsToNumber fractionAsQuotient
          lowerAscii
          (Parsed (VArr [VObj [field "k" (VStr (lit "a")); field "v" (int 1)];
                         VObj [field "k" (VStr (lit "a"))];
                         VObj [field "k" (VStr (lit "a"));
                               field "v" (int 2)]]))
          (Some (VStr (lit "pie"))) None
        = Returned (inr doc)
        /\ xColumn doc = Some (lit "k")
        /\ yColumn doc = Some (lit "v")
        /\ chartData doc = PieData [lit "a"] [int 2])
  /\ int 2 <> int 3.
Proof.
  split; [|split; [|split]].
  - eexists. split; [vm_compute; reflexivity | reflexivity].
  - vm_compute. reflexivity.
  - eexists. split; [vm_compute; reflexivity|]. repeat split.
  - discriminate.
Qed.

(* ================================================================== *)
(** ** Sorting *)
(* ================================================================== *)

Section SortLaws.
Variable A : Type.
Variable exceeds : A -> A -> bool.

Lemma insertSorted_perm x : forall l,
  Permutation (insertSorted exceeds x l) (x :: l).
Proof.
  induction l as [|y l IH]; simpl; [reflexivity|].
  destruct (exceeds x y); [|reflexivity].
  rewrite IH. apply perm_swap.
Qed.

Lemma sortBy_perm : forall l, Permutation (sortBy exceeds l) l.
Proof.
  induction l as [|x l IH]; simpl; [reflexivity|].
  rewrite insertSorted_perm. constructor. exact IH.
Qed.

Lemma sortBy_length l : length (sortBy exceeds l) = length l.
Proof. apply Permutation_length, sortBy_perm. Qed.

(** A sort of a total preorder puts the elements in order. *)
Hypothesis exceeds_trans : forall a b c,
  exceeds a b = false -> exceeds b c = false -> exceeds a c = false.
Hypothesis exceeds_total : forall a b,
  exceeds a b = true -> exceeds b a = false.

Lemma insertSorted_sorted x : forall l,
  StronglySorted (fun a b => exceeds a b = false) l ->
  StronglySorted (fun a b => exceeds a b = false) (insertSorted exceeds x l).
Proof.
  induction l as [|y l IH]; intros S; simpl.
  - constructor; constructor.
  - inversion S as [|? ? S' F]; subst.
    destruct (exceeds x y) eqn:E.
    + constructor; [apply IH; exact S'|].
      eapply Permutation_Forall.
      * symmetry. apply insertSorted_perm.
      * constructor; [apply exceeds_total; exact E | exact F].
    + constructor; [exact S|]. constructor; [exact E|].
      eapply Forall_impl; [|exact F]. intros z Hz.
      eapply exceeds_trans; eassumption.
Qed.

Lemma sortBy_sorted : forall l,
  StronglySorted (fun a b => exceeds a b = false) (sortBy exceeds l).
Proof.
  induction l as [|x l IH]; simpl; [constructor|].
  apply insertSorted_sorted. exact IH.
Qed.
End SortLaws.

(** The sort keeps the order of the elements of a class none of which
    exceeds another: it is stable. *)
Lemma insertSorted_filter {A} (exceeds : A -> A -> bool) (p : A -> bool) x :
  (forall a b, p a = true -> p b = true -> exceeds a b = false) ->
  forall l,
    filter p (insertSorted exceeds x l)
    = if p x then x :: filter p l else filter p l.
Proof.
  intros Class. induction l as [|y l IH]; simpl; [reflexivity|].
  destruct (exceeds x y) eqn:E; simpl.
  - rewrite IH. destruct (p x) eqn:Px, (p y) eqn:Py; try reflexivity.
    rewrite (Class x y Px Py) in E. discriminate.
  - reflexivity.
Qed.

Lemma sortBy_stable {A} (exceeds : A -> A -> bool) (p : A -> bool) :
  (forall a b, p a = true -> p b = true -> exceeds a b = false) ->
  forall l, filter p (sortBy exceeds l) = filter p l.
Proof.
  intros Class. induction l as [|x l IH]; simpl; [reflexivity|].
  rewrite (insertSorted_filter exceeds p x Class), IH. reflexivity.
Qed.

Lemma insertSorted_map {A B} (f : A -> B) exA exB x :
  (forall a b, exB (f a) (f b) = exA a b) ->
  forall l, insertSorted exB (f x) (List.map f l)
            = List.map f (insertSorted exA x l).
Proof.
  intros E. induction l as [|y l IH]; simpl; [reflexivity|].
  rewrite E. destruct (exA x y); simpl; [rewrite IH|]; reflexivity.
Qed.

Lemma sortBy_map {A B} (f : A -> B) exA exB :
  (forall a b, exB (f a) (f b) = exA a b) ->
  forall l, sortBy exB (List.map f l) = List.map f (sortBy exA l).
Proof.
  intros E. induction l as [|x l IH]; simpl; [reflexivity|].
  rewrite IH. apply insertSorted_map. exact E.
Qed.

Lemma StronglySorted_weaken {A} (R R' : A -> A -> Prop) l :
  (forall a b, R a b -> R' a b) ->
  StronglySorted R l -> StronglySorted R' l.
Proof.
  intros W. induction 1 as [|a l S IH F]; constructor; [exact IH|].
  eapply Forall_impl; [|exact F]. intros b. apply W.
Qed.

(* ================================================================== *)
(** ** The statistics of a numeric column *)
(* ================================================================== *)

(** The numeric columns are the columns whose value in the first row is
    a number, in the order of the columns. *)
Lemma inferColumns_numeric first : forall columns columnTypes0 numeric0
                                          columnTypes numericColumns,
  foldO (fun (acc : obj jsstring * list jsstring) col =>
           let (columnTypes, numericColumns) := acc in
           sampleValue <~ getProp first col ;;
           Returned (assignPrimitive col (columnType sampleValue)
                                     columnTypes,
                     if isNumber sampleValue
                     then numericColumns ++ [col] else numericColumns))
        columns (columnTypes0, numeric0)
  = Returned (columnTypes, numericColumns) ->
  numericColumns = numeric0 ++ filter (numericColumn first) columns.
Proof.
  induction columns as [|col columns IH];
    intros columnTypes0 numeric0 columnTypes numericColumns H.
  - simpl in H. injection H as _ <-. rewrite app_nil_r. reflexivity.
  - simpl in H. apply obind_returned in H.
    destruct H as ([types1 numeric1] & Hc & H).
    apply obind_returned in Hc. destruct Hc as (v & Hv & Hc).
    injection Hc as <- <-. apply IH in H. rewrite H.
    apply getProp_returned in Hv. destruct Hv as (-> & _).
    cbn [filter]. unfold numericColumn at 2.
    destruct (isNumber (prop first col)); [|reflexivity].
    rewrite <- app_assoc. reflexivity.
Qed.

(** C5 fails on the code for a numeric column that holds a numeric
    string in a later row.  On the rows of the claim, a=1, a=2, a=3, a=4,
    the statistics of [a] are min 1, max 4, mean 2.5, median 2.5 and sum
    10, and the report prints them.  On the rows a=1, a="2" the column is
    numeric by its first row; the filter of line 520 keeps the string,
    which is neither null nor NaN; the sum of line 522, [a + b],
    concatenates: the sum is the string ["12"], the mean 12 / 2 = 6 and
    the median 6, where the numbers 1 and 2 sum to 3 with mean 1.5; and
    the report fails on [stats.sum.toFixed(2)], so the tool answers with
    an error. *)
Theorem string_in_numeric_column_is_concatenated :
  computeStatistics digitsToNumber fractionAsQuotient
    [VObj [field "a" (int 1)]; VObj [field "a" (int 2)];
     VObj [field "a" (int 3)]; VObj [field "a" (int 4)]]
    [lit "a"]
  = Returned {| ownStatistics :=
                  [(lit "a", {| min := ofZ 1; max := ofZ 4;
                                avg := ndiv (ofZ 5) (ofZ 2);
                                median := VNum (ndiv (ofZ 5) (ofZ 2));
                                sum := int 10 |})];
                prototypeStatistics := None |}
  /\ (exists report,
        callToolAnalyzeResults digitsToNumber fractionAsQuotient lowerAscii
          squareOf rootOf
          (Parsed (VArr [VObj [field "a" (int 1)]; VObj [field "a" (int 2)];
                         VObj [field "a" (int 3)];
                         VObj [field "a" (int 4)]]))
          None
        = Returned {| text := report; isError := false |}
        /\ includes (lit "### a" ++ nl
                     ++ lit "- Minimum: 1.00" ++ nl
                     ++ lit "- Maximum: 4.00" ++ nl
                     ++ lit "- Average: 2.50" ++ nl
                     ++ lit "- Median: 2.50" ++ nl
                     ++ lit "- Sum: 10.00" ++ nl) report = true)
  /\ numericColumn (VObj [field "a" (int 1)]) (lit "a") = true
  /\ columnValues digitsToNumber fractionAsQuotient
       [VObj [field "a" (int 1)]; VObj [field "a" (VStr (lit "2"))]]
       (lit "a")
     = Returned [int 1; VStr (lit "2")]
  /\ computeStatistics digitsToNumber fractionAsQuotient
       [VObj [field "a" (int 1)]; VObj [field "a" (VStr (lit "2"))]]
       [lit "a"]
     = Returned {| ownStatistics :=
                     [(lit "a", {| min := ofZ 1; max := ofZ 2; avg := ofZ 6;
                                   median := int 6;
                                   sum := VStr (lit "12") |})];
                   prototypeStatistics := None |}
  /\ (exists message,
        callToolAnalyzeResults digitsToNumber fractionAsQuotient lowerAscii
          squareOf rootOf
          (Parsed (VArr [VObj [field "a" (int 1)];
                         VObj [field "a" (VStr (lit "2"))]]))
          None
        = Returned {| text := lit "Error analyzing data: " ++ message;
                      isError := true |}).
Proof.
  split; [vm_compute; reflexivity|].
  split.
  { eexists. split; [vm_compute; reflexivity|]. vm_compute. reflexivity. }
  split; [reflexivity|]. split; [vm_compute; reflexivity|].
  split; [vm_compute; reflexivity|].
  eexists. vm_compute. reflexivity.
Qed.

(* ================================================================== *)
(** ** The summary of a string column *)
(* ================================================================== *)

Lemma existsb_eqs k seen : existsb (eqs k) seen = true <-> In k seen.
Proof.
  rewrite existsb_exists. split.
  - intros (x & HIn & E). apply eqs_spec in E. subst. exact HIn.
  - intros HIn. exists k. split; [exact HIn | apply eqs_refl].
Qed.

Lemma distinct_in k : forall l seen,
  In k (distinct seen l) <-> In k l /\ ~ In k seen.
Proof.
  induction l as [|x l IH]; intros seen; simpl; [tauto|].
  destruct (existsb (eqs x) seen) eqn:E.
  - apply existsb_eqs in E. rewrite IH. split.
    + intros [H N]. auto.
    + intros [[->|H] N]; [contradiction | auto].
  - assert (N : ~ In x seen).
    { intros H. apply existsb_eqs in H. congruence. }
    simpl. rewrite IH. simpl. split.
    + intros [->|[H M]]; [auto|]. split; [auto|]. intros S. apply M. auto.
    + intros [[->|H] M]; [auto|].
      destruct (list_eq_dec N.eq_dec x k) as [->|NE]; [auto|].
      right. split; [exact H|]. intros [E'|S]; [congruence | auto].
Qed.

Lemma distinct_NoDup : forall l seen, NoDup (distinct seen l).
Proof.
  induction l as [|x l IH]; intros seen; simpl; [constructor|].
  destruct (existsb (eqs x) seen); [apply IH|].
  constructor; [|apply IH]. rewrite distinct_in. simpl. tauto.
Qed.

(** The texts seen matter as a set. *)
Lemma distinct_ext : forall l s1 s2,
  (forall k, In k s1 <-> In k s2) -> distinct s1 l = distinct s2 l.
Proof.
  induction l as [|a l IH]; intros s1 s2 S; simpl; [reflexivity|].
  assert (E : existsb (eqs a) s1 = existsb (eqs a) s2).
  { destruct (existsb (eqs a) s1) eqn:E1, (existsb (eqs a) s2) eqn:E2;
      try reflexivity.
    - apply existsb_eqs in E1. apply S in E1.
      apply existsb_eqs in E1. congruence.
    - apply existsb_eqs in E2. apply S in E2.
      apply existsb_eqs in E2. congruence. }
  rewrite E. destruct (existsb (eqs a) s2).
  - apply IH. exact S.
  - apply f_equal. apply IH. intros k. simpl. rewrite S. tauto.
Qed.

Lemma frequency_cons k x texts :
  frequency k (x :: texts)
  = if eqs k x then S (frequency k texts) else frequency k texts.
Proof.
  unfold frequency, countIf. simpl. destruct (eqs k x); reflexivity.
Qed.

Lemma frequency_zero k texts : frequency k texts = O <-> ~ In k texts.
Proof.
  induction texts as [|x texts IH]; [simpl; tauto|].
  rewrite frequency_cons. destruct (eqs k x) eqn:E.
  - apply eqs_spec in E. subst. split; [discriminate|].
    intros N. exfalso. apply N. left. reflexivity.
  - rewrite IH. simpl. split.
    + intros N [->|H]; [rewrite eqs_refl in E; discriminate | auto].
    + intros N H. apply N. right. exact H.
Qed.

(** The loop of [countValues] on the texts of a column. *)
Lemma tally_NoDup : forall texts valueMap,
  NoDup (keys valueMap) -> NoDup (keys (fold_left tally texts valueMap)).
Proof.
  induction texts as [|k texts IH]; intros valueMap ND; [exact ND|].
  cbn [fold_left]. apply IH. unfold tally. apply NoDup_keys_assign. exact ND.
Qed.

Lemma tally_lookup k : forall texts valueMap,
  lookup k (fold_left tally texts valueMap)
  = match frequency k texts, lookup k valueMap with
    | O, cell => cell
    | S n, Some c => Some (S n + c)%nat
    | S n, None => Some (S n)
    end.
Proof.
  induction texts as [|x texts IH]; intros valueMap.
  - cbn [fold_left]. unfold frequency, countIf. simpl.
    destruct (lookup k valueMap); reflexivity.
  - cbn [fold_left]. rewrite IH, frequency_cons. unfold tally.
    destruct (eqs k x) eqn:E.
    + apply eqs_spec in E. subst x. rewrite lookup_assign_same.
      destruct (frequency k texts), (lookup k valueMap);
        apply f_equal; lia.
    + rewrite lookup_assign_other.
      * reflexivity.
      * intros ->. rewrite eqs_refl in E. discriminate.
Qed.

Lemma tally_keys : forall texts valueMap,
  Forall (fun k => arrayIndex k = None) texts ->
  keys (fold_left tally texts valueMap)
  = keys valueMap ++ distinct (keys valueMap) texts.
Proof.
  induction texts as [|k texts IH]; intros valueMap Plain.
  - cbn [fold_left distinct]. rewrite app_nil_r. reflexivity.
  - inversion Plain as [|? ? Pk Pt]; subst.
    cbn [fold_left distinct]. rewrite (IH _ Pt). unfold tally.
    destruct (lookup k valueMap) as [c|] eqn:L.
    + rewrite (keys_assign_old _ _ _ _ _ L).
      apply lookup_some_in in L. apply existsb_eqs in L. rewrite L.
      reflexivity.
    + rewrite (keys_assign_plain _ _ _ _ L Pk).
      assert (N : existsb (eqs k) (keys valueMap) = false).
      { apply not_true_is_false. rewrite existsb_eqs.
        apply lookup_none. exact L. }
      rewrite N, <- app_assoc. cbn [app]. apply f_equal. apply f_equal.
      apply distinct_ext. intros x. rewrite in_app_iff. simpl. tauto.
Qed.

(** An object whose keys are distinct is the table of its cells. *)
Lemma obj_table {A} (f : jsstring -> A) : forall o : obj A,
  NoDup (keys o) ->
  (forall k, In k (keys o) -> lookup k o = Some (f k)) ->
  o = List.map (fun k => (k, f k)) (keys o).
Proof.
  induction o as [|[k a] o IH]; intros ND H; [reflexivity|].
  simpl in ND. inversion ND as [|? ? NI ND']; subst.
  simpl. assert (Hk := H k (or_introl eq_refl)). simpl in Hk.
  rewrite eqs_refl in Hk. injection Hk as ->. apply f_equal.
  apply IH; [exact ND'|]. intros k' HIn.
  specialize (H k' (or_intror HIn)). simpl in H.
  rewrite eqs_false in H; [exact H|]. intros ->. contradiction.
Qed.

Lemma tally_table texts :
  fold_left tally texts []
  = List.map (fun k => (k, frequency k texts))
             (keys (fold_left tally texts [])).
Proof.
  apply obj_table.
  - apply tally_NoDup. constructor.
  - intros k HIn.
    destruct (lookup k (fold_left tally texts [])) as [c|] eqn:L.
    + rewrite tally_lookup in L. cbn [lookup] in L.
      destruct (frequency k texts); [discriminate|]. symmetry. exact L.
    + apply lookup_none in L. contradiction.
Qed.

Lemma tally_in k texts :
  In k (keys (fold_left tally texts [])) <-> In k texts.
Proof.
  split.
  - intros HIn.
    destruct (in_dec (list_eq_dec N.eq_dec) k texts) as [H|N]; [exact H|].
    apply frequency_zero in N.
    assert (L : lookup k (fold_left tally texts []) = None).
    { rewrite tally_lookup, N. reflexivity. }
    apply lookup_none in L. contradiction.
  - intros HIn.
    destruct (lookup k (fold_left tally texts [])) as [c|] eqn:L.
    + eapply lookup_some_in. exact L.
    + rewrite tally_lookup in L. cbn [lookup] in L.
      destruct (frequency k texts) eqn:F; [|discriminate].
      apply frequency_zero in F. contradiction.
Qed.

(** The value map holds the frequencies of the texts: in some order, and
    in the order of first occurrence when no text is an array index. *)
Lemma tally_frequencies texts :
  Permutation (fold_left tally texts []) (frequencies texts)
  /\ (Forall (fun k => arrayIndex k = None) texts ->
      fold_left tally texts [] = frequencies texts).
Proof.
  unfold frequencies. split.
  - rewrite tally_table at 1. apply Permutation_map.
    apply NoDup_Permutation.
    + apply tally_NoDup. constructor.
    + apply distinct_NoDup.
    + intros k. rewrite tally_in, distinct_in. simpl. tauto.
  - intros Plain. rewrite tally_table at 1.
    rewrite (tally_keys texts [] Plain). reflexivity.
Qed.

Lemma textsOf_cons fractionToString row data col :
  textsOf fractionToString (row :: data) col
  = if isNull (prop row col) || isUndefined (prop row col)
    then textsOf fractionToString data col
    else toString fractionToString (prop row col)
         :: textsOf fractionToString data col.
Proof.
  unfold textsOf, present. cbn [List.map filter].
  destruct (isNull (prop row col) || isUndefined (prop row col));
    reflexivity.
Qed.

(** What line 549 does, round by round. *)
Lemma countValues_fold fractionToString col : forall data acc valueMap,
  foldO (fun valueMap row =>
           val <~ getProp row col ;;
           if isNull val || isUndefined val then Returned valueMap
           else
             key <~ toStringO fractionToString val ;;
             Returned (assignPrimitive key
                         (increment key (lookup key valueMap))
                         valueMap))
        data acc = Returned valueMap ->
  readable data
  /\ valueMap = fold_left recordText (textsOf fractionToString data col) acc.
Proof.
  unfold readable.
  induction data as [|row data IH]; intros acc valueMap H.
  - simpl in H. injection H as <-. split; [constructor | reflexivity].
  - simpl in H. apply obind_returned in H. destruct H as (acc' & Hr & H).
    destruct (IH _ _ H) as [R ->].
    apply obind_returned in Hr. destruct Hr as (val & Hv & Hr).
    apply getProp_returned in Hv. destruct Hv as (-> & N & U).
    split; [constructor; auto|].
    rewrite textsOf_cons.
    destruct (isNull (prop row col) || isUndefined (prop row col)).
    + injection Hr as <-. reflexivity.
    + unfold toStringO in Hr.
      destruct (convertible (prop row col)); [|discriminate Hr].
      cbn [obind] in Hr. injection Hr as <-. reflexivity.
Qed.

(** Maps whose cells are all counts. *)
Section MapValues.
Variables A B : Type.
Variable f : A -> B.

Lemma lookup_mapValues k (o : obj A) :
  lookup k (mapValues f o) = option_map f (lookup k o).
Proof.
  induction o as [|[k' a] o IH]; simpl; [reflexivity|].
  destruct (eqs k k'); [reflexivity | exact IH].
Qed.

Lemma update_mapValues k a (o : obj A) :
  update k (f a) (mapValues f o) = mapValues f (update k a o).
Proof.
  induction o as [|[k' a'] o IH]; simpl; [reflexivity|].
  destruct (eqs k k'); simpl; [reflexivity | rewrite IH; reflexivity].
Qed.

Lemma insertIndex_mapValues i k a (o : obj A) :
  insertIndex i k (f a) (mapValues f o) = mapValues f (insertIndex i k a o).
Proof.
  induction o as [|[k' a'] o IH]; simpl; [reflexivity|].
  destruct (arrayIndex k') as [j|]; [destruct (i <? j)%N|]; simpl;
    try reflexivity.
  rewrite IH. reflexivity.
Qed.

Lemma assign_mapValues k a (o : obj A) :
  assign k (f a) (mapValues f o) = mapValues f (assign k a o).
Proof.
  unfold assign, insertNew. rewrite lookup_mapValues.
  destruct (lookup k o); cbn [option_map].
  - apply update_mapValues.
  - destruct (arrayIndex k).
    + apply insertIndex_mapValues.
    + unfold mapValues. rewrite map_app. reflexivity.
Qed.

Lemma keys_mapValues (o : obj A) : keys (mapValues f o) = keys o.
Proof.
  unfold keys, mapValues. rewrite map_map. apply map_ext. reflexivity.
Qed.
End MapValues.

Lemma plainName_proto k :
  plainName k = true -> eqs k (lit "__proto__") = false.
Proof.
  unfold plainName, inheritedText.
  destruct (eqs k (lit "__proto__")); [discriminate | reflexivity].
Qed.

Lemma recordText_counted valueMap k :
  plainName k = true ->
  recordText (mapValues Counted valueMap) k
  = mapValues Counted (tally valueMap k).
Proof.
  intros P. unfold recordText, tally, assignPrimitive.
  rewrite (plainName_proto k P), lookup_mapValues.
  unfold plainName in P.
  destruct (lookup k valueMap) as [n|]; cbn [option_map increment].
  - apply assign_mapValues.
  - destruct (inheritedText k); [discriminate P|]. apply assign_mapValues.
Qed.

Lemma countValues_counted : forall texts valueMap,
  Forall (fun k => plainName k = true) texts ->
  fold_left recordText texts (mapValues Counted valueMap)
  = mapValues Counted (fold_left tally texts valueMap).
Proof.
  induction texts as [|k texts IH]; intros valueMap P; [reflexivity|].
  inversion P as [|? ? Pk Pt]; subst. cbn [fold_left].
  rewrite (recordText_counted valueMap k Pk). apply IH. exact Pt.
Qed.

(** The type tags of the columns: a column named [__proto__] gets
    none. *)
Lemma inferColumns_types first col : forall columns acc columnTypes
                                            numericColumns,
  foldO (fun (acc : obj jsstring * list jsstring) col =>
           let (columnTypes, numericColumns) := acc in
           sampleValue <~ getProp first col ;;
           Returned (assignPrimitive col (columnType sampleValue)
                                     columnTypes,
                     if isNumber sampleValue
                     then numericColumns ++ [col] else numericColumns))
        columns acc
  = Returned (columnTypes, numericColumns) ->
  (In col columns -> eqs col (lit "__proto__") = false ->
   lookup col columnTypes = Some (columnType (prop first col)))
  /\ (~ In col columns \/ eqs col (lit "__proto__") = true ->
      lookup col columnTypes = lookup col (fst acc)).
Proof.
  induction columns as [|c columns IH];
    intros [types0 numeric0] columnTypes numericColumns H.
  - simpl in H. injection H as <- _. split; [intros []|reflexivity].
  - simpl in H. apply obind_returned in H.
    destruct H as ([types1 numeric1] & Hc & H).
    apply obind_returned in Hc. destruct Hc as (v & Hv & Hc).
    injection Hc as <- <-.
    apply getProp_returned in Hv. destruct Hv as (-> & _).
    destruct (IH _ _ _ H) as [IHin IHout]. cbn [fst] in IHout.
    split.
    + intros HIn P.
      destruct (in_dec (list_eq_dec N.eq_dec) col columns) as [HIn'|HOut].
      * apply IHin; assumption.
      * destruct HIn as [->|HIn]; [|contradiction].
        rewrite (IHout (or_introl HOut)).
        apply lookup_assignPrimitive_same. exact P.
    + intros [N|P].
      * rewrite IHout by (left; intros HIn; apply N; right; exact HIn).
        cbn [fst]. apply lookup_assignPrimitive_other.
        intros ->. apply N. left. reflexivity.
      * rewrite IHout by (right; exact P).
        cbn [fst]. apply lookup_assignPrimitive_proto. exact P.
Qed.

Lemma columnType_string v :
  eqs (columnType v) (lit "string")
  = match v with VStr _ => true | _ => false end.
Proof. destruct v; reflexivity. Qed.

(** [columnTypes[col] === 'string'] for a column of the first row. *)
Lemma inferColumns_string first columns columnTypes numericColumns col :
  inferColumns first columns = Returned (columnTypes, numericColumns) ->
  In col columns ->
  hasType columnTypes (lit "string") col
  = negb (eqs col (lit "__proto__")) && stringColumn first col.
Proof.
  intros H HIn. unfold inferColumns in H.
  destruct (inferColumns_types first col _ _ _ _ H) as [A B].
  unfold hasType, stringColumn. destruct (eqs col (lit "__proto__")) eqn:P.
  - rewrite (B (or_intror eq_refl)). reflexivity.
  - rewrite (A HIn eq_refl). apply columnType_string.
Qed.

Lemma computeCategorical_lookup fractionToString data col :
  forall cols acc categoricalAnalysis,
    foldO (fun categoricalAnalysis col =>
             valueMap <~ countValues fractionToString data col ;;
             Returned
               (assign col
                  {| distinctCount := length (keys valueMap);
                     topValues := topValuesOf fractionToString valueMap
                                              (length data) |}
                  categoricalAnalysis))
          cols acc = Returned categoricalAnalysis ->
    (In col cols ->
     exists valueMap,
       countValues fractionToString data col = Returned valueMap
       /\ lookup col categoricalAnalysis
          = Some {| distinctCount := length (keys valueMap);
                    topValues := topValuesOf fractionToString valueMap
                                             (length data) |})
    /\ (~ In col cols -> lookup col categoricalAnalysis = lookup col acc).
Proof.
  induction cols as [|c cols IH]; intros acc categoricalAnalysis H.
  - simpl in H. injection H as <-. split; [intros []|reflexivity].
  - simpl in H. apply obind_returned in H. destruct H as (acc' & Hc & H).
    apply obind_returned in Hc. destruct Hc as (valueMap & Hv & Hc).
    injection Hc as <-. destruct (IH _ _ H) as [IHin IHout].
    destruct (in_dec (list_eq_dec N.eq_dec) col cols) as [HIn|HOut].
    + split; [intros _; exact (IHin HIn)|].
      intros N. exfalso. apply N. right. exact HIn.
    + rewrite (IHout HOut). split.
      * intros [->|HIn]; [|contradiction].
        exists valueMap. split; [exact Hv | apply lookup_assign_same].
      * intros N. apply lookup_assign_other.
        intros ->. apply N. left. reflexivity.
Qed.

(** The ranking of the entries of a value map. *)
Lemma ranking_sorted (valueMap : obj nat) :
  StronglySorted (fun a b => (snd b <= snd a)%nat)
    (sortBy (fun a b : jsstring * nat => (snd a <? snd b)%nat) valueMap).
Proof.
  eapply StronglySorted_weaken; [|apply sortBy_sorted].
  - intros a b H. apply Nat.ltb_ge in H. exact H.
  - intros a b c H1 H2. apply Nat.ltb_ge in H1, H2. apply Nat.ltb_ge. lia.
  - intros a b H. apply Nat.ltb_lt in H. apply Nat.ltb_ge. lia.
Qed.

Lemma ranking_stable (valueMap : obj nat) c :
  filter (fun e => (snd e =? c)%nat)
    (sortBy (fun a b : jsstring * nat => (snd a <? snd b)%nat) valueMap)
  = filter (fun e => (snd e =? c)%nat) valueMap.
Proof.
  apply sortBy_stable. intros a b Ha Hb.
  apply Nat.eqb_eq in Ha, Hb. apply Nat.ltb_ge. lia.
Qed.

(** The top values of a map whose cells are all counts. *)
Lemma topValuesOf_counted fractionToString (valueMap : obj nat) rowCount :
  topValuesOf fractionToString (mapValues Counted valueMap) rowCount
  = List.map (topValueOf fractionToString rowCount)
      (firstn 5
         (sortBy (fun a b : jsstring * nat => (snd a <? snd b)%nat)
                 valueMap)).
Proof.
  unfold topValuesOf, mapValues.
  rewrite (sortBy_map (fun entry : jsstring * nat =>
                         (fst entry, Counted (snd entry)))
                      (fun a b : jsstring * nat => (snd a <? snd b)%nat)
                      rankedAfter)
    by (intros [k m] [k' n]; reflexivity).
  rewrite firstn_map, map_map. apply map_ext. intros [k n]. reflexivity.
Qed.

(** C6 (amended).  For rows that are records, the summarizer builds a
    categorical summary for each of the first five columns, in column
    order, whose value in the first row is a string -- a boolean column
    gets none.  The texts of the values of the rows that are neither
    null nor missing are counted; the summary holds the number of
    distinct texts and the first five entries of the ranking of the
    texts by descending count, in which texts of one count keep the
    order of their first occurrence as long as no text is an array
    index; the percentage of an entry is the text that [toFixed(2)]
    makes of count / rows * 100 as the arithmetic of doubles computes it,
    so that 23 rows of 160 print as 14.37%.  The rows c=x, c=x, c=y give x
    (count 2, 66.67%) and then y (count 1, 33.33%).  Columns and texts
    with the name of a member of [Object.prototype] (constructor,
    toString, __proto__, ...) are left out: for them the objects of
    lines 495 and 545 do not behave as maps. *)
Theorem categorical_summary :
  (forall (fractionToString : Q -> jsstring)
          (first : value) (others : list value)
          (columns : list jsstring) (columnTypes : obj jsstring)
          (numericColumns : list jsstring)
          (categoricalAnalysis : obj Categorical) (col : jsstring),
      inferColumns first columns = Returned (columnTypes, numericColumns) ->
      computeCategorical fractionToString (first :: others) columns
                         columnTypes
      = Returned categoricalAnalysis ->
      Forall (fun row => isRecord row = true) (first :: others) ->
      Forall (fun c => plainName c = true) columns ->
      (In col (firstn 5 (filter (stringColumn first) columns)) ->
       Forall (fun k => plainName k = true)
              (textsOf fractionToString (first :: others) col) ->
       exists summary ranked,
         lookup col categoricalAnalysis = Some summary
         /\ distinctCount summary
            = length (distinct []
                        (textsOf fractionToString (first :: others) col))
         /\ isRankingOf ranked
              (frequencies (textsOf fractionToString (first :: others) col))
         /\ (Forall (fun k => arrayIndex k = None)
                    (textsOf fractionToString (first :: others) col) ->
             keepsTies ranked
               (frequencies
                  (textsOf fractionToString (first :: others) col)))
         /\ topValues summary
            = List.map (topValueOf fractionToString
                                   (length (first :: others)))
                       (firstn 5 ranked))
      /\ (~ In col (firstn 5 (filter (stringColumn first) columns)) ->
          lookup col categoricalAnalysis = None))
  /\ computeCategorical fractionAsQuotient
       [VObj [field "c" (VStr (lit "x"))]; VObj [field "c" (VStr (lit "x"))];
        VObj [field "c" (VStr (lit "y"))]]
       [lit "c"] [(lit "c", lit "string")]
     = Returned
         [(lit "c",
           {| distinctCount := 2;
              topValues :=
                [{| value_ := lit "x"; count := Counted 2;
                    percentage := lit "66.67%" |};
                 {| value_ := lit "y"; count := Counted 1;
                    percentage := lit "33.33%" |}] |})]
  /\ (exists report,
        callToolAnalyzeResults digitsToNumber fractionAsQuotient lowerAscii
          squareOf rootOf
          (Parsed (VArr [VObj [field "c" (VStr (lit "x"))];
                         VObj [field "c" (VStr (lit "x"))];
                         VObj [field "c" (VStr (lit "y"))]]))
          None
        = Returned {| text := report; isError := false |}
        /\ includes (lit "### c" ++ nl
                     ++ lit "- Distinct values: 2" ++ nl
                     ++ lit "- Top values:" ++ nl
                     ++ lit "  - " ++ quote ++ lit "x" ++ quote
                     ++ lit ": 2 (66.67%)" ++ nl
                     ++ lit "  - " ++ quote ++ lit "y" ++ quote
                     ++ lit ": 1 (33.33%)") report = true)
  /\ percentageOf fractionAsQuotient (Counted 23) 160 = lit "14.37%".
Proof.
  split; [|split; [|split]].
  - intros fractionToString first others columns columnTypes numericColumns
           categoricalAnalysis col Infer H Records Plain.
    assert (Strings : filter (hasType columnTypes (lit "string")) columns
                      = filter (stringColumn first) columns).
    { apply filter_ext_in. intros c HIn.
      rewrite (inferColumns_string _ _ _ _ _ Infer HIn).
      rewrite Forall_forall in Plain.
      rewrite (plainName_proto c (Plain c HIn)). reflexivity. }
    unfold computeCategorical in H. rewrite Strings in H.
    destruct (computeCategorical_lookup _ _ col _ _ _ H) as [A B].
    split; [|exact B].
    intros HIn Texts. destruct (A HIn) as (valueMap & Hv & L).
    unfold countValues in Hv. apply countValues_fold in Hv.
    destruct Hv as [_ ->].
    set (texts := textsOf fractionToString (first :: others) col) in *.
    change (@nil (jsstring * Tally)) with (mapValues Counted []) in L.
    rewrite (countValues_counted texts [] Texts) in L.
    rewrite keys_mapValues, topValuesOf_counted in L.
    destruct (tally_frequencies texts) as [Perm Ties].
    eexists.
    exists (sortBy (fun a b : jsstring * nat => (snd a <? snd b)%nat)
                   (fold_left tally texts [])).
    split; [exact L|]. cbn [distinctCount topValues].
    split; [|split; [|split]].
    + rewrite length_keys, (Permutation_length Perm).
      unfold frequencies. apply length_map.
    + split; [|apply ranking_sorted].
      etransitivity; [apply sortBy_perm | exact Perm].
    + intros P c. rewrite ranking_stable, (Ties P). reflexivity.
    + reflexivity.
  - vm_compute. reflexivity.
  - eexists. split; [vm_compute; reflexivity|]. vm_compute. reflexivity.
  - vm_compute. reflexivity.
Qed.

Lemma categorical_summary_witness :
  exists summary ranked,
    lookup (lit "c")
      [(lit "c",
        {| distinctCount := 2;
           topValues :=
             [{| value_ := lit "x"; count := Counted 2;
                 percentage := lit "66.67%" |};
              {| value_ := lit "y"; count := Counted 1;
                 percentage := lit "33.33%" |}] |})]
    = Some summary
    /\ distinctCount summary = 2%nat
    /\ isRankingOf ranked [(lit "x", 2%nat); (lit "y", 1%nat)]
    /\ topValues summary
       = List.map (topValueOf fractionAsQuotient 3) (firstn 5 ranked).
Proof.
  destruct (proj1 (proj1 categorical_summary fractionAsQuotient
                     (VObj [field "c" (VStr (lit "x"))])
                     [VObj [field "c" (VStr (lit "x"))];
                      VObj [field "c" (VStr (lit "y"))]]
                     [lit "c"] [(lit "c", lit "string")] [] _ (lit "c")
                     eq_refl (proj1 (proj2 categorical_summary))
                     ltac:(repeat constructor) ltac:(repeat constructor)))
    as (summary & ranked & L & D & R & _ & T).
  - simpl. left. reflexivity.
  - repeat constructor.
  - exists summary, ranked. repeat split; try assumption; apply R.
Defined.

(** C6 as stated fails on the code: a boolean column gets no categorical
    summary, and the report has no categorical section. *)
Lemma boolean_column_has_no_summary :
  categoricalColumn (VObj [field "b" (VBool true)]) (lit "b") = true
  /\ inferColumns (VObj [field "b" (VBool true)]) [lit "b"]
     = Returned ([(lit "b", lit "boolean")], [])
  /\ computeCategorical fractionAsQuotient
       [VObj [field "b" (VBool true)]; VObj [field "b" (VBool false)]]
       [lit "b"] [(lit "b", lit "boolean")]
     = Returned []
  /\ (exists report,
        callToolAnalyzeResults digitsToNumber fractionAsQuotient lowerAscii
          squareOf rootOf
          (Parsed (VArr [VObj [field "b" (VBool true)];
                         VObj [field "b" (VBool false)]]))
          None
        = Returned {| text := report; isError := false |}
        /\ includes (lit "Categorical Column Analysis") report = false
        /\ includes (lit "Top values") report = false).
Proof.
  split; [reflexivity|]. split; [reflexivity|]. split; [reflexivity|].
  eexists. split; [vm_compute; reflexivity|].
  split; vm_compute; reflexivity.
Qed.

(* ================================================================== *)
(** ** The read-only guard, the other way round *)
(* ================================================================== *)

Lemma testFrom_matches ic r : forall s p,
  testFrom ic r p s = true ->
  exists pre t m,
    s = pre ++ t /\ matchHere ic r (lastUnit p pre) t = Some m.
Proof.
  induction s as [|c s IH]; intros p H; rewrite testFrom_eq in H.
  - destruct (matchHere ic r p []) as [m|] eqn:E; [|discriminate].
    exists [], [], m. split; [reflexivity | exact E].
  - destruct (matchHere ic r p (c :: s)) as [m|] eqn:E.
    + exists [], (c :: s), m. split; [reflexivity | exact E].
    + destruct (IH _ H) as (pre & t & m & -> & Hm).
      exists (c :: pre), t, m. split; [reflexivity | exact Hm].
Qed.

Lemma matcher_alts_choice ic st k : forall rs r0 m,
  matcher ic (alts r0 rs) st k = Some m ->
  exists r, In r (r0 :: rs) /\ matcher ic r st k = Some m.
Proof.
  induction rs as [|r1 rs IH]; intros r0 m H.
  - exists r0. split; [left; reflexivity | exact H].
  - cbn [alts] in H. change (matcher ic (Alt r0 (alts r1 rs)) st k)
      with (match matcher ic r0 st k with
            | Some m => Some m
            | None => matcher ic (alts r1 rs) st k
            end) in H.
    destruct (matcher ic r0 st k) as [m0|] eqn:E.
    + exists r0. split; [left; reflexivity|]. congruence.
    + destruct (IH _ _ H) as (r & HIn & Hr).
      exists r. split; [right; exact HIn | exact Hr].
Qed.

(** A match of the pattern covers a keyword that stands as a word of its
    own. *)
Lemma forbiddenPattern_covers p t m :
  matchHere true forbiddenPattern p t = Some m ->
  exists kw w post,
    In kw forbiddenKeywords /\ t = w ++ post /\ spells kw w
    /\ isWordAt p = false /\ isWordAt (hd_error post) = false.
Proof.
  unfold matchHere, forbiddenPattern.
  rewrite matcher_seq, matcher_boundary. cbn [prev rest].
  destruct (xorb (isWordAt p) (isWordAt (hd_error t))) eqn:B1;
    [|discriminate].
  rewrite matcher_seq, matcher_group. intros H.
  apply matcher_alts_choice in H. destruct H as (r & HIn & H).
  change (In r (List.map str forbiddenKeywords)) in HIn.
  apply in_map_iff in HIn. destruct HIn as (kw & <- & HIn).
  rewrite matcher_str, eat_strip in H. cbn [rest prev capture] in H.
  destruct (strip kw t) as [post|] eqn:S; [|discriminate].
  apply strip_spec in S. destruct S as (w & -> & Sw).
  rewrite matcher_boundary in H. cbn [prev rest] in H.
  pose proof forbiddenKeywords_words as F.
  rewrite Forall_forall in F. destruct (F kw HIn) as [NE A].
  assert (Aw : allOf isWordChar w) by (eapply spells_word; eauto).
  assert (NEw : w <> []).
  { intros ->. apply spells_length in Sw.
    destruct kw; [congruence | discriminate]. }
  destruct (word_run_ends w p post NEw Aw) as [Hhd Hlast].
  rewrite <- (spells_length kw w Sw), firstn_app, Nat.sub_diag, firstn_all
    in H.
  cbn [firstn] in H. rewrite app_nil_r, Hlast in H.
  rewrite Hhd in B1.
  exists kw, w, post. split; [exact HIn|]. split; [reflexivity|].
  split; [exact Sw|]. split.
  - destruct (isWordAt p); [discriminate B1 | reflexivity].
  - destruct (isWordAt (hd_error post)); [discriminate H | reflexivity].
Qed.

Lemma forbiddenPattern_test_only sql :
  test true forbiddenPattern sql = true ->
  exists kw, In kw forbiddenKeywords /\ standaloneWord kw sql.
Proof.
  intros H. unfold test in H. apply testFrom_matches in H.
  destruct H as (pre & t & m & -> & Hm).
  apply forbiddenPattern_covers in Hm.
  destruct Hm as (kw & w & post & HIn & -> & S & Hp & Hpost).
  exists kw. split; [exact HIn|].
  exists pre, w, post. auto.
Qed.

(** Text without a match, by inspection of its suffixes. *)
Lemma matchesSomewhere_free : forall s,
  matchesSomewhere s = false -> occurrenceFree s.
Proof.
  unfold occurrenceFree.
  induction s as [|c s IH]; intros H pre m post dataset E O;
    cbn [matchesSomewhere] in H.
  - destruct pre; [|discriminate]. destruct m; [|discriminate].
    exact (occurrence_nonempty _ _ O eq_refl).
  - destruct (matchFrom (c :: s)) eqn:M; [discriminate|].
    destruct pre as [|c' pre].
    + cbn [app] in E. rewrite E in M.
      rewrite (occurrence_matchFrom dataset m post O) in M. discriminate.
    + injection E as _ E. exact (IH H pre m post dataset E O).
Qed.

Lemma qualifyTablePath_free pid sql :
  occurrenceFree sql -> qualifyTablePath sql pid = Returned sql.
Proof.
  intros Free.
  rewrite <- (app_nil_r sql) at 1.
  rewrite qualifyTablePath_skip.
  - rewrite qualifyTablePath_eq. cbn. rewrite app_nil_r. reflexivity.
  - intros b1 b2 -> NE. rewrite app_nil_r.
    destruct (matchFrom b2) as [[dataset r]|] eqn:M; [|reflexivity].
    apply matchFrom_occurrence in M. destruct M as (m & -> & O).
    exfalso. exact (Free b1 m r dataset eq_refl O).
Qed.

Section GuardedGateway.
Variable Rows : Type.
Variable JSON_stringify : Rows -> jsstring.
Variable toUpperCase : jsstring -> jsstring.
Variable bigquery_query : QueryOptions -> outcome Rows.
Variable config : ServerConfig.

Lemma callToolQuery_error sql maximumBytes message calls :
  run (callToolQuery JSON_stringify toUpperCase bigquery_query config
         sql maximumBytes)
  = (Thrown (ErrorObj message), calls) ->
  test true forbiddenPattern sql = true
  /\ message = lit "Only READ operations are allowed" /\ calls = [].
Proof.
  intros H. destruct (test true forbiddenPattern sql) eqn:G.
  - rewrite (callToolQuery_guarded _ _ _ _ _ _ _ G) in H.
    injection H as <- <-. auto.
  - rewrite (callToolQuery_passed _ _ _ _ _ _ _ G) in H.
    destruct (qualifyInformationSchema toUpperCase config sql)
      as [sql'|[m|]]; try discriminate H.
    destruct (bigquery_query _) as [rows|[m|]]; discriminate H.
Qed.

Lemma callToolQuery_unchanged sql maximumBytes :
  test true forbiddenPattern sql = false ->
  qualifyInformationSchema toUpperCase config sql = Returned sql ->
  snd (run (callToolQuery JSON_stringify toUpperCase bigquery_query config
              sql maximumBytes))
  = [{| query := sql; queryLocation := location config;
        maximumBytesBilled := bytesBilled maximumBytes |}]
  /\ (forall rows,
        bigquery_query {| query := sql; queryLocation := location config;
                          maximumBytesBilled := bytesBilled maximumBytes |}
        = Returned rows ->
        fst (run (callToolQuery JSON_stringify toUpperCase bigquery_query
                    config sql maximumBytes))
        = Returned {| text := JSON_stringify rows; isError := false |}).
Proof.
  intros G Q. rewrite (callToolQuery_passed _ _ _ _ _ _ _ G), Q.
  unfold queryRequest.
  destruct (bigquery_query _) as [rows|[m|]] eqn:E; split; try reflexivity;
    intros rows' [= <-]; try discriminate. reflexivity.
Qed.
End GuardedGateway.

Lemma guard_passes sql :
  (forall kw, In kw forbiddenKeywords -> ~ standaloneWord kw sql) ->
  test true forbiddenPattern sql = false.
Proof.
  intros H. destruct (test true forbiddenPattern sql) eqn:G; [|reflexivity].
  apply forbiddenPattern_test_only in G. destruct G as (kw & HIn & W).
  exfalso. exact (H kw HIn W).
Qed.

Lemma guard_passed sql :
  test true forbiddenPattern sql = false ->
  forall kw, In kw forbiddenKeywords -> ~ standaloneWord kw sql.
Proof.
  intros G kw HIn W. rewrite (forbiddenPattern_test kw sql HIn W) in G.
  discriminate.
Qed.

(** X1.  The tool [query] throws an [Error] only to reject a statement
    that holds one of the fourteen keywords as a word of its own, in some
    letter case: the message is then that of the read-only guard, and the
    warehouse has not been contacted.  A keyword inside a longer
    identifier, such as [created_at] or [update_time], rejects nothing. *)
Theorem query_rejects_only_keywords :
  forall (Rows : Type) (JSON_stringify : Rows -> jsstring)
         (toUpperCase : jsstring -> jsstring)
         (bigquery_query : QueryOptions -> outcome Rows)
         (config : ServerConfig) (sql : jsstring)
         (maximumBytes : option jsstring) (message : jsstring)
         (calls : list QueryOptions),
    run (callToolQuery JSON_stringify toUpperCase bigquery_query config
           sql maximumBytes)
    = (Thrown (ErrorObj message), calls) ->
    message = lit "Only READ operations are allowed"
    /\ calls = []
    /\ exists kw, In kw forbiddenKeywords /\ standaloneWord kw sql.
Proof.
  intros Rows JSON_stringify toUpperCase bigquery_query config sql
         maximumBytes message calls H.
  apply callToolQuery_error in H. destruct H as (G & -> & ->).
  split; [reflexivity|]. split; [reflexivity|].
  apply forbiddenPattern_test_only. exact G.
Qed.

Lemma query_rejects_only_keywords_witness :
  exists kw,
    In kw forbiddenKeywords
    /\ standaloneWord kw (lit "select 1; drop table t").
Proof.
  exact (proj2 (proj2
    (query_rejects_only_keywords (list jsstring) exampleStringify upperAscii
       answeringWarehouse exampleConfig (lit "select 1; drop table t") None
       (lit "Only READ operations are allowed") [] eq_refl))).
Defined.

(** X2.  A statement without a forbidden keyword whose upper-cased text
    does not contain INFORMATION_SCHEMA is sent to the warehouse as it
    is, once, with the configured location and the byte cap of the call
    (1000000000 when the call gives none); the rows the warehouse answers
    are returned serialized, without the error flag. *)
Theorem query_forwards_statement :
  forall (Rows : Type) (JSON_stringify : Rows -> jsstring)
         (toUpperCase : jsstring -> jsstring)
         (bigquery_query : QueryOptions -> outcome Rows)
         (config : ServerConfig) (sql : jsstring)
         (maximumBytes : option jsstring),
    (forall kw, In kw forbiddenKeywords -> ~ standaloneWord kw sql) ->
    includes (lit "INFORMATION_SCHEMA") (toUpperCase sql) = false ->
    snd (run (callToolQuery JSON_stringify toUpperCase bigquery_query config
                sql maximumBytes))
    = [{| query := sql; queryLocation := location config;
          maximumBytesBilled := bytesBilled maximumBytes |}]
    /\ (forall rows,
          bigquery_query {| query := sql; queryLocation := location config;
                            maximumBytesBilled := bytesBilled maximumBytes |}
          = Returned rows ->
          fst (run (callToolQuery JSON_stringify toUpperCase bigquery_query
                      config sql maximumBytes))
          = Returned {| text := JSON_stringify rows; isError := false |})
    /\ bytesBilled None = lit "1000000000".
Proof.
  intros Rows JSON_stringify toUpperCase bigquery_query config sql
         maximumBytes Words Gate.
  destruct (callToolQuery_unchanged Rows JSON_stringify toUpperCase
              bigquery_query config sql maximumBytes (guard_passes sql Words))
    as [Calls Rows'].
  - unfold qualifyInformationSchema. rewrite Gate. reflexivity.
  - split; [exact Calls|]. split; [exact Rows' | reflexivity].
Qed.

Lemma query_forwards_statement_witness :
  snd (run (callToolQuery exampleStringify upperAscii answeringWarehouse
              exampleConfig
              (lit "SELECT created_at, update_time FROM ds.t") None))
  = [{| query := lit "SELECT created_at, update_time FROM ds.t";
        queryLocation := Some (lit "US");
        maximumBytesBilled := lit "1000000000" |}].
Proof.
  refine (proj1 (query_forwards_statement (list jsstring) exampleStringify
                   upperAscii answeringWarehouse exampleConfig
                   (lit "SELECT created_at, update_time FROM ds.t") None
                   _ _)).
  - apply guard_passed. reflexivity.
  - reflexivity.
Defined.

(** X3.  A statement that holds no text of the form
    [FROM [ds.]INFORMATION_SCHEMA.TABLES] is left as it is by
    [qualifyTablePath], whatever else it says of INFORMATION_SCHEMA: a
    reference to another view, such as INFORMATION_SCHEMA.COLUMNS, is not
    qualified, and the tool [query] sends the statement unchanged. *)
Theorem qualifyTablePath_other_views :
  forall (Rows : Type) (JSON_stringify : Rows -> jsstring)
         (toUpperCase : jsstring -> jsstring)
         (bigquery_query : QueryOptions -> outcome Rows)
         (config : ServerConfig) (sql : jsstring)
         (maximumBytes : option jsstring),
    occurrenceFree sql ->
    qualifyTablePath sql (projectId config) = Returned sql
    /\ ((forall kw, In kw forbiddenKeywords -> ~ standaloneWord kw sql) ->
        snd (run (callToolQuery JSON_stringify toUpperCase bigquery_query
                    config sql maximumBytes))
        = [{| query := sql; queryLocation := location config;
              maximumBytesBilled := bytesBilled maximumBytes |}]).
Proof.
  intros Rows JSON_stringify toUpperCase bigquery_query config sql
         maximumBytes Free.
  pose proof (qualifyTablePath_free (projectId config) sql Free) as Q.
  split; [exact Q|]. intros Words.
  apply (callToolQuery_unchanged Rows JSON_stringify toUpperCase
           bigquery_query config sql maximumBytes (guard_passes sql Words)).
  unfold qualifyInformationSchema.
  destruct (includes _ _); [exact Q | reflexivity].
Qed.

Lemma qualifyTablePath_other_views_witness :
  qualifyTablePath
    (lit "SELECT * FROM ds.INFORMATION_SCHEMA.COLUMNS")
    (lit "my-project")
  = Returned (lit "SELECT * FROM ds.INFORMATION_SCHEMA.COLUMNS").
Proof.
  refine (proj1 (qualifyTablePath_other_views (list jsstring)
                   exampleStringify upperAscii answeringWarehouse
                   exampleConfig
                   (lit "SELECT * FROM ds.INFORMATION_SCHEMA.COLUMNS") None
                   _)).
  apply matchesSomewhere_free. reflexivity.
Defined.

(* ================================================================== *)
(** ** The arguments of the server *)
(* ================================================================== *)

Lemma startsWith_spec n : forall s,
  startsWith n s = true <-> exists r, s = n ++ r.
Proof.
  induction n as [|x n IH]; intros s; simpl.
  - split; [intros _; exists s; reflexivity | reflexivity].
  - destruct s as [|y s].
    + split; [discriminate | intros (r & E); discriminate E].
    + rewrite andb_true_iff, N.eqb_eq, IH. split.
      * intros [-> (r & ->)]. exists r. reflexivity.
      * intros (r & [= -> ->]). split; [reflexivity|]. exists r. reflexivity.
Qed.

Lemma startsWith_app n r : startsWith n (n ++ r) = true.
Proof. apply startsWith_spec. exists r. reflexivity. Qed.

Lemma setOption_known config key value :
  knownOption key = true ->
  setOption config key value = Some (configured [(key, value)] config).
Proof.
  unfold knownOption, setOption, configured. cbn [lastValue].
  destruct (eqs key (lit "project-id")) eqn:P.
  - apply eqs_spec in P. subst key. intros _. reflexivity.
  - destruct (eqs key (lit "location")) eqn:L.
    + apply eqs_spec in L. subst key. intros _. reflexivity.
    + destruct (eqs key (lit "key-file")) eqn:K; [|discriminate].
      apply eqs_spec in K. subst key. intros _. reflexivity.
Qed.

Lemma setOption_unknown config key value :
  knownOption key = false -> setOption config key value = None.
Proof.
  unfold knownOption, setOption. intros H.
  apply orb_false_iff in H. destruct H as [H K].
  apply orb_false_iff in H. destruct H as [P L].
  rewrite P, L, K. reflexivity.
Qed.

Lemma configured_cons option options config :
  configured options (configured [option] config)
  = configured (option :: options) config.
Proof.
  destruct option as [k v]. unfold configured. cbn [lastValue projectId
    location keyFilename].
  destruct (lastValue (lit "project-id") options),
           (lastValue (lit "location") options),
           (lastValue (lit "key-file") options),
           (eqs k (lit "project-id")), (eqs k (lit "location")),
           (eqs k (lit "key-file")); reflexivity.
Qed.

(** The loop reads the options that are well formed, one after the
    other. *)
Lemma parseArgsLoop_app rest : forall options config,
  Forall wellFormedOption options ->
  parseArgsLoop (argumentsOf options ++ rest) config
  = parseArgsLoop rest (configured options config).
Proof.
  induction options as [|[k v] options IH]; intros config F.
  - destruct config. reflexivity.
  - inversion F as [|? ? [Known Value] F']; subst. cbn [fst snd] in *.
    cbn [argumentsOf flat_map app]. fold (argumentsOf options).
    cbn [parseArgsLoop fst snd]. rewrite startsWith_app. cbn [negb].
    rewrite Value.
    change (skipn 2 (lit "--" ++ k)) with k.
    rewrite (setOption_known _ _ _ Known), (IH _ F').
    rewrite configured_cons. reflexivity.
Qed.

Lemma parseArgsLoop_options options config :
  Forall wellFormedOption options ->
  parseArgsLoop (argumentsOf options) config
  = Returned (configured options config).
Proof.
  intros F. rewrite <- (app_nil_r (argumentsOf options)).
  rewrite (parseArgsLoop_app [] options config F). reflexivity.
Qed.

Lemma parseArgsLoop_returned : forall n args config config',
  (length args <= n)%nat ->
  parseArgsLoop args config = Returned config' ->
  exists options,
    args = argumentsOf options /\ Forall wellFormedOption options.
Proof.
  induction n as [|n IH]; intros args config config' L H.
  - destruct args; [|simpl in L; lia]. exists []. split; constructor.
  - destruct args as [|arg [|value rest]].
    + exists []. split; constructor.
    + cbn [parseArgsLoop] in H.
      destruct (negb (startsWith (lit "--") arg)); discriminate H.
    + cbn [parseArgsLoop] in H.
      destruct (startsWith (lit "--") arg) eqn:A; [|discriminate H].
      cbn [negb] in H.
      destruct (startsWith (lit "--") value) eqn:V; [discriminate H|].
      destruct (setOption config (skipn 2 arg) value) as [config1|] eqn:S;
        [|discriminate H].
      destruct (knownOption (skipn 2 arg)) eqn:K.
      2:{ rewrite (setOption_unknown _ _ _ K) in S. discriminate S. }
      destruct (IH rest config1 config') as (options & -> & F);
        [simpl in L; lia | exact H |].
      apply startsWith_spec in A. destruct A as (k & ->).
      change (skipn 2 (lit "--" ++ k)) with k in K.
      exists ((k, value) :: options). split; [reflexivity|].
      constructor; [split; assumption | exact F].
Qed.

Lemma lastValue_project options :
  projectId (configured options {| projectId := [];
                                   location := Some (lit "US");
                                   keyFilename := None |})
  = valueOr [] (lastValue (lit "project-id") options).
Proof. reflexivity. Qed.

(** X4.  [parseArgs] returns a configuration exactly when the arguments
    are a sequence of the options --project-id, --location and --key-file,
    each followed by a value that does not begin with two dashes, and the
    last value given for --project-id is not empty.  The configuration
    then holds, for each option, the last value given for it; the
    location is US when none is given, and there is no key file when none
    is given. *)
Theorem parseArgs_options :
  forall (args : list jsstring) (config : ServerConfig),
    parseArgs args = Returned config
    <-> exists options,
          args = argumentsOf options
          /\ Forall wellFormedOption options
          /\ projectId config <> []
          /\ lastValue (lit "project-id") options = Some (projectId config)
          /\ location config
             = Some (valueOr (lit "US") (lastValue (lit "location") options))
          /\ keyFilename config = lastValue (lit "key-file") options.
Proof.
  intros args config. unfold parseArgs. split.
  - intros H. apply obind_returned in H. destruct H as (config1 & Loop & H).
    destruct (parseArgsLoop_returned _ _ _ _ (le_n _) Loop)
      as (options & -> & F).
    rewrite (parseArgsLoop_options _ _ F) in Loop. injection Loop as <-.
    exists options. split; [reflexivity|]. split; [exact F|].
    rewrite lastValue_project in H.
    destruct (lastValue (lit "project-id") options) as [[|c p]|] eqn:P;
      try discriminate H.
    injection H as <-. unfold configured. cbn [projectId location keyFilename].
    rewrite P. cbn [valueOr]. split; [discriminate|]. split; [reflexivity|].
    destruct (lastValue (lit "location") options),
             (lastValue (lit "key-file") options); split; reflexivity.
  - intros (options & -> & F & NE & P & L & K).
    rewrite (parseArgsLoop_options _ _ F). cbn [obind].
    rewrite lastValue_project, P. cbn [valueOr].
    destruct config as [pid loc key]. cbn [projectId location keyFilename] in *.
    destruct pid as [|c pid]; [congruence|].
    unfold configured. cbn [projectId location keyFilename].
    rewrite P. cbn [valueOr]. subst loc key.
    destruct (lastValue (lit "location") options),
             (lastValue (lit "key-file") options); reflexivity.
Qed.

Lemma parseArgs_options_witness :
  parseArgs [lit "--project-id"; lit "bestreviews-200115";
             lit "--key-file"; lit "key.json";
             lit "--location"; lit "EU";
             lit "--project-id"; lit "my-project"]
  = Returned {| projectId := lit "my-project";
                location := Some (lit "EU");
                keyFilename := Some (lit "key.json") |}.
Proof.
  apply (proj2 (parseArgs_options _ _)).
  exists [(lit "project-id", lit "bestreviews-200115");
          (lit "key-file", lit "key.json");
          (lit "location", lit "EU");
          (lit "project-id", lit "my-project")].
  split; [reflexivity|]. split; [repeat constructor|].
  split; [discriminate|]. repeat split; reflexivity.
Defined.

(** X5.  [parseArgs] reads the arguments from the left and throws at the
    first one that is out of place: an argument in the place of an option
    that does not begin with two dashes is an invalid argument; an option
    that is the last argument, or is followed by an argument that begins
    with two dashes, misses its value, whether the option is known or not;
    an option other than the three with a value is unknown; and when all
    arguments are well formed but the project id is absent or empty, the
    usage is thrown. *)
Theorem parseArgs_errors :
  forall (options : list (jsstring * jsstring)) (arg : jsstring)
         (rest : list jsstring),
    Forall wellFormedOption options ->
    (startsWith (lit "--") arg = false ->
     parseArgs (argumentsOf options ++ arg :: rest)
     = Thrown (ErrorObj (lit "Invalid argument: " ++ arg)))
    /\ (startsWith (lit "--") arg = true ->
        (rest = []
         \/ exists value rest',
              rest = value :: rest'
              /\ startsWith (lit "--") value = true) ->
        parseArgs (argumentsOf options ++ arg :: rest)
        = Thrown (ErrorObj (lit "Missing value for argument: " ++ arg)))
    /\ (forall value rest',
          startsWith (lit "--") arg = true ->
          knownOption (skipn 2 arg) = false ->
          rest = value :: rest' ->
          startsWith (lit "--") value = false ->
          parseArgs (argumentsOf options ++ arg :: rest)
          = Thrown (ErrorObj (lit "Unknown argument: " ++ arg)))
    /\ (valueOr [] (lastValue (lit "project-id") options) = [] ->
        parseArgs (argumentsOf options) = Thrown (ErrorObj usage)).
Proof.
  intros options arg rest F. unfold parseArgs.
  split; [|split; [|split]].
  - intros A. rewrite (parseArgsLoop_app _ _ _ F).
    cbn [parseArgsLoop]. rewrite A. reflexivity.
  - intros A [->|(value & rest' & -> & V)];
      rewrite (parseArgsLoop_app _ _ _ F); cbn [parseArgsLoop];
      rewrite A; cbn [negb]; [|rewrite V]; reflexivity.
  - intros value rest' A K -> V. rewrite (parseArgsLoop_app _ _ _ F).
    cbn [parseArgsLoop]. rewrite A, V. cbn [negb].
    rewrite (setOption_unknown _ _ _ K). reflexivity.
  - intros P. rewrite (parseArgsLoop_options _ _ F). cbn [obind].
    rewrite lastValue_project, P. reflexivity.
Qed.

Lemma parseArgs_errors_witness :
  parseArgs [lit "--location"; lit "EU"; lit "--project-id"]
  = Thrown (ErrorObj (lit "Missing value for argument: --project-id"))
  /\ parseArgs [lit "--location"; lit "EU"] = Thrown (ErrorObj usage).
Proof.
  assert (F : Forall wellFormedOption [(lit "location", lit "EU")])
    by (repeat constructor).
  split.
  - exact (proj1 (proj2 (parseArgs_errors [(lit "location", lit "EU")]
                           (lit "--project-id") [] F))
             eq_refl (or_introl eq_refl)).
  - exact (proj2 (proj2 (proj2 (parseArgs_errors
                                  [(lit "location", lit "EU")] [] [] F)))
             eq_refl).
Defined.

(* ================================================================== *)
(** ** The validation of the configuration *)
(* ================================================================== *)

Lemma projectIdPattern_accepts pid :
  pid <> [] -> allOf isProjectIdChar pid ->
  test false projectIdPattern pid = true.
Proof.
  intros NE A. unfold test. rewrite testFrom_eq.
  unfold matchHere, projectIdPattern.
  rewrite matcher_seq, matcher_bol. cbn [prev].
  rewrite matcher_seq, matcher_plus_class.
  2:{ intros st c s E _. rewrite matcher_eol, E. reflexivity. }
  cbn [rest prev capture].
  rewrite <- (app_nil_r pid) at 1.
  rewrite (span_app isProjectIdChar pid [] A) by (intros c r'; discriminate).
  destruct pid as [|c pid]; [congruence|].
  rewrite matcher_eol. reflexivity.
Qed.

Lemma isServiceAccount_spec v :
  isServiceAccount v = true <-> v = VStr (lit "service_account").
Proof.
  destruct v; simpl; split; try discriminate.
  - intros H. apply eqs_spec in H. subst. reflexivity.
  - intros [= ->]. reflexivity.
Qed.

Section StartupProperties.
Variable path_resolve : jsstring -> jsstring.
Variable fs_access : jsstring -> accessOutcome.
Variable fs_readFile : jsstring -> outcome jsstring.
Variable JSON_parse : jsstring -> parseResult.

(** The key file is accepted when it can be read and holds JSON with the
    type [service_account] and a project id that is not empty. *)
Lemma checkKeyFile_returned file :
  checkKeyFile fs_readFile JSON_parse file = Returned tt
  <-> exists content keyData project_id,
        fs_readFile file = Returned content
        /\ JSON_parse content = Parsed keyData
        /\ getProp keyData (lit "type")
           = Returned (VStr (lit "service_account"))
        /\ getProp keyData (lit "project_id") = Returned project_id
        /\ truthy project_id = true.
Proof.
  unfold checkKeyFile. split.
  - intros H. apply obind_returned in H. destruct H as (content & R & H).
    destruct (JSON_parse content) as [m|keyData] eqn:P; [discriminate H|].
    apply obind_returned in H. destruct H as (type & T & H).
    destruct (truthy type) eqn:TT; [|discriminate H].
    destruct (isServiceAccount type) eqn:S; [|discriminate H].
    cbn [negb orb] in H.
    apply obind_returned in H. destruct H as (project_id & I & H).
    destruct (truthy project_id) eqn:TP; [|discriminate H].
    apply isServiceAccount_spec in S. subst type.
    exists content, keyData, project_id. auto.
  - intros (content & keyData & project_id & R & P & T & I & TP).
    rewrite R. cbn [obind]. rewrite P, T. cbn [obind]. rewrite I.
    cbn [obind]. rewrite TP. reflexivity.
Qed.

Lemma validateConfig_returned config config' :
  validateConfig path_resolve fs_access fs_readFile JSON_parse config
  = Returned config' ->
  validProjectId config' = true
  /\ projectId config' = projectId config
  /\ location config' = location config.
Proof.
  unfold validateConfig. intros H.
  apply obind_returned in H. destruct H as (config1 & H1 & H).
  destruct (validProjectId config1) eqn:V; [|discriminate H].
  injection H as <-. split; [exact V|].
  destruct (keyFilename config) as [[|c file]|].
  - injection H1 as <-. auto.
  - destruct (fs_access _); try discriminate H1.
    apply obind_returned in H1. destruct H1 as (u & _ & H1).
    injection H1 as <-. auto.
  - injection H1 as <-. auto.
Qed.
End StartupProperties.

(** X6.  The project-id check of [validateConfig] accepts exactly the
    texts that are not empty and made of the lower-case letters a-z, the
    digits and the hyphen. *)
Theorem projectId_format :
  forall config : ServerConfig,
    validProjectId config = true
    <-> projectId config <> []
        /\ allOf isProjectIdChar (projectId config).
Proof.
  intros config. unfold validProjectId. split.
  - intros H. split; [|apply projectIdPattern_chars; exact H].
    intros E. rewrite E in H. discriminate H.
  - intros [NE A]. apply projectIdPattern_accepts; assumption.
Qed.

Lemma projectId_format_witness :
  validProjectId exampleConfig = true.
Proof.
  apply (proj2 (projectId_format exampleConfig)).
  split; [discriminate | repeat constructor].
Defined.

(** X7.  [validateConfig] accepts a configuration exactly when its project
    id has the format above and either it names no key file, or the key
    file, at its resolved path, is accessible, can be read, and holds JSON
    whose [type] is [service_account] and whose [project_id] is truthy.
    The configuration keeps its project id and location, and the path of
    the key file is replaced by the resolved one. *)
Theorem validateConfig_accepts :
  forall (path_resolve : jsstring -> jsstring)
         (fs_access : jsstring -> accessOutcome)
         (fs_readFile : jsstring -> outcome jsstring)
         (JSON_parse : jsstring -> parseResult)
         (config config' : ServerConfig),
    validateConfig path_resolve fs_access fs_readFile JSON_parse config
    = Returned config'
    <-> validProjectId config = true
        /\ projectId config' = projectId config
        /\ location config' = location config
        /\ (((keyFilename config = None \/ keyFilename config = Some [])
             /\ keyFilename config' = keyFilename config)
            \/ exists file content keyData project_id,
                 keyFilename config = Some file /\ file <> []
                 /\ keyFilename config' = Some (path_resolve file)
                 /\ fs_access (path_resolve file) = Accessible
                 /\ fs_readFile (path_resolve file) = Returned content
                 /\ JSON_parse content = Parsed keyData
                 /\ getProp keyData (lit "type")
                    = Returned (VStr (lit "service_account"))
                 /\ getProp keyData (lit "project_id") = Returned project_id
                 /\ truthy project_id = true).
Proof.
  intros path_resolve fs_access fs_readFile JSON_parse config config'.
  split.
  - intros H.
    destruct (validateConfig_returned _ _ _ _ _ _ H) as (V & P & L).
    split; [unfold validProjectId in *; rewrite <- P; exact V|].
    split; [exact P|]. split; [exact L|].
    unfold validateConfig in H.
    apply obind_returned in H. destruct H as (config1 & H1 & H).
    destruct (validProjectId config1); [|discriminate H].
    injection H as <-.
    destruct (keyFilename config) as [[|c file]|] eqn:K.
    + injection H1 as <-. left. rewrite K. auto.
    + right. destruct (fs_access _) eqn:A; try discriminate H1.
      apply obind_returned in H1. destruct H1 as ([] & C & H1).
      injection H1 as <-.
      apply checkKeyFile_returned in C.
      destruct C as (content & keyData & project_id & R & J & T & I & TP).
      exists (c :: file), content, keyData, project_id.
      repeat (split; [first [reflexivity | discriminate | assumption]|]).
      assumption.
    + injection H1 as <-. left. rewrite K. auto.
  - intros (V & P & L & [[K K']|
       (file & content & keyData & project_id & K & NE & K' & A & R & J & T
        & I & TP)]).
    + unfold validateConfig.
      assert (E : config' = config).
      { destruct config, config'. cbn in *. congruence. }
      subst config'.
      destruct K as [-> | ->]; cbn [obind]; rewrite V; reflexivity.
    + unfold validateConfig. rewrite K.
      destruct file as [|c file]; [congruence|]. rewrite A.
      assert (C : checkKeyFile fs_readFile JSON_parse
                    (path_resolve (c :: file)) = Returned tt).
      { apply checkKeyFile_returned.
        exists content, keyData, project_id. auto. }
      rewrite C. cbn [obind]. unfold validProjectId in *.
      cbn [projectId]. rewrite V.
      destruct config'. cbn in *. congruence.
Qed.

Lemma validateConfig_accepts_witness :
  validateConfig (fun file => lit "/srv/" ++ file) (fun _ => Accessible)
    (fun _ => Returned (lit "{...}"))
    (fun _ => Parsed (VObj [field "type" (VStr (lit "service_account"));
                            field "project_id" (VStr (lit "my-project"))]))
    {| projectId := lit "my-project"; location := Some (lit "US");
       keyFilename := Some (lit "key.json") |}
  = Returned {| projectId := lit "my-project"; location := Some (lit "US");
                keyFilename := Some (lit "/srv/key.json") |}.
Proof.
  apply (proj2 (validateConfig_accepts _ _ _ _ _ _)).
  split; [reflexivity|]. split; [reflexivity|]. split; [reflexivity|].
  right.
  exists (lit "key.json"), (lit "{...}"),
         (VObj [field "type" (VStr (lit "service_account"));
                field "project_id" (VStr (lit "my-project"))]),
         (VStr (lit "my-project")).
  repeat (split; [first [reflexivity | discriminate]|]). reflexivity.
Defined.

(** X8.  The server starts only with a project id that is not empty and
    made of a-z, 0-9 and the hyphen, and with a location; for the
    configuration it runs with, the rewrite of [qualifyTablePath] is
    therefore idempotent. *)
Theorem startup_configuration :
  forall (path_resolve : jsstring -> jsstring)
         (fs_access : jsstring -> accessOutcome)
         (fs_readFile : jsstring -> outcome jsstring)
         (JSON_parse : jsstring -> parseResult)
         (args : list jsstring) (config : ServerConfig),
    startup path_resolve fs_access fs_readFile JSON_parse args
    = Returned config ->
    projectId config <> []
    /\ allOf isProjectIdChar (projectId config)
    /\ location config <> None
    /\ forall sql out,
         qualifyTablePath sql (projectId config) = Returned out ->
         qualifyTablePath out (projectId config) = Returned out.
Proof.
  intros path_resolve fs_access fs_readFile JSON_parse args config H.
  unfold startup in H. apply obind_returned in H.
  destruct H as (config0 & P & V).
  apply validateConfig_returned in V. destruct V as (V & Pid & L).
  pose proof (validProjectId_chars _ V) as A.
  split.
  - intros E. unfold validProjectId in V. rewrite E in V. discriminate V.
  - split; [exact A|]. split.
    + rewrite L. unfold parseArgs in P. apply obind_returned in P.
      destruct P as (config1 & Loop & P).
      destruct (parseArgsLoop_returned _ _ _ _ (le_n _) Loop)
        as (options & -> & F).
      rewrite (parseArgsLoop_options _ _ F) in Loop. injection Loop as <-.
      destruct (projectId _); [discriminate P|]. injection P as <-.
      unfold configured. cbn [location].
      destruct (lastValue (lit "location") options); discriminate.
    + apply qualifyTablePath_idempotent. exact A.
Qed.

Lemma startup_configuration_witness :
  startup (fun file => file) (fun _ => Accessible)
    (fun _ => Thrown NonError) (fun _ => Parsed VNull)
    [lit "--project-id"; lit "my-project"]
  = Returned exampleConfig
  /\ allOf isProjectIdChar (projectId exampleConfig).
Proof.
  split; [reflexivity|].
  exact (proj1 (proj2
    (startup_configuration (fun file => file) (fun _ => Accessible)
       (fun _ => Thrown NonError) (fun _ => Parsed VNull)
       [lit "--project-id"; lit "my-project"] exampleConfig eq_refl))).
Defined.

(* ================================================================== *)
(** ** The chart builder: what it returns and what it throws *)
(* ================================================================== *)

Lemma readable_cons row data :
  readable (row :: data)
  <-> (isNull row = false /\ isUndefined row = false) /\ readable data.
Proof.
  unfold readable. split.
  - intros H. inversion H; subst. auto.
  - intros [H F]. constructor; assumption.
Qed.

Lemma readable_firstn n data : readable data -> readable (firstn n data).
Proof.
  unfold readable. revert n.
  induction data as [|row data IH]; intros [|n] H; simpl; try constructor.
  - inversion H; assumption.
  - apply IH. inversion H; assumption.
Qed.

Lemma convertibleCells_cons row data :
  convertibleCells (row :: data)
  <-> (forall col, convertible (prop row col) = true)
      /\ convertibleCells data.
Proof.
  unfold convertibleCells. split.
  - intros H. inversion H; subst. auto.
  - intros [H F]. constructor; assumption.
Qed.

Lemma convertibleCells_firstn n data :
  convertibleCells data -> convertibleCells (firstn n data).
Proof.
  unfold convertibleCells. revert n.
  induction data as [|row data IH]; intros [|n] H; simpl; try constructor.
  - inversion H; assumption.
  - apply IH. inversion H; assumption.
Qed.

Lemma chartColumnTypes_total first :
  isNull first = false -> isUndefined first = false ->
  forall columns acc, exists columnTypes,
    foldO (fun columnTypes col =>
             sampleValue <~ getProp first col ;;
             Returned (assignPrimitive col (chartColumnType sampleValue)
                                       columnTypes))
          columns acc = Returned columnTypes.
Proof.
  intros N U. induction columns as [|col columns IH]; intros acc; simpl.
  - eauto.
  - rewrite (getProp_prop first col N U). cbn [obind]. apply IH.
Qed.

Lemma objectKeys_total first :
  isNull first = false -> isUndefined first = false ->
  exists columns, objectKeys first = Returned columns.
Proof. destruct first; simpl; intros; try discriminate; eauto. Qed.

Section ChartParts.
Variable stringToNumber : jsstring -> number.
Variable fractionToString : Q -> jsstring.

Lemma toStringO_returned v s :
  toStringO fractionToString v = Returned s ->
  s = toString fractionToString v.
Proof.
  unfold toStringO. destruct (convertible v); [|discriminate].
  intros [= <-]. reflexivity.
Qed.

Lemma toNumberO_returned v n :
  toNumberO stringToNumber fractionToString v = Returned n ->
  n = toNumber stringToNumber fractionToString v.
Proof.
  unfold toNumberO. destruct (convertible v); [|discriminate].
  intros [= <-]. reflexivity.
Qed.

Lemma toStringO_convertible v :
  convertible v = true ->
  toStringO fractionToString v = Returned (toString fractionToString v).
Proof. intros C. unfold toStringO. rewrite C. reflexivity. Qed.

Lemma toNumberO_convertible v :
  convertible v = true ->
  toNumberO stringToNumber fractionToString v
  = Returned (toNumber stringToNumber fractionToString v).
Proof. intros C. unfold toNumberO. rewrite C. reflexivity. Qed.

(** The slices of a pie chart are built for rows that can be read and
    converted. *)
Lemma aggregate_total (numericColumns : list jsstring) xColumn yColumn :
  forall data,
  readable data -> convertibleCells data ->
  forall acc, exists aggregatedData,
    foldO (fun aggregatedData row =>
             x <~ getProp row (columnKey xColumn) ;;
             key <~ toStringO fractionToString x ;;
             amount <~ match numericColumns with
                       | _ :: _ =>
                           y <~ getProp row (columnKey yColumn) ;;
                           toNumberO stringToNumber fractionToString y
                       | [] => Returned (ofZ 1)
                       end ;;
             Returned (assignPrimitive key
                         (addToCell stringToNumber fractionToString key
                            (lookup key aggregatedData) amount)
                         aggregatedData))
          data acc
    = Returned aggregatedData.
Proof.
  induction data as [|row data IH]; intros R C acc; [simpl; eauto|].
  apply readable_cons in R. destruct R as [[N U] R].
  apply convertibleCells_cons in C. destruct C as [Cr C].
  cbn [foldO]. rewrite (getProp_prop row _ N U). cbn [obind].
  rewrite (toStringO_convertible _ (Cr _)). cbn [obind].
  destruct numericColumns.
  - cbn [obind]. apply IH; assumption.
  - rewrite (getProp_prop row _ N U). cbn [obind].
    rewrite (toNumberO_convertible _ (Cr _)). cbn [obind].
    apply IH; assumption.
Qed.

Lemma firstn_limit (data : list value) :
  (if (20 <? length data)%nat then firstn 20 data else data)
  = firstn 20 data.
Proof.
  destruct (20 <? length data)%nat eqn:E; [reflexivity|].
  apply Nat.ltb_ge in E. symmetry. apply firstn_all2. exact E.
Qed.

(** The series of a bar or line chart: the first twenty rows. *)
Lemma buildChartData_series chartType data numericColumns xColumn yColumn
      chart :
  eqs chartType (lit "pie") = false ->
  eqs chartType (lit "scatter") = false ->
  buildChartData stringToNumber fractionToString chartType data
                 numericColumns xColumn yColumn = Returned chart ->
  chart = SeriesData (seriesOf xColumn data) yColumn (seriesOf yColumn data).
Proof.
  intros P S H. unfold buildChartData in H. rewrite P, S, firstn_limit in H.
  apply obind_returned in H. destruct H as (labels & Hl & H).
  apply obind_returned in H. destruct H as (vals & Hv & H).
  injection H as <-.
  apply mapO_returned, Forall2_map_prop in Hl.
  apply mapO_returned, Forall2_map_prop in Hv.
  destruct Hl as [-> _]. destruct Hv as [-> _]. reflexivity.
Qed.

(** The points of a scatter chart: one for each row. *)
Lemma buildChartData_scatter data numericColumns xColumn yColumn chart :
  buildChartData stringToNumber fractionToString (lit "scatter") data
                 numericColumns xColumn yColumn = Returned chart ->
  chart = ScatterData (columnKey yColumn ++ lit " vs " ++ columnKey xColumn)
            (pointsOf stringToNumber fractionToString xColumn yColumn data).
Proof.
  intros H. unfold buildChartData in H.
  change (eqs (lit "scatter") (lit "pie")) with false in H.
  change (eqs (lit "scatter") (lit "scatter")) with true in H.
  cbn iota in H.
  apply obind_returned in H. destruct H as (points & Hp & H).
  injection H as <-. apply f_equal. unfold pointsOf.
  apply mapO_returned in Hp. clear - Hp.
  induction Hp as [|row point data points H F IH]; [reflexivity|].
  cbn [List.map]. rewrite <- IH. apply f_equal2; [|reflexivity].
  apply obind_returned in H. destruct H as (x & Hx & H).
  apply obind_returned in H. destruct H as (nx & Hnx & H).
  apply obind_returned in H. destruct H as (y & Hy & H).
  apply obind_returned in H. destruct H as (ny & Hny & H).
  injection H as <-.
  apply getProp_returned in Hx. apply getProp_returned in Hy.
  destruct Hx as [-> _]. destruct Hy as [-> _].
  apply toNumberO_returned in Hnx. apply toNumberO_returned in Hny.
  subst. reflexivity.
Qed.

(** Every kind of chart is built for rows that can be read and
    converted. *)
Lemma buildChartData_total chartType data numericColumns xColumn yColumn :
  readable data -> convertibleCells data ->
  exists chart,
    buildChartData stringToNumber fractionToString chartType data
                   numericColumns xColumn yColumn = Returned chart.
Proof.
  intros R C. unfold buildChartData.
  destruct (eqs chartType (lit "pie")).
  - unfold aggregate.
    destruct (aggregate_total numericColumns xColumn yColumn data R C [])
      as (aggregatedData & ->).
    cbn [obind]. eauto.
  - destruct (eqs chartType (lit "scatter")).
    + rewrite (mapO_total _
                 (fun row =>
                    (toNumber stringToNumber fractionToString
                              (prop row (columnKey xColumn)),
                     toNumber stringToNumber fractionToString
                              (prop row (columnKey yColumn))))).
      * cbn [obind]. eauto.
      * unfold readable in R. unfold convertibleCells in C.
        rewrite Forall_forall in R, C. apply Forall_forall.
        intros row HIn. destruct (R row HIn) as [N U].
        rewrite !(getProp_prop row _ N U). cbn [obind].
        rewrite !(toNumberO_convertible _ (C row HIn _)). reflexivity.
    + rewrite firstn_limit.
      rewrite !(readable_column _ _ (readable_firstn 20 data R)).
      cbn [obind]. eauto.
Qed.

Lemma tableRows_total columns data :
  readable data -> convertibleCells data ->
  mapO (fun row =>
          mapO (fun col => cell <~ getProp row col ;;
                           toStringO fractionToString cell)
               columns)
       data
  = Returned (List.map (fun row =>
                          List.map (fun col =>
                                      toString fractionToString
                                               (prop row col))
                                   columns)
                       data).
Proof.
  intros R C. apply mapO_total. unfold readable in R.
  unfold convertibleCells in C. rewrite Forall_forall in R, C.
  apply Forall_forall. intros row HIn. destruct (R row HIn) as [N U].
  apply mapO_total. apply Forall_forall. intros col _.
  rewrite (getProp_prop row col N U). cbn [obind].
  apply toStringO_convertible. apply (C row HIn).
Qed.

Lemma tableRows_returned columns data rows :
  mapO (fun row =>
          mapO (fun col => cell <~ getProp row col ;;
                           toStringO fractionToString cell)
               columns)
       data = Returned rows ->
  rows = List.map (fun row =>
                     List.map (fun col =>
                                 toString fractionToString (prop row col))
                              columns)
                  data.
Proof.
  intros H. apply mapO_returned in H.
  induction H as [|row cells data rows H F IH]; [reflexivity|].
  cbn [List.map]. rewrite <- IH. apply f_equal2; [|reflexivity].
  apply mapO_returned in H. clear - H.
  induction H as [|col cell columns cells H F IH]; [reflexivity|].
  cbn [List.map]. rewrite <- IH. apply f_equal2; [|reflexivity].
  apply obind_returned in H. destruct H as (v & Hv & H).
  apply getProp_returned in Hv. destruct Hv as [-> _].
  apply toStringO_returned in H. exact H.
Qed.
End ChartParts.

(** The title, the kind and the table of a document. *)
Lemma visualization_table :
  forall (stringToNumber : jsstring -> number)
         (fractionToString : Q -> jsstring)
         (toLowerCase : jsstring -> jsstring)
         (first : value) (others : list value)
         (type caption : option value)
         (columns : list jsstring) (doc : ChartDocument),
    objectKeys first = Returned columns ->
    callToolGenerateVisualization stringToNumber fractionToString toLowerCase
      (Parsed (VArr (first :: others))) type caption
    = Returned (inr doc) ->
    title doc = toString fractionToString (titleOf caption)
    /\ chartType doc = chartTypeOf (requestedKind toLowerCase type)
    /\ tableHeader doc = columns
    /\ tableRows doc = tableOf fractionToString columns (first :: others).
Proof.
  intros stringToNumber fractionToString toLowerCase first others type caption
         columns doc Keys H.
  destruct (visualization_document _ _ _ _ _ _ _ _ _ Keys H)
    as (columnTypes & _ & _ & _ & K & _ & T & Hd & R).
  split; [exact (toStringO_returned fractionToString _ _ T)|].
  split; [exact K|]. split; [exact Hd|].
  exact (tableRows_returned fractionToString _ _ _ R).
Qed.

(** X9.  For a requested kind other than pie and scatter -- bar, line,
    none at all, or one the builder does not know -- the chart is a bar
    chart, or a line chart when line was asked for, and its series are the
    values of the X column and of the Y column of the first twenty rows,
    in the order of the rows: rows after the twentieth are left out. *)
Theorem series_chart_first_twenty :
  forall (stringToNumber : jsstring -> number)
         (fractionToString : Q -> jsstring)
         (toLowerCase : jsstring -> jsstring)
         (first : value) (others : list value)
         (type title : option value)
         (columns : list jsstring) (doc : ChartDocument),
    objectKeys first = Returned columns ->
    callToolGenerateVisualization stringToNumber fractionToString toLowerCase
      (Parsed (VArr (first :: others))) type title
    = Returned (inr doc) ->
    eqs (requestedKind toLowerCase type) (lit "pie") = false ->
    eqs (requestedKind toLowerCase type) (lit "scatter") = false ->
    chartType doc
    = (if eqs (requestedKind toLowerCase type) (lit "line")
       then lit "line" else lit "bar")
    /\ chartData doc
       = SeriesData (seriesOf (xColumn doc) (first :: others)) (yColumn doc)
                    (seriesOf (yColumn doc) (first :: others))
    /\ length (seriesOf (xColumn doc) (first :: others))
       = Nat.min 20 (length (first :: others))
    /\ length (seriesOf (yColumn doc) (first :: others))
       = Nat.min 20 (length (first :: others)).
Proof.
  intros stringToNumber fractionToString toLowerCase first others type title
         columns doc Keys H Pie Scatter.
  destruct (visualization_document _ _ _ _ _ _ _ _ _ Keys H)
    as (columnTypes & _ & _ & _ & K & B & _).
  assert (Kind : chartType doc
                 = if eqs (requestedKind toLowerCase type) (lit "line")
                   then lit "line" else lit "bar").
  { rewrite K. unfold chartTypeOf. rewrite Pie, Scatter. reflexivity. }
  split; [exact Kind|].
  split.
  - apply buildChartData_series in B; [exact B| |]; rewrite Kind;
      destruct (eqs (requestedKind toLowerCase type) (lit "line"));
      reflexivity.
  - unfold seriesOf. rewrite !length_map, length_firstn. auto.
Qed.

Lemma series_chart_first_twenty_witness :
  exists doc,
    callToolGenerateVisualization digitsToNumber fractionAsQuotient
      lowerAscii
      (Parsed (VArr (List.map (fun n => VObj [field "n" (int (Z.of_nat n))])
                              (seq 1 25))))
      (Some (VStr (lit "Bar"))) None
    = Returned (inr doc)
    /\ chartType doc = lit "bar"
    /\ chartData doc
       = SeriesData (List.map (fun n => int (Z.of_nat n)) (seq 1 20))
                    (Some (lit "n"))
                    (List.map (fun n => int (Z.of_nat n)) (seq 1 20)).
Proof.
  eexists. split; [vm_compute; reflexivity|].
  destruct (series_chart_first_twenty digitsToNumber fractionAsQuotient
              lowerAscii (VObj [field "n" (int 1)])
              (List.map (fun n => VObj [field "n" (int (Z.of_nat n))])
                        (seq 2 24))
              (Some (VStr (lit "Bar"))) None [lit "n"] _ eq_refl eq_refl
              eq_refl eq_refl) as (K & C & _).
  split; [exact K | exact C].
Defined.

(** X10.  A scatter chart has one point for each row, in the order of the
    rows, none left out: the values of the X and of the Y column of the
    row converted to numbers, NaN included; its label is the Y column, vs,
    the X column. *)
Theorem scatter_chart_points :
  forall (stringToNumber : jsstring -> number)
         (fractionToString : Q -> jsstring)
         (toLowerCase : jsstring -> jsstring)
         (first : value) (others : list value)
         (type title : option value)
         (columns : list jsstring) (doc : ChartDocument),
    objectKeys first = Returned columns ->
    callToolGenerateVisualization stringToNumber fractionToString toLowerCase
      (Parsed (VArr (first :: others))) type title
    = Returned (inr doc) ->
    requestedKind toLowerCase type = lit "scatter" ->
    chartType doc = lit "scatter"
    /\ chartData doc
       = ScatterData (columnKey (yColumn doc) ++ lit " vs "
                      ++ columnKey (xColumn doc))
           (pointsOf stringToNumber fractionToString (xColumn doc)
                     (yColumn doc) (first :: others))
    /\ length (pointsOf stringToNumber fractionToString (xColumn doc)
                        (yColumn doc) (first :: others))
       = length (first :: others).
Proof.
  intros stringToNumber fractionToString toLowerCase first others type title
         columns doc Keys H Kind.
  destruct (visualization_document _ _ _ _ _ _ _ _ _ Keys H)
    as (columnTypes & _ & _ & _ & K & B & _).
  rewrite Kind in K. change (chartTypeOf (lit "scatter")) with (lit "scatter")
    in K.
  rewrite K in B.
  split; [exact K|]. split.
  - apply buildChartData_scatter in B. exact B.
  - unfold pointsOf. apply length_map.
Qed.

Lemma scatter_chart_points_witness :
  exists doc,
    callToolGenerateVisualization digitsToNumber fractionAsQuotient
      lowerAscii
      (Parsed (VArr [VObj [field "x" (int 1); field "y" (int 2)];
                     VObj [field "x" (int 3)];
                     VObj [field "x" (VStr (lit "4")); field "y" (int 5)]]))
      (Some (VStr (lit "scatter"))) None
    = Returned (inr doc)
    /\ chartData doc
       = ScatterData (lit "y vs x")
           [(ofZ 1, ofZ 2); (ofZ 3, NaN); (ofZ 4, ofZ 5)].
Proof.
  eexists. split; [vm_compute; reflexivity|].
  exact (proj1 (proj2
    (scatter_chart_points digitsToNumber fractionAsQuotient lowerAscii
       (VObj [field "x" (int 1); field "y" (int 2)])
       [VObj [field "x" (int 3)];
        VObj [field "x" (VStr (lit "4")); field "y" (int 5)]]
       (Some (VStr (lit "scatter"))) None [lit "x"; lit "y"] _ eq_refl eq_refl
       eq_refl))).
Defined.

Section ChartThrows.
Variable stringToNumber : jsstring -> number.
Variable fractionToString : Q -> jsstring.
Variable toLowerCase : jsstring -> jsstring.

Lemma buildChartData_errors chartType data numericColumns xColumn yColumn :
  throwsErrorsOnly
    (buildChartData stringToNumber fractionToString chartType data
       numericColumns xColumn yColumn).
Proof.
  unfold buildChartData, aggregate.
  destruct (eqs chartType (lit "pie")); [errors_only|].
  destruct (eqs chartType (lit "scatter")); errors_only.
Qed.

Lemma visualization_errors parsed visType caption :
  throwsErrorsOnly
    (data <~ parse parsed ;;
     match data with
     | VArr (first :: others) =>
         let data := first :: others in
         columns <~ objectKeys first ;;
         columnTypes <~ chartColumnTypes first columns ;;
         let numericColumns :=
           filter (hasType columnTypes (lit "numeric")) columns in
         let categoricalColumns :=
           filter (fun col => hasType columnTypes (lit "string") col
                              || hasType columnTypes (lit "boolean") col)
                  columns in
         let xColumn := selectX columns numericColumns categoricalColumns in
         let yColumn := selectY columns numericColumns xColumn in
         let chartType := chartTypeOf visType in
         chartData <~ buildChartData stringToNumber fractionToString
                        chartType data numericColumns xColumn yColumn ;;
         caption <~ toStringO fractionToString (titleOf caption) ;;
         rows <~ mapO (fun row =>
                         mapO (fun col =>
                                 cell <~ getProp row col ;;
                                 toStringO fractionToString cell)
                              columns)
                      (firstn 10 data) ;;
         Returned (inr {| title := caption;
                          chartType := chartType;
                          xColumn := xColumn;
                          yColumn := yColumn;
                          chartData := chartData;
                          tableHeader := columns;
                          tableRows := rows |})
     | _ => Returned (inl notAnArrayOfRows)
     end).
Proof.
  apply throwsErrorsOnly_obind; [destruct parsed; exact I|].
  intros data. destruct data as [| | | | |[|first others]|]; try exact I.
  apply throwsErrorsOnly_obind; [apply objectKeys_errors|]. intros columns.
  apply throwsErrorsOnly_obind.
  { unfold chartColumnTypes. errors_only. }
  intros columnTypes.
  apply throwsErrorsOnly_obind; [apply buildChartData_errors|].
  intros chart. errors_only.
Qed.
End ChartThrows.

(** The [type] arguments line 677 throws on: the truthy values that are
    not strings. *)
Lemma visTypeOf_refused toLowerCase type :
  notAString type = true ->
  exists message, visTypeOf toLowerCase type = Thrown (ErrorObj message).
Proof.
  unfold visTypeOf, notAString. destruct type as [v|]; [|discriminate].
  destruct v as [| |b|n|[|c t]|elements|properties];
    cbn [truthy isString negb andb]; try discriminate;
    rewrite ?andb_true_r; intros E; try rewrite E; eexists; reflexivity.
Qed.

Lemma visTypeOf_accepted toLowerCase type :
  notAString type = false ->
  visTypeOf toLowerCase type = Returned (requestedKind toLowerCase type).
Proof.
  unfold visTypeOf, requestedKind, notAString.
  destruct type as [v|]; [|reflexivity].
  destruct v as [| |b|n|[|c t]|elements|properties];
    cbn [truthy isString negb andb]; try discriminate;
    rewrite ?andb_true_r; try reflexivity; intros E; try rewrite E;
    reflexivity.
Qed.

(** X11.  The tool [generate_visualization] throws exactly when the
    argument [type] is a truthy value that is not a string: line 677
    lower-cases [type || 'bar'] before the [try] of line 680 begins, and
    what is thrown is an Error.  For every other [type] the tool returns.
    When the text is not JSON the result carries the error flag and the
    message of the parser; when the parsed value is not an array with at
    least one element, the result carries the error flag and the message
    that the data is empty or not in the expected format; the elements of
    the array are not inspected by this check. *)
Theorem generate_visualization_rejects :
  forall (stringToNumber : jsstring -> number)
         (fractionToString : Q -> jsstring)
         (toLowerCase : jsstring -> jsstring)
         (parsed : parseResult) (type caption : option value),
    let result :=
      callToolGenerateVisualization stringToNumber fractionToString
        toLowerCase parsed type caption in
    (notAString type = true ->
     exists message, result = Thrown (ErrorObj message))
    /\ (notAString type = false ->
        (exists returned, result = Returned returned)
        /\ (forall message,
              parsed = SyntaxError message ->
              result
              = Returned
                  (inl {| text := lit "Error generating visualization: "
                                  ++ message;
                          isError := true |}))
        /\ (forall data,
              parsed = Parsed data ->
              (forall first others, data <> VArr (first :: others)) ->
              result = Returned (inl notAnArrayOfRows))).
Proof.
  intros stringToNumber fractionToString toLowerCase parsed type caption
         result.
  unfold result, callToolGenerateVisualization. split.
  - intros Refused.
    destruct (visTypeOf_refused toLowerCase type Refused) as (message & ->).
    exists message. reflexivity.
  - intros Accepted.
    rewrite (visTypeOf_accepted toLowerCase type Accepted). cbn [obind].
    split; [|split].
    + pose proof (visualization_errors stringToNumber fractionToString
                    parsed (requestedKind toLowerCase type) caption) as E.
      destruct (obind (parse parsed) _) as [r|[m|]].
      * exists r. reflexivity.
      * eexists. reflexivity.
      * destruct E.
    + intros message ->. reflexivity.
    + intros data -> H. cbn [parse obind].
      destruct data as [| | | | |[|first others]|]; try reflexivity.
      exfalso. eapply H. reflexivity.
Qed.

Lemma generate_visualization_rejects_witness :
  (exists message,
     callToolGenerateVisualization digitsToNumber fractionAsQuotient
       lowerAscii (Parsed (VArr [VObj [field "a" (int 1)]])) (Some (int 5))
       None
     = Thrown (ErrorObj message))
  /\ callToolGenerateVisualization digitsToNumber fractionAsQuotient
       lowerAscii (Parsed (VObj [field "a" (int 1)]))
       (Some (VStr (lit "pie"))) None
     = Returned (inl notAnArrayOfRows).
Proof.
  split.
  - exact (proj1 (generate_visualization_rejects digitsToNumber
             fractionAsQuotient lowerAscii
             (Parsed (VArr [VObj [field "a" (int 1)]])) (Some (int 5)) None)
             eq_refl).
  - refine (proj2 (proj2 (proj2 (generate_visualization_rejects
              digitsToNumber fractionAsQuotient lowerAscii
              (Parsed (VObj [field "a" (int 1)]))
              (Some (VStr (lit "pie"))) None) eq_refl))
              (VObj [field "a" (int 1)]) eq_refl _).
    discriminate.
Defined.

(** X12.  For an array whose elements are neither null nor missing and
    hold no value that cannot be converted to a primitive (an object with
    an own property [toString]), for a [type] that is a string, falsy or
    absent and a title that can be converted, the tool
    [generate_visualization] returns a document, whatever kind is asked
    for.  Its title is the text of the one given, or Data Visualization
    when none or a falsy one is given; the header of its table holds the
    keys of the first row, and the table has a row for each of the first
    ten rows, in order, with a cell for each of these columns.  For rows
    that are records and columns that do not have the name of a member
    of [Object.prototype], the cell holds the text of the value of the
    column in the row, [undefined] for a row without the column. *)
Theorem generate_visualization_document :
  forall (stringToNumber : jsstring -> number)
         (fractionToString : Q -> jsstring)
         (toLowerCase : jsstring -> jsstring)
         (first : value) (others : list value)
         (type caption : option value),
    readable (first :: others) ->
    convertibleCells (first :: others) ->
    notAString type = false ->
    convertible (titleOf caption) = true ->
    exists columns doc,
      objectKeys first = Returned columns
      /\ callToolGenerateVisualization stringToNumber fractionToString
           toLowerCase (Parsed (VArr (first :: others))) type caption
         = Returned (inr doc)
      /\ title doc = toString fractionToString (titleOf caption)
      /\ tableHeader doc = columns
      /\ length (tableRows doc) = Nat.min 10 (length (first :: others))
      /\ Forall (fun cells => length cells = length columns)
                (tableRows doc)
      /\ (Forall (fun row => isRecord row = true) (first :: others) ->
          Forall (fun col => plainName col = true) columns ->
          tableRows doc
          = tableOf fractionToString columns (first :: others)).
Proof.
  intros stringToNumber fractionToString toLowerCase first others type
         caption R C Accepted Title.
  pose proof R as R0. apply readable_cons in R0. destruct R0 as [[N U] _].
  destruct (objectKeys_total first N U) as (columns & Keys).
  destruct (chartColumnTypes_total first N U columns []) as (types & T).
  assert (Doc : exists doc,
            callToolGenerateVisualization stringToNumber fractionToString
              toLowerCase (Parsed (VArr (first :: others))) type caption
            = Returned (inr doc)).
  { unfold callToolGenerateVisualization.
    rewrite (visTypeOf_accepted toLowerCase type Accepted).
    cbn [parse obind].
    rewrite Keys. cbn [obind]. unfold chartColumnTypes. rewrite T.
    cbn [obind].
    match goal with
    | |- context [buildChartData ?a ?b ?c ?d ?e ?f ?g] =>
        destruct (buildChartData_total a b c d e f g R C) as (chart & B);
        rewrite B
    end.
    cbn [obind].
    rewrite (toStringO_convertible fractionToString _ Title). cbn [obind].
    rewrite (tableRows_total fractionToString columns _
               (readable_firstn 10 _ R) (convertibleCells_firstn 10 _ C)).
    cbn [obind]. eauto. }
  destruct Doc as (doc & H).
  destruct (visualization_table _ _ _ _ _ _ _ _ _ Keys H)
    as (Caption & _ & Header & Rows).
  exists columns, doc. split; [exact Keys|]. split; [exact H|].
  split; [exact Caption|]. split; [exact Header|].
  rewrite Rows. unfold tableOf. split; [|split].
  - rewrite length_map, length_firstn. reflexivity.
  - apply Forall_map. apply Forall_forall. intros row _. apply length_map.
  - reflexivity.
Qed.

Lemma generate_visualization_document_witness :
  exists columns doc,
    objectKeys (VObj [field "k" (VStr (lit "a")); field "v" (int 1)])
    = Returned columns
    /\ callToolGenerateVisualization digitsToNumber fractionAsQuotient
         lowerAscii
         (Parsed (VArr [VObj [field "k" (VStr (lit "a")); field "v" (int 1)];
                        VObj [field "k" VNull]]))
         None (Some (VStr []))
       = Returned (inr doc)
    /\ title doc = lit "Data Visualization"
    /\ tableHeader doc = columns.
Proof.
  destruct (generate_visualization_document digitsToNumber
              fractionAsQuotient lowerAscii
              (VObj [field "k" (VStr (lit "a")); field "v" (int 1)])
              [VObj [field "k" VNull]] None (Some (VStr [])))
    as (columns & doc & K & H & T & Hd & _).
  - repeat constructor.
  - repeat constructor; intros col; unfold prop, getProp, lookup, field;
      repeat match goal with
             | |- context [eqs col ?k] => destruct (eqs col k)
             end; reflexivity.
  - reflexivity.
  - reflexivity.
  - exists columns, doc. auto.
Defined.

(* ================================================================== *)
(** ** When the summarizer returns a report *)
(* ================================================================== *)

Lemma in_update {A} k (a : A) e : forall o,
  In e (update k a o) -> e = (k, a) \/ In e o.
Proof.
  induction o as [|[k' a'] o IH]; simpl; [tauto|].
  destruct (eqs k k') eqn:E.
  - apply eqs_spec in E. subst k'. simpl. intros [<-|H]; auto.
  - simpl. intros [<-|H]; auto. destruct (IH H); auto.
Qed.

Lemma in_insertIndex {A} i k (a : A) e : forall o,
  In e (insertIndex i k a o) -> e = (k, a) \/ In e o.
Proof.
  induction o as [|[k' a'] o IH]; simpl.
  - intros [<-|[]]. auto.
  - destruct (arrayIndex k') as [j|]; [destruct (i <? j)%N|]; simpl.
    + intros [<-|[<-|H]]; auto.
    + intros [<-|H]; auto. destruct (IH H); auto.
    + intros [<-|[<-|H]]; auto.
Qed.

Lemma in_assign {A} k (a : A) e o :
  In e (assign k a o) -> e = (k, a) \/ In e o.
Proof.
  unfold assign, insertNew. destruct (lookup k o).
  - apply in_update.
  - destruct (arrayIndex k).
    + apply in_insertIndex.
    + rewrite in_app_iff. simpl. intros [H|[<-|[]]]; auto.
Qed.

Lemma mapO_exists {A B} (f : A -> outcome B) l :
  (forall a, In a l -> exists b, f a = Returned b) ->
  exists bs, mapO f l = Returned bs.
Proof.
  induction l as [|a l IH]; intros H; simpl; [eauto|].
  destruct (H a (or_introl eq_refl)) as (b & ->). cbn [obind].
  destruct IH as (bs & ->); [intros x Hx; apply H; right; exact Hx|].
  cbn [obind]. eauto.
Qed.

Lemma foldO_exists {A S} (f : S -> A -> outcome S) l :
  (forall s a, exists s', f s a = Returned s') ->
  forall s, exists s', foldO f l s = Returned s'.
Proof.
  intros H. induction l as [|a l IH]; intros s; simpl; [eauto|].
  destruct (H s a) as (s' & ->). cbn [obind]. apply IH.
Qed.

Lemma inferColumns_total first columns :
  isNull first = false -> isUndefined first = false ->
  exists columnTypes numericColumns,
    inferColumns first columns = Returned (columnTypes, numericColumns).
Proof.
  intros N U. unfold inferColumns.
  destruct (foldO_exists
              (fun (acc : obj jsstring * list jsstring) col =>
                 let (columnTypes, numericColumns) := acc in
                 sampleValue <~ getProp first col ;;
                 Returned (assignPrimitive col (columnType sampleValue)
                                           columnTypes,
                           if isNumber sampleValue
                           then numericColumns ++ [col] else numericColumns))
              columns) with (s := (@nil (jsstring * jsstring),
                                   @nil jsstring)) as ([types nums] & H).
  - intros [types nums] col. rewrite (getProp_prop first col N U).
    cbn [obind]. eauto.
  - exists types, nums. exact H.
Qed.

Lemma convertibleCells_column data col :
  convertibleCells data ->
  Forall (fun row => convertible (prop row col) = true) data.
Proof.
  unfold convertibleCells. intros C. eapply Forall_impl; [|exact C].
  intros row H. apply H.
Qed.

(** The statistics of a column, for a reader of the object
    [statistics]. *)
Lemma statisticsOf_assign_same col stats statistics :
  statisticsOf (assignStatistics col stats statistics) col = Some stats.
Proof.
  unfold statisticsOf, assignStatistics.
  destruct (eqs col (lit "__proto__")) eqn:P; cbn; [reflexivity|].
  apply lookup_assign_same.
Qed.

Lemma statisticsOf_assign_other col c stats statistics :
  col <> c ->
  statisticsOf (assignStatistics c stats statistics) col
  = statisticsOf statistics col.
Proof.
  intros NE. unfold statisticsOf, assignStatistics.
  destruct (eqs col (lit "__proto__")) eqn:P,
           (eqs c (lit "__proto__")) eqn:Pc; cbn; try reflexivity.
  - apply eqs_spec in P, Pc. congruence.
  - apply lookup_assign_other. exact NE.
Qed.

Lemma in_assignStatistics c stats statistics entry :
  In entry (ownStatistics (assignStatistics c stats statistics)) ->
  entry = (c, stats) \/ In entry (ownStatistics statistics).
Proof.
  unfold assignStatistics. destruct (eqs c (lit "__proto__")); cbn.
  - auto.
  - apply in_assign.
Qed.

Lemma sortBy_nonempty {A} (exceeds : A -> A -> bool) l :
  l <> [] -> sortBy exceeds l <> [].
Proof.
  intros NE E. apply (f_equal (@length A)) in E.
  rewrite sortBy_length in E. destruct l; [congruence | discriminate E].
Qed.

Section ReportReturns.
Variable stringToNumber : jsstring -> number.
Variable fractionToString : Q -> jsstring.
Variable toLowerCase : jsstring -> jsstring.
Variable mathPow : number -> number -> number.
Variable mathSqrt : number -> number.

Local Abbreviation add := (jsAdd stringToNumber fractionToString).
Local Abbreviation addO := (jsAddO stringToNumber fractionToString).
Local Abbreviation keepsValue := (keeps stringToNumber fractionToString).

Lemma jsAdd_convertible a b : convertible (add a b) = true.
Proof.
  unfold jsAdd.
  destruct (toPrimitive fractionToString a),
           (toPrimitive fractionToString b); reflexivity.
Qed.

(** The sum of line 522 of values that can be converted. *)
Lemma sum_total : forall vals acc,
  Forall (fun v => convertible v = true) vals ->
  convertible acc = true ->
  foldO addO vals acc = Returned (fold_left add vals acc).
Proof.
  induction vals as [|v vals IH]; intros acc C A; [reflexivity|].
  inversion C as [|? ? Cv Cvals]; subst. cbn [foldO fold_left].
  replace (addO acc v) with (Returned (add acc v))
    by (unfold jsAddO; rewrite A, Cv; reflexivity).
  cbn [obind]. apply IH; [exact Cvals | apply jsAdd_convertible].
Qed.

Lemma columnStatistics_total vals :
  Forall (fun v => convertible v = true) vals ->
  exists computed,
    columnStatistics stringToNumber fractionToString vals
    = Returned computed
    /\ (vals <> [] -> computed <> None).
Proof.
  intros C. unfold columnStatistics. destruct vals as [|v vs].
  - exists None. split; [reflexivity | congruence].
  - rewrite (sum_total _ (VNum (ofZ 0)) C eq_refl). cbn [obind].
    eexists. split; [reflexivity | discriminate].
Qed.

Lemma computeStatistics_total data numericColumns :
  readable data -> convertibleCells data ->
  exists statistics,
    computeStatistics stringToNumber fractionToString data numericColumns
    = Returned statistics.
Proof.
  intros R C. unfold computeStatistics. apply foldO_exists.
  intros statistics col.
  destruct (columnValues stringToNumber fractionToString data col)
    as [vals|e] eqn:V.
  2:{ rewrite (columnValues_readable stringToNumber fractionToString _ col R
                 (convertibleCells_column _ col C)) in V. discriminate V. }
  cbn [obind]. apply columnValues_returned in V.
  destruct V as (_ & _ & Cv).
  destruct (columnStatistics_total _ Cv) as (computed & -> & _).
  cbn [obind]. eauto.
Qed.

Lemma countValues_total data col :
  readable data -> convertibleCells data ->
  exists valueMap, countValues fractionToString data col = Returned valueMap.
Proof.
  intros R C. unfold countValues. generalize (@nil (jsstring * Tally)).
  induction data as [|row data IH]; intros acc; simpl; [eauto|].
  apply readable_cons in R. destruct R as [[N U] R].
  apply convertibleCells_cons in C. destruct C as [Cr C].
  rewrite (getProp_prop row col N U). cbn [obind].
  destruct (isNull (prop row col) || isUndefined (prop row col)).
  - cbn [obind]. apply IH; assumption.
  - unfold toStringO. rewrite (Cr col). cbn [obind]. apply IH; assumption.
Qed.

Lemma computeCategorical_total data columns columnTypes :
  readable data -> convertibleCells data ->
  exists categoricalAnalysis,
    computeCategorical fractionToString data columns columnTypes
    = Returned categoricalAnalysis.
Proof.
  intros R C. unfold computeCategorical. apply foldO_exists.
  intros analysis col.
  destruct (countValues_total _ col R C) as (valueMap & ->).
  cbn [obind]. eauto.
Qed.

Lemma filterO_exists {A} (p : A -> outcome bool) l :
  (forall a, In a l -> exists b, p a = Returned b) ->
  exists kept, filterO p l = Returned kept.
Proof.
  induction l as [|a l IH]; intros H; simpl; [eauto|].
  destruct (H a (or_introl eq_refl)) as (b & ->). cbn [obind].
  destruct IH as (rest & ->); [intros x Hx; apply H; right; exact Hx|].
  cbn [obind]. eauto.
Qed.

Lemma focusedInsights_total focus data numericColumns statistics :
  readable data -> convertibleCells data -> notAString focus = false ->
  exists focused,
    focusedInsights stringToNumber fractionToString toLowerCase mathPow
                    mathSqrt focus data numericColumns statistics
    = Returned focused.
Proof.
  intros R C Accepted. unfold focusedInsights, notAString in *.
  destruct focus as [v|]; [|eexists; reflexivity].
  destruct v as [| |b|x|[|c f]|elements|properties];
    cbn [truthy isString negb andb] in Accepted |- *;
    rewrite ?andb_true_r in Accepted; try discriminate Accepted;
    try rewrite Accepted; try (eexists; reflexivity).
  destruct numericColumns as [|n ns]; try (eexists; reflexivity).
  destruct (eqs _ (lit "trends")); [eexists; reflexivity|].
  destruct (eqs _ (lit "outliers")).
  - destruct (mapO_exists (outlierLine stringToNumber fractionToString
                             mathPow mathSqrt data statistics) (n :: ns))
      as (lines & ->).
    + intros col _. unfold outlierLine.
      destruct (statisticsOf statistics col); [|eauto].
      rewrite (columnValues_readable stringToNumber fractionToString _ col R
                 (convertibleCells_column _ col C)).
      cbn [obind].
      match goal with
      | |- context [filterO ?p data] =>
          destruct (filterO_exists p data) as (outliers & ->)
      end.
      * intros row HIn. unfold readable in R.
        unfold convertibleCells in C. rewrite Forall_forall in R, C.
        destruct (R row HIn) as [N U].
        rewrite (getProp_prop row col N U). cbn [obind].
        rewrite (kept_convertible stringToNumber fractionToString _
                   (C row HIn col)).
        cbn [obind]. eauto.
      * cbn [obind]. eauto.
    + cbn [obind]. eauto.
  - destruct (eqs _ (lit "distribution")); [|eexists; reflexivity].
    destruct (mapO_exists (distributionLine stringToNumber fractionToString
                             data statistics) (n :: ns)) as (lines & ->).
    + intros col _. unfold distributionLine.
      destruct (statisticsOf statistics col); [|eauto].
      rewrite (columnValues_readable stringToNumber fractionToString _ col R
                 (convertibleCells_column _ col C)).
      cbn [obind]. eauto.
    + cbn [obind]. eauto.
Qed.

(** The report is rendered when the median and the sum of every entry of
    the statistics are numbers and the first numeric column has got
    statistics. *)
Lemma renderAnalysis_total focus rowCount columns columnTypes
      numericColumns statistics categoricalAnalysis focused :
  Forall (fun entry : jsstring * Stats =>
            isNumber (median (snd entry)) = true
            /\ isNumber (sum (snd entry)) = true)
         (ownStatistics statistics) ->
  (forall col rest, numericColumns = col :: rest ->
                    statisticsOf statistics col <> None) ->
  exists analysis,
    renderAnalysis fractionToString focus rowCount columns columnTypes
      numericColumns statistics categoricalAnalysis focused
    = Returned analysis.
Proof.
  intros Numbers First. unfold renderAnalysis.
  assert (Sections : exists sections,
            mapO (statisticsSection fractionToString)
                 (ownStatistics statistics)
            = Returned sections).
  { apply mapO_exists. intros [col stats] HIn.
    rewrite Forall_forall in Numbers.
    destruct (Numbers _ HIn) as [M S]. cbn [snd] in M, S.
    unfold statisticsSection. cbn [valueToFixed2 obind].
    destruct (median stats); try discriminate M.
    destruct (sum stats); try discriminate S.
    cbn [valueToFixed2 obind]. eauto. }
  destruct Sections as (sections & Sections).
  destruct numericColumns as [|col rest].
  - cbn [obind rangeInsight]. eauto.
  - rewrite Sections. cbn [obind]. unfold rangeInsight.
    destruct (statisticsOf statistics col) eqn:L.
    + cbn [obind]. eauto.
    + exfalso. exact (First col rest eq_refl L).
Qed.

(** Every entry of the statistics is that of a numeric column, and every
    numeric column with a value has got statistics. *)
Lemma computeStatistics_entries data : forall numericColumns acc statistics,
  foldO (fun statistics col =>
           vals <~ columnValues stringToNumber fractionToString data col ;;
           computed <~ columnStatistics stringToNumber fractionToString
                         vals ;;
           Returned (match computed with
                     | Some stats => assignStatistics col stats statistics
                     | None => statistics
                     end))
        numericColumns acc = Returned statistics ->
  (forall entry, In entry (ownStatistics statistics) ->
     In entry (ownStatistics acc)
     \/ (In (fst entry) numericColumns
         /\ exists vals,
              columnValues stringToNumber fractionToString data (fst entry)
              = Returned vals
              /\ columnStatistics stringToNumber fractionToString vals
                 = Returned (Some (snd entry))))
  /\ (forall col,
        (In col numericColumns ->
         forall vals,
           columnValues stringToNumber fractionToString data col
           = Returned vals ->
           vals <> [] -> statisticsOf statistics col <> None)
        /\ (statisticsOf acc col <> None ->
            statisticsOf statistics col <> None)).
Proof.
  induction numericColumns as [|c cols IH]; intros acc statistics H.
  - simpl in H. injection H as <-. split; [auto|].
    intros col. split; [intros [] | auto].
  - simpl in H. apply obind_returned in H. destruct H as (acc' & Hc & H).
    apply obind_returned in Hc. destruct Hc as (vals & Hv & Hc).
    apply obind_returned in Hc. destruct Hc as (computed & Hs & Hc).
    injection Hc as <-.
    destruct (IH _ _ H) as [Entries Columns]. split.
    + intros entry HIn.
      destruct (Entries entry HIn) as [Old|(C & vals' & Hv' & S)].
      * destruct computed as [stats|]; [|left; exact Old].
        apply in_assignStatistics in Old.
        destruct Old as [->|Old]; [|left; exact Old].
        right. cbn [fst snd]. split; [left; reflexivity|].
        exists vals. auto.
      * right. split; [right; exact C|]. exists vals'. auto.
    + intros col.
      assert (Keeps : statisticsOf acc col <> None ->
                      statisticsOf
                        (match computed with
                         | Some stats => assignStatistics c stats acc
                         | None => acc
                         end) col <> None).
      { intros Old. destruct computed as [stats|]; [|exact Old].
        destruct (list_eq_dec N.eq_dec col c) as [->|NE].
        - rewrite statisticsOf_assign_same. discriminate.
        - rewrite (statisticsOf_assign_other _ _ stats acc NE). exact Old. }
      split.
      * intros [->|HIn] vals' Hv' NonEmpty.
        -- apply (proj2 (Columns col)).
           rewrite Hv in Hv'. injection Hv' as <-.
           apply columnValues_returned in Hv. destruct Hv as (_ & _ & Cv).
           destruct (columnStatistics_total _ Cv) as (computed' & Hs' & Some').
           rewrite Hs in Hs'. injection Hs' as <-.
           destruct computed as [stats|]; [|exfalso; apply Some'; auto].
           rewrite statisticsOf_assign_same. discriminate.
        -- exact (proj1 (Columns col) HIn vals' Hv' NonEmpty).
      * intros Old. apply (proj2 (Columns col)). apply Keeps. exact Old.
Qed.

(** The statistics of values that are numbers: the sum and the median
    are numbers. *)
Lemma sum_numbers : forall vals n,
  Forall (fun v => isNumber v = true) vals ->
  isNumber (fold_left add vals (VNum n)) = true.
Proof.
  induction vals as [|v vals IH]; intros n F; [reflexivity|].
  inversion F as [|? ? Fv Fvals]; subst. cbn [fold_left].
  destruct v; try discriminate Fv. apply IH. exact Fvals.
Qed.

Lemma nth_number (sorted : list value) i :
  Forall (fun v => isNumber v = true) sorted ->
  (i < length sorted)%nat ->
  isNumber (nth i sorted VUndefined) = true.
Proof.
  intros F L. rewrite Forall_forall in F. apply F. apply nth_In. exact L.
Qed.

Lemma medianOf_number sorted :
  Forall (fun v => isNumber v = true) sorted -> sorted <> [] ->
  isNumber (medianOf stringToNumber fractionToString sorted) = true.
Proof.
  intros F NE. unfold medianOf.
  destruct (Nat.even (length sorted)); [reflexivity|].
  apply nth_number; [exact F|].
  apply Nat.div_lt; [|lia].
  destruct sorted; [congruence | simpl; lia].
Qed.

Lemma columnStatistics_numbers vals stats :
  Forall (fun v => isNumber v = true) vals ->
  columnStatistics stringToNumber fractionToString vals
  = Returned (Some stats) ->
  isNumber (median stats) = true /\ isNumber (sum stats) = true.
Proof.
  intros F H. unfold columnStatistics in H.
  destruct vals as [|v vs]; [discriminate H|].
  assert (C : Forall (fun v => convertible v = true) (v :: vs)).
  { eapply Forall_impl; [|exact F]. intros x Hx.
    destruct x; try discriminate Hx. reflexivity. }
  rewrite (sum_total _ (VNum (ofZ 0)) C eq_refl) in H. cbn [obind] in H.
  injection H as <-. cbn [median sum]. split.
  - apply medianOf_number.
    + unfold sortAscending. rewrite Forall_forall in F |- *.
      intros x Hx. apply F.
      eapply Permutation_in; [apply sortBy_perm | exact Hx].
    + exact (sortBy_nonempty
               (fun a b =>
                  ngt (jsSub stringToNumber fractionToString a b) (ofZ 0))
               (v :: vs) ltac:(discriminate)).
  - exact (sum_numbers (v :: vs) (ofZ 0) F).
Qed.
End ReportReturns.

Lemma keeps_number stringToNumber fractionToString n :
  isNaNnum n = false ->
  keeps stringToNumber fractionToString (VNum n) = true.
Proof. intros H. unfold keeps. cbn. rewrite H. reflexivity. Qed.

(** X14.  The tool [analyze_results] returns a report, without the error
    flag, for a [focus] that is a string, falsy or absent and every array of
    rows that are neither null nor missing and hold no value that cannot
    be converted to a primitive (an object with an own property
    [toString]), in which, for each column whose value in the first row
    is a number, that number is not NaN and the values of the rows that
    line 520 keeps are numbers.  (A kept value that is not a number, such
    as a numeric string, makes the report fail on the statistics of its
    column.) *)
Theorem analyze_results_reports :
  forall (stringToNumber : jsstring -> number)
         (fractionToString : Q -> jsstring)
         (toLowerCase : jsstring -> jsstring)
         (mathPow : number -> number -> number)
         (mathSqrt : number -> number)
         (first : value) (others : list value)
         (focus : option value) (columns : list jsstring),
    readable (first :: others) ->
    convertibleCells (first :: others) ->
    notAString focus = false ->
    objectKeys first = Returned columns ->
    (forall col,
       In col columns -> numericColumn first col = true ->
       prop first col <> VNum NaN
       /\ Forall (fun row =>
                    keeps stringToNumber fractionToString (prop row col)
                    = true ->
                    isNumber (prop row col) = true)
                 (first :: others)) ->
    exists report,
      callToolAnalyzeResults stringToNumber fractionToString toLowerCase
        mathPow mathSqrt (Parsed (VArr (first :: others))) focus
      = Returned {| text := report; isError := false |}.
Proof.
  intros stringToNumber fractionToString toLowerCase mathPow mathSqrt first
         others focus columns R C Accepted Keys Typed.
  pose proof R as R0. apply readable_cons in R0. destruct R0 as [[N U] _].
  destruct (inferColumns_total first columns N U) as (types & nums & Infer).
  pose proof Infer as Nums. unfold inferColumns in Nums.
  apply inferColumns_numeric in Nums. cbn [app] in Nums.
  destruct (computeStatistics_total stringToNumber fractionToString
              _ nums R C) as (statistics & Stats).
  destruct (computeCategorical_total fractionToString _ columns types R C)
    as (categorical & Cat).
  destruct (focusedInsights_total stringToNumber fractionToString
              toLowerCase mathPow mathSqrt focus _ nums statistics R C
              Accepted)
    as (focused & Focused).
  assert (Numeric : forall col, In col nums ->
            In col columns /\ numericColumn first col = true).
  { intros col HIn. rewrite Nums in HIn. apply filter_In in HIn. exact HIn. }
  pose proof Stats as Entries. unfold computeStatistics in Entries.
  apply computeStatistics_entries in Entries.
  destruct Entries as [Entries Columns].
  destruct (renderAnalysis_total fractionToString focus
              (length (first :: others)) columns types nums statistics
              categorical focused) as (analysis & Render).
  - apply Forall_forall. intros [col stats] HIn.
    destruct (Entries _ HIn) as [[]|(Col & vals & Hv & S)].
    cbn [fst snd] in *.
    destruct (Numeric col Col) as [InC Num].
    destruct (Typed col InC Num) as [_ Kept].
    apply columnValues_returned in Hv. destruct Hv as (-> & _ & _).
    refine (columnStatistics_numbers stringToNumber fractionToString _ _ _ S).
    apply Forall_forall. intros v Hv. apply filter_In in Hv.
    destruct Hv as [HIn' K]. apply in_map_iff in HIn'.
    destruct HIn' as (row & <- & HRow).
    rewrite Forall_forall in Kept. exact (Kept row HRow K).
  - intros col rest E.
    assert (Col : In col nums) by (rewrite E; left; reflexivity).
    destruct (Numeric col Col) as [InC Num].
    destruct (Typed col InC Num) as [NotNaN _].
    refine (proj1 (Columns col) Col _
              (columnValues_readable stringToNumber fractionToString _ col R
                 (convertibleCells_column _ col C)) _).
    cbn [List.map filter]. unfold numericColumn in Num.
    destruct (prop first col) as [| | |n| | |]; try discriminate Num.
    rewrite keeps_number; [discriminate|].
    destruct n; try reflexivity. exfalso. apply NotNaN. reflexivity.
  - exists analysis. unfold callToolAnalyzeResults. cbn [parse obind].
    rewrite Keys. cbn [obind]. rewrite Infer. cbn [obind].
    rewrite Stats. cbn [obind]. rewrite Cat. cbn [obind].
    rewrite Focused. cbn [obind]. rewrite Render. reflexivity.
Qed.

Lemma analyze_results_reports_witness :
  exists report,
    callToolAnalyzeResults digitsToNumber fractionAsQuotient lowerAscii
      squareOf rootOf
      (Parsed (VArr [VObj [field "a" (int 1); field "c" (VStr (lit "x"))];
                     VObj [field "a" VNull; field "c" (VStr (lit "y"))];
                     VObj [field "a" (int 3)]]))
      (Some (VStr (lit "Outliers")))
    = Returned {| text := report; isError := false |}.
Proof.
  apply (analyze_results_reports digitsToNumber fractionAsQuotient
           lowerAscii squareOf rootOf
           (VObj [field "a" (int 1); field "c" (VStr (lit "x"))])
           [VObj [field "a" VNull; field "c" (VStr (lit "y"))];
            VObj [field "a" (int 3)]]
           (Some (VStr (lit "Outliers"))) [lit "a"; lit "c"]).
  - repeat constructor.
  - repeat constructor; intros col; unfold prop, getProp, lookup, field;
      repeat match goal with
             | |- context [eqs col ?k] => destruct (eqs col k)
             end; reflexivity.
  - reflexivity.
  - reflexivity.
  - intros col [<-|[<-|[]]] Num.
    + split; [discriminate|]. repeat constructor; discriminate.
    + discriminate Num.
Defined.
(* ================================================================== *)
(** ** Columns without a value to summarize *)
(* ================================================================== *)

Section StatisticsSources.
Variable stringToNumber : jsstring -> number.
Variable fractionToString : Q -> jsstring.

End StatisticsSources.



(* ================================================================== *)
(** ** The histogram of the distribution section *)
(* ================================================================== *)








Section Distribution.
Variable stringToNumber : jsstring -> number.
Variable fractionToString : Q -> jsstring.

Local Abbreviation number := (toNumber stringToNumber fractionToString).






End Distribution.



(* ================================================================== *)
(** ** Possible foreign keys *)
(* ================================================================== *)

Lemma includes_spec n : forall s,
  includes n s = true <-> exists pre post, s = pre ++ n ++ post.
Proof.
  induction s as [|c s IH]; cbn [includes].
  - rewrite orb_false_r, startsWith_spec. split.
    + intros (r & E). exists [], r. exact E.
    + intros (pre & post & E). destruct pre; [|discriminate E].
      exists post. exact E.
  - rewrite orb_true_iff, startsWith_spec, IH. split.
    + intros [(r & E)|(pre & post & E)].
      * exists [], r. exact E.
      * exists (c :: pre), post. rewrite E. reflexivity.
    + intros ([|c' pre] & post & E).
      * left. exists post. exact E.
      * right. injection E as _ E. eauto.
Qed.

Lemma endsWith_spec suffix s :
  endsWith suffix s = true <-> exists base, s = base ++ suffix.
Proof.
  unfold endsWith. rewrite startsWith_spec. split.
  - intros (r & E). exists (rev r).
    apply (f_equal (@rev _)) in E. rewrite rev_involutive in E.
    rewrite E, rev_app_distr, rev_involutive. reflexivity.
  - intros (base & ->). exists (rev base). apply rev_app_distr.
Qed.

(** The replacement takes place at the leftmost occurrence. *)
Lemma replaceString_leftmost pattern replacement : forall pre post s,
  pattern <> [] ->
  leftmost pattern pre post s ->
  replaceString pattern replacement s = pre ++ replacement ++ post.
Proof.
  induction pre as [|c pre IH]; intros post s NE [-> Least].
  - destruct pattern as [|p pattern]; [congruence|].
    cbn [app]. cbn [replaceString].
    change (p :: pattern ++ post) with ((p :: pattern) ++ post).
    rewrite startsWith_app.
    change (skipn (length (p :: pattern)) ((p :: pattern) ++ post))
      with (skipn (length pattern) (pattern ++ post)).
    rewrite skipn_app, skipn_all, Nat.sub_diag. reflexivity.
  - cbn [app replaceString].
    destruct (startsWith pattern (c :: pre ++ pattern ++ post)) eqn:S.
    + apply startsWith_spec in S. destruct S as (r & E).
      specialize (Least [] r E). simpl in Least. lia.
    + apply f_equal. apply IH; [exact NE|]. split; [reflexivity|].
      intros pre' post' E.
      specialize (Least (c :: pre') post'). cbn [app] in Least.
      rewrite E in Least. specialize (Least eq_refl). simpl in Least. lia.
Qed.

Lemma replaceString_absent pattern replacement : forall s,
  includes pattern s = false -> replaceString pattern replacement s = s.
Proof.
  induction s as [|c s IH]; cbn [includes replaceString]; intros H.
  - rewrite orb_false_r in H. rewrite H. reflexivity.
  - apply orb_false_iff in H. destruct H as [S I]. rewrite S, (IH I).
    reflexivity.
Qed.

(** A name whose only [_id] is its end. *)
Lemma suffix_leftmost base :
  includes (lit "_id") base = false ->
  leftmost (lit "_id") base [] (base ++ lit "_id").
Proof.
  intros Absent. split; [rewrite app_nil_r; reflexivity|].
  intros pre' post' E.
  destruct (Nat.le_gt_cases (length base) (length pre')) as [L|L];
    [exact L|].
  exfalso. apply suffix_cases in E.
  destruct E as [(b & -> & E & NE)|(b & Eb & ->)].
  - rewrite length_app in L. lia.
  - destruct b as [|x [|y [|z b]]].
    + rewrite app_nil_r in L. lia.
    + injection Eb as <- Eb. discriminate Eb.
    + injection Eb as <- <- Eb. discriminate Eb.
    + injection Eb as <- <- <- Eb.
      assert (I : includes (lit "_id") (pre' ++ lit "_id" ++ b) = true).
      { apply includes_spec. exists pre', b. reflexivity. }
      change (95 :: 105 :: 100 :: b)%N with (lit "_id" ++ b) in Absent.
      congruence.
Qed.

Lemma relationshipsOf_fields datasetId tableId : forall fieldNames,
  relationshipsOf datasetId tableId fieldNames
  = List.map (fun name =>
                {| sourceTable := datasetId ++ lit "." ++ tableId;
                   sourceField := name;
                   possibleTargetTable := replaceString (lit "_id") [] name;
                   relationshipType := lit "possible foreign key" |})
             (filter (endsWith (lit "_id")) fieldNames).
Proof.
  induction fieldNames as [|name names IH]; [reflexivity|].
  cbn [relationshipsOf flat_map filter]. fold (relationshipsOf datasetId
                                                 tableId names).
  rewrite IH.
  destruct (endsWith (lit "_id") name) eqn:E; [|reflexivity].
  assert (N : eqs name (lit "id") = false).
  { apply eqs_false. intros ->. discriminate E. }
  rewrite N. reflexivity.
Qed.

Lemma leftmost_exists pattern : forall s,
  includes pattern s = true ->
  exists pre post, leftmost pattern pre post s.
Proof.
  induction s as [|c s IH]; cbn [includes]; intros H.
  - rewrite orb_false_r in H. apply startsWith_spec in H.
    destruct H as (r & E). exists [], r. split; [exact E|].
    intros pre' post' _. simpl. lia.
  - destruct (startsWith pattern (c :: s)) eqn:S.
    + apply startsWith_spec in S. destruct S as (r & E).
      exists [], r. split; [exact E|]. intros pre' post' _. simpl. lia.
    + cbn [orb] in H. destruct (IH H) as (pre & post & -> & Least).
      exists (c :: pre), post. split; [reflexivity|].
      intros [|c' pre'] post' E.
      * assert (T : startsWith pattern (c :: pre ++ pattern ++ post) = true).
        { apply startsWith_spec. exists post'. exact E. }
        congruence.
      * injection E as _ E. specialize (Least pre' post' E). simpl. lia.
Qed.

(** X15.  The schema insights propose a relationship for exactly the
    fields whose name ends with [_id], in the order of the fields, and the
    table they point to is the name without its first [_id]: for a name
    whose only [_id] is its end, such as [user_id], the name without the
    ending; for a name that holds [_id] earlier, such as
    [paid_identity_id], the name with that earlier part cut out and the
    ending kept. *)
Theorem possible_foreign_keys :
  forall (datasetId tableId : jsstring) (fieldNames : list jsstring),
    List.map sourceField (relationshipsOf datasetId tableId fieldNames)
    = filter (endsWith (lit "_id")) fieldNames
    /\ (forall name,
          endsWith (lit "_id") name = true
          <-> exists base, name = base ++ lit "_id")
    /\ (forall relationship,
          In relationship (relationshipsOf datasetId tableId fieldNames) ->
          sourceTable relationship = datasetId ++ lit "." ++ tableId
          /\ (exists pre post,
                leftmost (lit "_id") pre post (sourceField relationship)
                /\ possibleTargetTable relationship = pre ++ post)
          /\ (forall base,
                sourceField relationship = base ++ lit "_id" ->
                includes (lit "_id") base = false ->
                possibleTargetTable relationship = base)).
Proof.
  intros datasetId tableId fieldNames.
  split; [|split].
  - rewrite relationshipsOf_fields, map_map. cbn [sourceField].
    apply map_id.
  - intros name. apply endsWith_spec.
  - intros relationship HIn. rewrite relationshipsOf_fields in HIn.
    apply in_map_iff in HIn. destruct HIn as (name & <- & HIn).
    apply filter_In in HIn. destruct HIn as [_ E].
    cbn [sourceTable sourceField possibleTargetTable].
    split; [reflexivity|]. split.
    + apply endsWith_spec in E. destruct E as (base & ->).
      destruct (leftmost_exists (lit "_id") (base ++ lit "_id"))
        as (pre & post & L).
      { apply includes_spec. exists base, []. reflexivity. }
      exists pre, post. split; [exact L|].
      rewrite (replaceString_leftmost (lit "_id") [] pre post _
                 ltac:(discriminate) L).
      reflexivity.
    + intros base -> Absent.
      rewrite (replaceString_leftmost (lit "_id") [] base [] _
                 ltac:(discriminate) (suffix_leftmost base Absent)).
      apply app_nil_r.
Qed.

Lemma possible_foreign_keys_witness :
  List.map (fun relationship =>
              (sourceField relationship, possibleTargetTable relationship))
    (relationshipsOf (lit "shop") (lit "orders")
       [lit "id"; lit "user_id"; lit "total"; lit "paid_identity_id"])
  = [(lit "user_id", lit "user");
     (lit "paid_identity_id", lit "paidentity_id")]
  /\ List.map sourceField
       (relationshipsOf (lit "shop") (lit "orders")
          [lit "id"; lit "user_id"; lit "total"; lit "paid_identity_id"])
     = [lit "user_id"; lit "paid_identity_id"].
Proof.
  split; [reflexivity|].
  exact (proj1 (possible_foreign_keys (lit "shop") (lit "orders")
                  [lit "id"; lit "user_id"; lit "total";
                   lit "paid_identity_id"])).
Defined.

(* ================================================================== *)
(** ** Resource paths *)
(* ================================================================== *)

Lemma splitOn_nonempty sep s : splitOn sep s <> [].
Proof.
  destruct s as [|c s]; simpl; [discriminate|].
  destruct (c =? sep)%N; [discriminate|].
  destruct (splitOn sep s); discriminate.
Qed.

Lemma splitOn_app sep b : forall a,
  splitOn sep (a ++ sep :: b) = splitOn sep a ++ splitOn sep b.
Proof.
  induction a as [|c a IH]; cbn [app splitOn].
  - rewrite N.eqb_refl. reflexivity.
  - rewrite IH. destruct (c =? sep)%N; [reflexivity|].
    destruct (splitOn sep a) as [|x xs] eqn:E; [|reflexivity].
    exfalso. exact (splitOn_nonempty sep a E).
Qed.

Lemma splitOn_plain sep : forall w,
  Forall (fun c => c <> sep) w -> splitOn sep w = [w].
Proof.
  induction 1 as [|c w Hc F IH]; [reflexivity|].
  cbn [splitOn]. rewrite IH.
  destruct (c =? sep)%N eqn:E; [|reflexivity].
  apply N.eqb_eq in E. contradiction.
Qed.

(** The last component is what follows the last separator. *)
Lemma splitOn_last sep : forall s,
  exists init w,
    splitOn sep s = init ++ [w]
    /\ ((init = [] /\ s = w)
        \/ (init <> [] /\ exists pre, s = pre ++ sep :: w)).
Proof.
  induction s as [|c s IH].
  - exists [], []. split; [reflexivity|]. left. auto.
  - destruct IH as (init & w & E & Shape). cbn [splitOn]. rewrite E.
    destruct (c =? sep)%N eqn:C.
    + apply N.eqb_eq in C. subst c.
      exists ([] :: init), w. split; [reflexivity|]. right.
      split; [discriminate|].
      destruct Shape as [[-> ->]|[_ (pre & ->)]].
      * exists []. reflexivity.
      * exists (sep :: pre). reflexivity.
    + destruct init as [|i0 init].
      * exists [], (c :: w). split; [reflexivity|]. left.
        destruct Shape as [[_ ->]|[NE _]]; [auto | congruence].
      * exists ((c :: i0) :: init), w. split; [reflexivity|]. right.
        split; [discriminate|].
        destruct Shape as [[NE _]|[_ (pre & ->)]]; [discriminate|].
        exists (c :: pre). reflexivity.
Qed.

Lemma pop_last {A} (l : list A) x : pop (l ++ [x]) = (Some x, l).
Proof.
  unfold pop. rewrite rev_app_distr. cbn [rev app].
  rewrite rev_involutive. reflexivity.
Qed.

Lemma resourceTarget_last pathname init w :
  splitOn 47 pathname = init ++ [w] ->
  (exists target, resourceTarget pathname = Returned target)
  <-> w = lit "schema".
Proof.
  intros E. unfold resourceTarget. rewrite E, pop_last.
  destruct (pop init) as [tableId rest].
  destruct (pop rest) as [datasetId rest'].
  destruct (eqs w (lit "schema")) eqn:S.
  - apply eqs_spec in S. split; [intros _; exact S | eauto].
  - split; [intros (target & H); discriminate H|].
    intros ->. discriminate S.
Qed.

(** X16.  A read of a resource takes the last three components of the
    path of its URI, as [URL] gives it, for the dataset, the table and the
    word [schema]: a path that ends in [/ds/tbl/schema], where neither
    [ds] nor [tbl] holds a slash, names the dataset [ds] and the table
    [tbl], as they stand in the path.  The read is refused, with the error
    "Invalid resource URI", exactly when the last component is not
    [schema]; the number of components is not checked, so that the path
    [/schema] is let through with an empty table and no dataset. *)
Theorem resource_read_target :
  (forall prefix datasetId tableId : jsstring,
      Forall (fun c => c <> 47%N) datasetId ->
      Forall (fun c => c <> 47%N) tableId ->
      resourceTarget (prefix ++ lit "/" ++ datasetId ++ lit "/" ++ tableId
                      ++ lit "/schema")
      = Returned (Some datasetId, Some tableId))
  /\ (forall pathname : jsstring,
        (exists target, resourceTarget pathname = Returned target)
        <-> pathname = lit "schema"
            \/ exists pre, pathname = pre ++ lit "/schema")
  /\ (forall pathname e,
        resourceTarget pathname = Thrown e ->
        e = ErrorObj (lit "Invalid resource URI"))
  /\ resourceTarget (lit "/schema") = Returned (None, Some []).
Proof.
  split; [|split; [|split]].
  - intros prefix datasetId tableId D T.
    unfold resourceTarget.
    change (lit "/" ++ datasetId ++ lit "/" ++ tableId ++ lit "/schema")
      with (47%N :: datasetId ++ 47%N :: tableId ++ 47%N :: lit "schema").
    rewrite (splitOn_app 47 _ prefix), (splitOn_app 47 _ datasetId),
            (splitOn_app 47 _ tableId).
    rewrite (splitOn_plain 47 datasetId D), (splitOn_plain 47 tableId T).
    change (splitOn 47 (lit "schema")) with [lit "schema"].
    rewrite !app_assoc, !pop_last. reflexivity.
  - intros pathname.
    destruct (splitOn_last 47 pathname) as (init & w & E & Shape).
    rewrite (resourceTarget_last pathname init w E). split.
    + intros ->. destruct Shape as [[_ ->]|[_ (pre & ->)]]; [auto|].
      right. exists pre. reflexivity.
    + intros [->|(pre & ->)].
      * cbn in E. destruct init as [|i0 [|i1 init]]; try discriminate E.
        injection E as <-. reflexivity.
      * change (pre ++ lit "/schema") with (pre ++ 47%N :: lit "schema")
          in E.
        rewrite splitOn_app in E.
        change (splitOn 47 (lit "schema")) with [lit "schema"] in E.
        apply app_inj_tail in E. destruct E as [_ <-]. reflexivity.
  - intros pathname e. unfold resourceTarget.
    destruct (pop (splitOn 47 pathname)) as [[s|] r];
      destruct (pop r) as [t r']; destruct (pop r') as [d r''];
      [destruct (eqs s (lit "schema"))|]; intros [=]; auto.
  - reflexivity.
Qed.

Lemma resource_read_target_witness :
  resourceTarget (lit "/sales/orders_2024/schema")
  = Returned (Some (lit "sales"), Some (lit "orders_2024")).
Proof.
  refine (proj1 resource_read_target [] (lit "sales")
            (lit "orders_2024") _ _);
    repeat constructor; discriminate.
Defined.

(* ================================================================== *)
(** ** What the warehouse receives *)
(* ================================================================== *)

Lemma backticks_app a b : backticks (a ++ b) = (backticks a + backticks b)%nat.
Proof. apply count_occ_app. Qed.

Lemma occurrence_backticks dataset m : occurrence dataset m -> backticks m = O.
Proof.
  intros O. apply count_occ_not_In.
  apply matchChar_not_backtick. eapply occurrence_chars. exact O.
Qed.

Lemma qualified_backticks pid ds : (2 <= backticks (qualified pid ds))%nat.
Proof.
  unfold qualified. rewrite !backticks_app.
  change (backticks (lit "FROM `")) with 1%nat.
  change (backticks (lit ".INFORMATION_SCHEMA.TABLES`")) with 1%nat.
  lia.
Qed.

(** The rewrite removes no backtick. *)
Lemma qualifyTablePath_backticks pid : forall sql out,
  qualifyTablePath sql pid = Returned out ->
  (backticks sql <= backticks out)%nat.
Proof.
  by_length sql IH. intros out H. rewrite qualifyTablePath_eq in H.
  destruct (matchFrom sql) as [[dataset r]|] eqn:M.
  - pose proof (matchFrom_shorter _ _ _ M) as [L _].
    pose proof (matchFrom_occurrence _ _ _ M) as (m & -> & O).
    destruct dataset as [[|c ds]|]; try discriminate H.
    apply prepend_returned in H. destruct H as (out' & Hr & ->).
    rewrite !backticks_app, (occurrence_backticks _ _ O).
    specialize (IH r L out' Hr). lia.
  - destruct sql as [|c sql]; [injection H as <-; reflexivity|].
    apply prepend_returned in H. destruct H as (out' & Hr & ->).
    change (c :: sql) with ([c] ++ sql). rewrite !backticks_app.
    specialize (IH sql ltac:(simpl; lia) out' Hr). lia.
Qed.

(** After the rewrite no reference is left to qualify. *)
Lemma qualifyTablePath_complete pid sql out :
  allOf isProjectIdChar pid ->
  qualifyTablePath sql pid = Returned out ->
  occurrenceFree out.
Proof.
  intros Apid H pre m post dataset E O.
  pose proof (qualifyTablePath_idempotent pid Apid sql out H) as Again.
  rewrite E in Again. destruct dataset as [ds|]; cbn [occurrence] in O.
  - destruct (qualifyTablePath_rewrites pid pre m post ds _ O Again)
      as (pre' & post' & Hpre & Hpost & Eout).
    apply qualifyTablePath_backticks in Hpre, Hpost.
    apply (f_equal backticks) in Eout.
    rewrite !backticks_app in Eout.
    rewrite (occurrence_backticks (Some ds) m O) in Eout.
    pose proof (qualified_backticks pid ds). lia.
  - rewrite (qualifyTablePath_throws pid pre m post O) in Again.
    discriminate Again.
Qed.

(** X17.  With the project id the server runs with, the rewrite leaves
    no text of the form [FROM [ds.]INFORMATION_SCHEMA.TABLES] in its
    result: the keyword FROM, white space, a dataset of word characters
    with its dot or none, and INFORMATION_SCHEMA.TABLES, in any letter
    case.  So, of a statement whose upper-cased text contains
    INFORMATION_SCHEMA, no request the warehouse receives holds a text of
    that form.  A reference to the view that does not follow FROM, such
    as one after JOIN, is not of that form: it is sent as it is. *)
Theorem warehouse_receives_qualified :
  forall (Rows : Type) (JSON_stringify : Rows -> jsstring)
         (toUpperCase : jsstring -> jsstring)
         (bigquery_query : QueryOptions -> outcome Rows)
         (config : ServerConfig) (sql : jsstring)
         (maximumBytes : option jsstring),
    validProjectId config = true ->
    (forall out,
       qualifyTablePath sql (projectId config) = Returned out ->
       occurrenceFree out)
    /\ (includes (lit "INFORMATION_SCHEMA") (toUpperCase sql) = true ->
        forall request,
          In request
             (snd (run (callToolQuery JSON_stringify toUpperCase
                          bigquery_query config sql maximumBytes))) ->
          occurrenceFree (query request))
    /\ qualifyTablePath
         (lit "SELECT 1 FROM t JOIN ds.INFORMATION_SCHEMA.TABLES")
         (projectId config)
       = Returned (lit "SELECT 1 FROM t JOIN ds.INFORMATION_SCHEMA.TABLES").
Proof.
  intros Rows JSON_stringify toUpperCase bigquery_query config sql
         maximumBytes Valid.
  pose proof (validProjectId_chars config Valid) as Apid.
  split; [|split].
  - intros out H. exact (qualifyTablePath_complete _ _ _ Apid H).
  - intros Gate request HIn.
    destruct (test true forbiddenPattern sql) eqn:G.
    + rewrite (callToolQuery_guarded _ _ _ _ _ _ _ G) in HIn.
      destruct HIn.
    + rewrite (callToolQuery_passed _ _ _ _ _ _ _ G) in HIn.
      unfold qualifyInformationSchema in HIn. rewrite Gate in HIn.
      destruct (qualifyTablePath sql (projectId config)) as [out|[m|]] eqn:Q;
        try (destruct HIn; fail).
      assert (E : query request = out).
      { destruct (bigquery_query _) as [rows|[m|]];
          destruct HIn as [<-|[]]; reflexivity. }
      rewrite E. exact (qualifyTablePath_complete _ _ _ Apid Q).
  - vm_compute. reflexivity.
Qed.

Lemma warehouse_receives_qualified_witness :
  qualifyTablePath
    (lit "select * from   ds.information_schema.tables")
    (lit "my-project")
  = Returned (lit "select * FROM `my-project.ds.INFORMATION_SCHEMA.TABLES`")
  /\ occurrenceFree
       (lit "select * FROM `my-project.ds.INFORMATION_SCHEMA.TABLES`").
Proof.
  split; [reflexivity|].
  exact (proj1 (warehouse_receives_qualified (list jsstring)
                  exampleStringify upperAscii answeringWarehouse
                  exampleConfig
                  (lit "select * from   ds.information_schema.tables")
                  None eq_refl)
           _ eq_refl).
Defined.

(* ================================================================== *)
(** ** The wrapper script and the calls of the warehouse *)
(* ================================================================== *)

(** X18.  The arguments the wrapper script passes are accepted by
    [parseArgs] whenever the path of the key file does not begin with two
    dashes: the server is configured with the project of the script, its
    key file and the location US, and the project id passes the format
    check of [validateConfig]. *)
Theorem wrapper_starts_server :
  forall keyFilePath : jsstring,
    startsWith (lit "--") keyFilePath = false ->
    parseArgs (wrapperArguments keyFilePath)
    = Returned {| projectId := lit "bestreviews-200115";
                  location := Some (lit "US");
                  keyFilename := Some keyFilePath |}
    /\ validProjectId {| projectId := lit "bestreviews-200115";
                         location := Some (lit "US");
                         keyFilename := Some keyFilePath |} = true.
Proof.
  intros keyFilePath Plain. split; [|reflexivity].
  unfold parseArgs, wrapperArguments.
  change [lit "--project-id"; lit "bestreviews-200115";
          lit "--key-file"; keyFilePath; lit "--location"; lit "US"]
    with (argumentsOf [(lit "project-id", lit "bestreviews-200115");
                       (lit "key-file", keyFilePath);
                       (lit "location", lit "US")]).
  rewrite parseArgsLoop_options.
  - reflexivity.
  - repeat constructor. exact Plain.
Qed.

Lemma wrapper_starts_server_witness :
  parseArgs (wrapperArguments (lit "/opt/mcp/bestreviews-200115-38ee35ffe54f.json"))
  = Returned {| projectId := lit "bestreviews-200115";
                location := Some (lit "US");
                keyFilename :=
                  Some (lit "/opt/mcp/bestreviews-200115-38ee35ffe54f.json") |}.
Proof.
  exact (proj1 (wrapper_starts_server
                  (lit "/opt/mcp/bestreviews-200115-38ee35ffe54f.json")
                  eq_refl)).
Defined.

(** X19.  A call of the tool [query] contacts the warehouse at most once,
    whatever the warehouse answers: a failed request is not sent again.
    It contacts the warehouse not at all exactly when the statement is
    rejected by the read-only guard or the qualification of
    INFORMATION_SCHEMA throws. *)
Theorem query_contacts_warehouse_once :
  forall (Rows : Type) (JSON_stringify : Rows -> jsstring)
         (toUpperCase : jsstring -> jsstring)
         (bigquery_query : QueryOptions -> outcome Rows)
         (config : ServerConfig) (sql : jsstring)
         (maximumBytes : option jsstring),
    let calls :=
      snd (run (callToolQuery JSON_stringify toUpperCase bigquery_query
                  config sql maximumBytes)) in
    (length calls <= 1)%nat
    /\ (calls = []
        <-> test true forbiddenPattern sql = true
            \/ exists e,
                 qualifyInformationSchema toUpperCase config sql = Thrown e).
Proof.
  intros Rows JSON_stringify toUpperCase bigquery_query config sql
         maximumBytes calls. subst calls.
  destruct (test true forbiddenPattern sql) eqn:G.
  - rewrite (callToolQuery_guarded _ _ _ _ _ _ _ G). cbn [snd length].
    split; [lia|]. split; auto.
  - rewrite (callToolQuery_passed _ _ _ _ _ _ _ G).
    destruct (qualifyInformationSchema toUpperCase config sql)
      as [sql'|e] eqn:Q.
    + destruct (bigquery_query _) as [rows|[m|]]; cbn [snd length];
        (split; [lia|]); (split; [discriminate|]);
        intros [H|(e & H)]; discriminate H.
    + destruct e as [m|]; cbn [snd length]; (split; [lia|]);
        (split; [intros _; right; eauto | reflexivity]).
Qed.

Lemma query_contacts_warehouse_once_witness :
  snd (run (callToolQuery exampleStringify upperAscii failingWarehouse
              exampleConfig (lit "select 1") None))
  = [{| query := lit "select 1"; queryLocation := Some (lit "US");
        maximumBytesBilled := lit "1000000000" |}]
  /\ (length
        (snd (run (callToolQuery exampleStringify upperAscii
                     failingWarehouse exampleConfig (lit "select 1") None)))
      <= 1)%nat.
Proof.
  split; [reflexivity|].
  exact (proj1 (query_contacts_warehouse_once (list jsstring)
                  exampleStringify upperAscii failingWarehouse exampleConfig
                  (lit "select 1") None)).
Defined.
